(** * s3-demo: the log route, the object route and the views that call them

    A shallow embedding of the route handlers of the repository, of the
    handlers of its views and of the part of the JavaScript runtime they
    call, followed by the properties that the specification states about
    them and by further properties read off the code.

    Conventions of the embedding.
    - A JavaScript string is the list of its UTF-16 code units ([str]); a
      literal of this file stands for the code units of its ASCII text.
    - [undefined] is [None] of an [option]; every other value the handlers
      meet comes out of [JSON.parse] and is a [json].
    - A number is a binary64 value ([num]): a literal is rounded to the
      nearest one, to infinity beyond the range.  [JSON.parse] makes no
      NaN, so there is none.
    - [String.prototype.toUpperCase] and [toLowerCase] depend on the
      tables of the Unicode standard, which are not part of the
      repository: the handlers that call them take them as parameters, and
      a property that needs a fact about them states it as a hypothesis.
    - [console.log] and [console.error] have no effect on a handler's result
      and are left out.
    - [new Date().toISOString()] reads a clock: the handlers take the clock
      as a function from the number of earlier reads to the text read, and
      thread the number of reads. *)

From Stdlib Require Import String Ascii List ZArith NArith Lia Bool Arith.
From Stdlib Require Import DecimalString DecimalNat DecimalPos.
Import ListNotations.

(** ** The runtime: strings *)

Module JS.

(** A string: its UTF-16 code units. *)
Definition str : Type := list N.

(** The code units of an ASCII text. *)
Definition u (s : string) : list N :=
  map N_of_ascii (list_ascii_of_string s).

Coercion u : string >-> list.
Coercion N_of_ascii : ascii >-> N.

Declare Scope js_scope.
Delimit Scope js_scope with js.
Notation "x ++ y" := (@app N x y) (at level 60, right associativity)
  : js_scope.

Local Open Scope list_scope.
Local Open Scope string_scope.
Local Open Scope js_scope.

(** The double quote and the backslash. *)
Definition quote_char : N := 34.
Definition backslash_char : N := 92.
Definition dq : str := [quote_char].
Definition bs : str := [backslash_char].

Definition in_range (lo hi c : N) : bool := (lo <=? c)%N && (c <=? hi)%N.

(** [===] on strings. *)
Fixpoint eqb (a b : str) : bool :=
  match a, b with
  | [], [] => true
  | x :: a', y :: b' => (x =? y)%N && eqb a' b'
  | _, _ => false
  end.

(** The case mappings on the letters of ASCII, which is how
    [toUpperCase] and [toLowerCase] act on an ASCII text. *)
Definition upper_unit (c : N) : N :=
  if in_range 97 122 c then (c - 32)%N else c.

Definition lower_unit (c : N) : N :=
  if in_range 65 90 c then (c + 32)%N else c.

Definition ascii_upper (s : str) : str := map upper_unit s.
Definition ascii_lower (s : str) : str := map lower_unit s.

Definition is_ascii (s : str) : bool := forallb (fun c => (c <? 128)%N) s.

(** [String.prototype.toUpperCase] and [toLowerCase] follow the case
    mappings of the Unicode standard, which the repository does not fix:
    the handlers that call them are written over any pair of
    conversions. *)
Class CaseMapping : Type := {
  toUpperCase : str -> str;
  toLowerCase : str -> str
}.

(** The conversions that leave everything outside ASCII as it is. *)
Definition ascii_case : CaseMapping :=
  {| toUpperCase := ascii_upper; toLowerCase := ascii_lower |}.

(** [sub] is at the head of [s]. *)
Fixpoint starts (sub s : str) : bool :=
  match sub, s with
  | [], _ => true
  | x :: sub', y :: s' => (x =? y)%N && starts sub' s'
  | _ :: _, [] => false
  end.

(** [String.prototype.includes]: [sub] occurs in [s] at some position. *)
Fixpoint includes (s sub : str) : bool :=
  starts sub s
  || match s with
     | [] => false
     | _ :: r => includes r sub
     end.

(** [String.prototype.substring (from, to)]: both ends are clamped to the
    length, and swapped when [from] is the larger. *)
Definition substring (s : str) (from to : nat) : str :=
  let n := List.length s in
  let a := Nat.min from n in
  let b := Nat.min to n in
  firstn (Nat.max a b - Nat.min a b) (skipn (Nat.min a b) s).

(** Decimal text of a natural number, as a template literal prints it. *)
Definition string_of_nat (n : nat) : str :=
  u (NilEmpty.string_of_uint (Nat.to_uint n)).

Definition string_of_pos (p : positive) : str :=
  u (NilEmpty.string_of_uint (Pos.to_uint p)).

Definition string_of_N (n : N) : str :=
  match n with
  | N0 => "0"
  | Npos p => string_of_pos p
  end.

(** ** The runtime: numbers *)

(** A binary64 value: [(-1)^neg * m * 2^e], or an infinity.  A value made
    by this file has [m] odd, or [m = 0] and [e = 0]. *)
Inductive num : Type :=
| Finite (neg : bool) (m : N) (e : Z)
| Infinity (neg : bool).

Definition num_eqb (x y : num) : bool :=
  match x, y with
  | Finite n1 m1 e1, Finite n2 m2 e2 =>
      Bool.eqb n1 n2 && (m1 =? m2)%N && (e1 =? e2)%Z
  | Infinity n1, Infinity n2 => Bool.eqb n1 n2
  | _, _ => false
  end.

(** The odd part of a positive number, and the power of two taken out. *)
Fixpoint odd_part (p : positive) (e : Z) : positive * Z :=
  match p with
  | xO p' => odd_part p' (e + 1)
  | _ => (p, e)
  end.

Definition normal (neg : bool) (q : Z) (p : Z) : num :=
  match q with
  | Zpos q' => let '(m, e) := odd_part q' p in Finite neg (Npos m) e
  | _ => Finite neg 0 0
  end.

(** [floor (log2 (a / b))] for positive [a] and [b]. *)
Definition ge_pow2 (a b t : Z) : bool :=
  if (0 <=? t)%Z then (b * 2 ^ t <=? a)%Z else (b <=? a * 2 ^ (- t))%Z.

Definition log2_ratio (a b : Z) : Z :=
  let t := (Z.log2 a - Z.log2 b)%Z in
  if ge_pow2 a b t then t else (t - 1)%Z.

(** The binary64 value nearest to [a / b], for positive [a] and [b]: the
    quotient is cut to 53 bits, fewer below the normal range, and rounded
    to the nearest, to the even one of two as near; from [2^1024] on it is
    an infinity. *)
Definition round_ratio (neg : bool) (a b : Z) : num :=
  let l := log2_ratio a b in
  let p := Z.max (l - 52) (-1074) in
  let '(n, d) := if (0 <=? p)%Z then (a, (b * 2 ^ p)%Z)
                 else ((a * 2 ^ (- p))%Z, b) in
  let q := (n / d)%Z in
  let r := (n mod d)%Z in
  let q' := if ((2 * r >? d) || ((2 * r =? d) && Z.odd q))%Z
            then (q + 1)%Z else q in
  if (q' =? 0)%Z then Finite neg 0 0
  else if (1024 <=? Z.log2 q' + p)%Z then Infinity neg
  else normal neg q' p.

(** The value of the decimal [m * 10 ^ e]: what a literal denotes.  Far
    outside the range the power of ten is not computed. *)
Definition num_of_decimal (neg : bool) (m : Z) (e : Z) : num :=
  if (m <=? 0)%Z then Finite neg 0 0
  else
    let l := Z.log2 m in
    if (310 <? e + l / 4)%Z then Infinity neg
    else if (e + (l + 1) / 3 + 1 <? -330)%Z then Finite neg 0 0
    else if (0 <=? e)%Z then round_ratio neg (m * 10 ^ e) 1
    else round_ratio neg m (10 ^ (- e)).

(** The whole number [n], when it is below [2^53]. *)
Definition num_of_N (n : N) : num := normal false (Z.of_N n) 0.

(** ToBoolean of a number. *)
Definition num_truthy (x : num) : bool :=
  match x with
  | Finite _ m _ => negb (m =? 0)%N
  | Infinity _ => true
  end.

(** [x < y], first on magnitudes [m1 * 2^e1] and [m2 * 2^e2]. *)
Definition mag_ltb (m1 : N) (e1 : Z) (m2 : N) (e2 : Z) : bool :=
  let d := Z.min e1 e2 in
  (Z.of_N m1 * 2 ^ (e1 - d) <? Z.of_N m2 * 2 ^ (e2 - d))%Z.

Definition num_ltb (x y : num) : bool :=
  match x, y with
  | Infinity n1, Infinity n2 => n1 && negb n2
  | Infinity n1, Finite _ _ _ => n1
  | Finite _ _ _, Infinity n2 => negb n2
  | Finite n1 m1 e1, Finite n2 m2 e2 =>
      match n1, n2 with
      | false, false => mag_ltb m1 e1 m2 e2
      | true, true => mag_ltb m2 e2 m1 e1
      | true, false => negb ((m1 =? 0)%N && (m2 =? 0)%N)
      | false, true => false
      end
  end.

(** The value [m * 2 ^ e] as a quotient of whole numbers. *)
Definition ratio (m : N) (e : Z) : Z * Z :=
  if (0 <=? e)%Z then ((Z.of_N m * 2 ^ e)%Z, 1%Z)
  else (Z.of_N m, (2 ^ (- e))%Z).

(** [x / 2^k]: the division only moves the exponent, unless the quotient
    falls below the normal range, where it is rounded. *)
Definition div_pow2 (x : num) (k : Z) : num :=
  match x with
  | Infinity _ => x
  | Finite neg m e =>
      if (m =? 0)%N then x
      else if (-1022 <=? Z.log2 (Z.of_N m) + e - k)%Z then Finite neg m (e - k)
      else let '(a, b) := ratio m e in round_ratio neg a (b * 2 ^ k)
  end.

(** *** Printing a number *)

Fixpoint repeat_unit (c : N) (n : nat) : str :=
  match n with
  | O => []
  | S k => c :: repeat_unit c k
  end.

Fixpoint strip_zeros (fuel : nat) (m e : Z) : Z * Z :=
  match fuel with
  | O => (m, e)
  | S f => if (m mod 10 =? 0)%Z then strip_zeros f (m / 10)%Z (e + 1)%Z
           else (m, e)
  end.

(** The text of the positive decimal [m * 10 ^ e] by the rules of
    Number::toString: [digits] are the significant digits, [k] their
    number, and the decimal point sits [n] digits after the first one. *)
Definition format_decimal (m e : Z) : str :=
  let '(m', e') := strip_zeros (Z.to_nat (Z.log2 m)) m e in
  let digits := string_of_N (Z.to_N m') in
  let k := Z.of_nat (List.length digits) in
  let n := (k + e')%Z in
  if ((k <=? n) && (n <=? 21))%Z then
    digits ++ repeat_unit "0"%char (Z.to_nat (n - k))
  else if ((0 <? n) && (n <=? 21))%Z then
    firstn (Z.to_nat n) digits ++ "." ++ skipn (Z.to_nat n) digits
  else if ((-6 <? n) && (n <=? 0))%Z then
    "0." ++ repeat_unit "0"%char (Z.to_nat (- n)) ++ digits
  else
    let x := (n - 1)%Z in
    let xs := (if (x <? 0)%Z then "-" else "+") ++ string_of_N (Z.to_N (Z.abs x)) in
    if (k =? 1)%Z then digits ++ "e" ++ xs
    else firstn 1 digits ++ "." ++ skipn 1 digits ++ "e" ++ xs.

(** The number [n] of digits before the point: [10^(n-1) <= a/b < 10^n],
    found from an estimate by the logarithm in base two. *)
Definition lt_pow10 (a b n : Z) : bool :=
  if (0 <=? n)%Z then (a <? b * 10 ^ n)%Z else (a * 10 ^ (- n) <? b)%Z.

Definition point (a b : Z) : Z :=
  let est := (log2_ratio a b * 30103 / 100000)%Z in
  if lt_pow10 a b (est - 1) then (est - 1)%Z
  else if lt_pow10 a b est then est
  else if lt_pow10 a b (est + 1) then (est + 1)%Z
  else (est + 2)%Z.

(** The shortest digits: the least number [k] of digits for which a
    decimal [s * 10 ^ j] of [k] digits denotes the value [x] itself; of
    the two nearest decimals the nearer one, the even one when both are as
    near. *)
Fixpoint shortest (fuel : nat) (k : Z) (x : num) (a b n : Z) : Z * Z :=
  let j := (n - k)%Z in
  let '(nn, d) := if (0 <=? j)%Z then (a, (b * 10 ^ j)%Z)
                  else ((a * 10 ^ (- j))%Z, b) in
  let lo := (nn / d)%Z in
  let r := (nn mod d)%Z in
  let hi := (lo + 1)%Z in
  let ok_lo := (r =? 0)%Z || num_eqb (num_of_decimal false lo j) x in
  let ok_hi := num_eqb (num_of_decimal false hi j) x in
  match fuel with
  | O => (lo, j)
  | S f =>
      if ok_lo && ok_hi then
        if ((2 * r <? d) || ((2 * r =? d) && Z.even lo))%Z
        then (lo, j) else (hi, j)
      else if ok_lo then (lo, j)
      else if ok_hi then (hi, j)
      else shortest f (k + 1)%Z x a b n
  end.

(** Number::toString (radix 10). *)
Definition number_to_string (x : num) : str :=
  match x with
  | Infinity neg => if neg then "-Infinity" else "Infinity"
  | Finite neg m e =>
      if (m =? 0)%N then "0"
      else
        let '(a, b) := ratio m e in
        let '(s, j) := shortest 17 1 (Finite false m e) a b (point a b) in
        (if neg then "-" else "") ++ format_decimal s j
  end.

(** [x.toFixed(1)]: below [10^21] the tenths [n] nearest to the
    magnitude, the larger when two are as near, written with one digit
    after the point; from [10^21] on, and for an infinity, the text of
    Number::toString. *)
Definition toFixed1 (x : num) : str :=
  match x with
  | Infinity _ => number_to_string x
  | Finite neg m e =>
      if negb (num_ltb (Finite false m e) (num_of_decimal false 1 21))
      then number_to_string x
      else
        let '(a, b) := ratio m e in
        let n := Z.to_N ((20 * a + b) / (2 * b)) in
        (if neg && negb (m =? 0)%N then "-" else "")
        ++ string_of_N (n / 10) ++ "." ++ string_of_N (n mod 10)
  end.

(** ** The runtime: values *)

#[warnings="-register-all"]
Inductive json : Type :=
| JNull
| JBool (b : bool)
| JNumber (x : num)
| JString (s : str)
| JArray (items : list json)
| JObject (fields : list (str * json)).

(** ToBoolean.  [undefined] is handled by [truthy_opt]. *)
Definition truthy (v : json) : bool :=
  match v with
  | JNull => false
  | JBool b => b
  | JNumber x => num_truthy x
  | JString s => negb (eqb s "")
  | JArray _ => true
  | JObject _ => true
  end.

Definition truthy_opt (o : option json) : bool :=
  match o with
  | None => false
  | Some v => truthy v
  end.

Definition truthy_str (o : option str) : bool :=
  match o with
  | None => false
  | Some s => negb (eqb s "")
  end.

(** [a || b] where [b] is never [undefined]. *)
Definition or_else (a : option json) (b : json) : json :=
  match a with
  | Some v => if truthy v then v else b
  | None => b
  end.

(** [a || b] where [b] may be [undefined] too. *)
Definition or_opt (a b : option json) : option json :=
  if truthy_opt a then a else b.

Definition str_or_else (a : option str) (b : str) : str :=
  match a with
  | Some s => if negb (eqb s "") then s else b
  | None => b
  end.

Fixpoint lookup (k : str) (fields : list (str * json)) : option json :=
  match fields with
  | [] => None
  | (k', v) :: r => if eqb k' k then Some v else lookup k r
  end.

(** Property read [v.k].  Reading a property of [null] throws a TypeError:
    the outer [None].  The inner [None] is [undefined].  The keys the
    handlers read ([Message], [Timestamp], [MessageId], [message],
    [function], [requestId], [level], [fileId]) are neither indices nor
    built-in properties, so only an object can have them. *)
Definition get (v : json) (k : str) : option (option json) :=
  match v with
  | JNull => None
  | JObject fields => Some (lookup k fields)
  | _ => Some None
  end.

(** ** The runtime: printing *)

Fixpoint join (sep : str) (l : list str) : str :=
  match l with
  | [] => []
  | [x] => x
  | x :: r => x ++ sep ++ join sep r
  end.

(** ToString, the conversion [JSON.parse] applies to its argument.  An
    array prints its items separated by commas, [null] items as nothing. *)
Fixpoint ToString (v : json) : str :=
  match v with
  | JNull => "null"
  | JBool true => "true"
  | JBool false => "false"
  | JNumber x => number_to_string x
  | JString s => s
  | JArray items =>
      join "," (map (fun x => match x with
                              | JNull => []
                              | _ => ToString x
                              end) items)
  | JObject _ => "[object Object]"
  end.

Definition hex_digit (n : N) : N :=
  if (n <? 10)%N then (48 + n)%N else (87 + n)%N.

(** [\uxxxx], with four lowercase hexadecimal digits. *)
Definition unicode_escape (c : N) : str :=
  bs ++ "u" ++ [hex_digit (c / 4096 mod 16); hex_digit (c / 256 mod 16);
                hex_digit (c / 16 mod 16); hex_digit (c mod 16)].

Definition is_high (c : N) : bool := in_range 55296 56319 c.
Definition is_low (c : N) : bool := in_range 56320 57343 c.

(** What QuoteJSONString writes for a code unit that is not half of a
    pair: the two-character escapes, [\uxxxx] for the other control
    characters and for a surrogate on its own, everything else as it
    is. *)
Definition quote_one (c : N) : str :=
  if (c =? quote_char)%N then bs ++ dq
  else if (c =? backslash_char)%N then bs ++ bs
  else if (c =? 8)%N then bs ++ "b"
  else if (c =? 9)%N then bs ++ "t"
  else if (c =? 10)%N then bs ++ "n"
  else if (c =? 12)%N then bs ++ "f"
  else if (c =? 13)%N then bs ++ "r"
  else if (c <? 32)%N || is_high c || is_low c then unicode_escape c
  else [c].

(** The text between the quotes: a high surrogate followed by a low one
    is a pair and is written as it is. *)
Fixpoint quote_body (s : str) : str :=
  match s with
  | [] => []
  | c :: r =>
      match r with
      | c' :: r' =>
          if is_high c && is_low c' then c :: c' :: quote_body r'
          else quote_one c ++ quote_body r
      | [] => quote_one c
      end
  end.

Definition quote (s : str) : str := dq ++ quote_body s ++ dq.

(** [JSON.stringify] of a value that came out of [JSON.parse], without
    indentation; an infinity is written as [null]. *)
Fixpoint JSON_stringify (v : json) : str :=
  match v with
  | JNull => "null"
  | JBool true => "true"
  | JBool false => "false"
  | JNumber (Infinity _) => "null"
  | JNumber x => number_to_string x
  | JString s => quote s
  | JArray items => "[" ++ join "," (map JSON_stringify items) ++ "]"
  | JObject fields =>
      "{" ++ join "," (map (fun kv => quote (fst kv) ++ ":"
                                      ++ JSON_stringify (snd kv)) fields)
      ++ "}"
  end.

(** What [JSON.parse] reads back from the text that [JSON.stringify]
    wrote for a value [v] that came out of [JSON.parse] itself: the value,
    but for an infinity, which was written [null], and for the negative
    zero, which was written [0]. *)
Fixpoint on_wire (v : json) : json :=
  match v with
  | JNumber (Infinity _) => JNull
  | JNumber (Finite _ 0 _) => JNumber (Finite false 0 0)
  | JArray items => JArray (map on_wire items)
  | JObject fields =>
      JObject (map (fun kv => (fst kv, on_wire (snd kv))) fields)
  | _ => v
  end.

(** ** The runtime: [JSON.parse] *)

Definition is_ws (c : N) : bool :=
  (c =? 32)%N || (c =? 9)%N || (c =? 10)%N || (c =? 13)%N.

Fixpoint skip_ws (s : str) : str :=
  match s with
  | c :: r => if is_ws c then skip_ws r else s
  | [] => s
  end.

Definition is_digit (c : N) : bool := in_range 48 57 c.

Definition digit_val (c : N) : Z := Z.of_N (c - 48).

(** The longest run of digits at the head of [s]: its value continuing
    [acc], its length, and what follows it. *)
Fixpoint take_digits (s : str) (acc : Z) (len : nat) : Z * nat * str :=
  match s with
  | c :: r =>
      if is_digit c then take_digits r (acc * 10 + digit_val c)%Z (S len)
      else (acc, len, s)
  | [] => (acc, len, s)
  end.

Definition hex_val (c : N) : option N :=
  if in_range 48 57 c then Some (c - 48)%N
  else if in_range 97 102 c then Some (c - 87)%N
  else if in_range 65 70 c then Some (c - 55)%N
  else None.

Definition escape_char (c : N) : option N :=
  if (c =? quote_char)%N then Some quote_char
  else if (c =? backslash_char)%N then Some backslash_char
  else if (c =? "/"%char)%N then Some 47%N
  else if (c =? "b"%char)%N then Some 8%N
  else if (c =? "f"%char)%N then Some 12%N
  else if (c =? "n"%char)%N then Some 10%N
  else if (c =? "r"%char)%N then Some 13%N
  else if (c =? "t"%char)%N then Some 9%N
  else None.

(** The characters of a string literal after its opening quote, up to the
    closing one: the text denoted and what follows the literal. *)
Fixpoint parse_chars (s : str) (acc : str) : option (str * str) :=
  match s with
  | [] => None
  | c :: r =>
      if (c =? quote_char)%N then Some (acc, r)
      else if (c =? backslash_char)%N then
        match r with
        | e :: r' =>
            if (e =? "u"%char)%N then
              match r' with
              | h1 :: h2 :: h3 :: h4 :: r'' =>
                  match hex_val h1, hex_val h2, hex_val h3, hex_val h4 with
                  | Some a, Some b, Some c', Some d =>
                      parse_chars r''
                        (acc ++ [(((a * 16 + b) * 16 + c') * 16 + d)%N])
                  | _, _, _, _ => None
                  end
              | _ => None
              end
            else
              match escape_char e with
              | Some t => parse_chars r' (acc ++ [t])
              | None => None
              end
        | [] => None
        end
      else if (c <? 32)%N then None
      else parse_chars r (acc ++ [c])
  end.

(** A number literal: [-? int frac? exp?], where [int] has no leading
    zero; its value is the binary64 value nearest to it. *)
Definition parse_exponent (s : str) (neg : bool) (m e : Z)
  : option (json * str) :=
  match s with
  | c :: r =>
      if (c =? "e"%char)%N || (c =? "E"%char)%N then
        let '(minus, r1) :=
          match r with
          | c1 :: r1 =>
              if (c1 =? "-"%char)%N then (true, r1)
              else if (c1 =? "+"%char)%N then (false, r1)
              else (false, r)
          | [] => (false, r)
          end in
        let '(x, len, r2) := take_digits r1 0 0 in
        if Nat.eqb len 0 then None
        else Some (JNumber (num_of_decimal neg m
                              (e + (if minus then - x else x))), r2)
      else Some (JNumber (num_of_decimal neg m e), s)
  | [] => Some (JNumber (num_of_decimal neg m e), s)
  end.

Definition parse_fraction (s : str) (neg : bool) (m : Z)
  : option (json * str) :=
  match s with
  | c :: r =>
      if (c =? "."%char)%N then
        let '(m', len, r1) := take_digits r m 0 in
        if Nat.eqb len 0 then None
        else parse_exponent r1 neg m' (- Z.of_nat len)
      else parse_exponent s neg m 0
  | [] => parse_exponent s neg m 0
  end.

Definition parse_unsigned (s : str) (neg : bool) : option (json * str) :=
  match s with
  | c :: r =>
      if (c =? "0"%char)%N then parse_fraction r neg 0
      else if is_digit c then
        let '(m, _, r1) := take_digits s 0 0 in parse_fraction r1 neg m
      else None
  | [] => None
  end.

Definition parse_number (s : str) : option (json * str) :=
  match s with
  | c :: r => if (c =? "-"%char)%N then parse_unsigned r true
              else parse_unsigned s false
  | [] => None
  end.

(** The own properties of an object in the order the runtime lists them:
    array indices first, in ascending order, then the other keys in the
    order they were first written.  Writing a key again replaces its value
    and keeps its place. *)
Definition array_index (k : str) : option Z :=
  match k with
  | [] => None
  | c :: r =>
      if (c =? "0"%char)%N then
        match r with
        | [] => Some 0%Z
        | _ :: _ => None
        end
      else
        let '(n, _, r') := take_digits k 0 0 in
        match r' with
        | [] => if (n <=? 4294967294)%Z then Some n else None
        | _ :: _ => None
        end
  end.

Fixpoint replace_field (k : str) (v : json) (fields : list (str * json))
  : option (list (str * json)) :=
  match fields with
  | [] => None
  | (k', v') :: r =>
      if eqb k' k then Some ((k, v) :: r)
      else match replace_field k v r with
           | Some r' => Some ((k', v') :: r')
           | None => None
           end
  end.

Fixpoint insert_index (i : Z) (k : str) (v : json)
  (fields : list (str * json)) : list (str * json) :=
  match fields with
  | [] => [(k, v)]
  | (k', v') :: r =>
      match array_index k' with
      | Some j => if (j <? i)%Z then (k', v') :: insert_index i k v r
                  else (k, v) :: fields
      | None => (k, v) :: fields
      end
  end.

Definition define_field (fields : list (str * json)) (kv : str * json)
  : list (str * json) :=
  let '(k, v) := kv in
  match replace_field k v fields with
  | Some fields' => fields'
  | None =>
      match array_index k with
      | Some i => insert_index i k v fields
      | None => (fields ++ [(k, v)])%list
      end
  end.

Definition make_object (members : list (str * json)) : json :=
  JObject (fold_left define_field members []).

(** What follows the word [lit] at the head of [s]. *)
Definition starts_with (lit : str) (s : str) : option str :=
  if starts lit s then Some (skipn (List.length lit) s) else None.

(** The recursive descent.  Every call that goes one level down has read
    at least one character since the call above it, so a fuel of one more
    than the length of the text is never used up. *)
Fixpoint parse_value (fuel : nat) (s : str) : option (json * str) :=
  match fuel with
  | O => None
  | S f =>
      match skip_ws s with
      | [] => None
      | c :: r =>
          if (c =? "{"%char)%N then
            match skip_ws r with
            | c1 :: r1 =>
                if (c1 =? "}"%char)%N then Some (JObject [], r1)
                else parse_members f (c1 :: r1) []
            | [] => None
            end
          else if (c =? "["%char)%N then
            match skip_ws r with
            | c1 :: r1 =>
                if (c1 =? "]"%char)%N then Some (JArray [], r1)
                else
                  match parse_value f (c1 :: r1) with
                  | Some (v, r2) => parse_items f r2 [v]
                  | None => None
                  end
            | [] => None
            end
          else if (c =? quote_char)%N then
            match parse_chars r [] with
            | Some (t, r1) => Some (JString t, r1)
            | None => None
            end
          else if (c =? "t"%char)%N then
            option_map (fun r1 => (JBool true, r1))
              (starts_with "true" (c :: r))
          else if (c =? "f"%char)%N then
            option_map (fun r1 => (JBool false, r1))
              (starts_with "false" (c :: r))
          else if (c =? "n"%char)%N then
            option_map (fun r1 => (JNull, r1)) (starts_with "null" (c :: r))
          else parse_number (c :: r)
      end
  end

(** After an item of an array: a comma and the next item, or the end. *)
with parse_items (fuel : nat) (s : str) (acc : list json)
  : option (json * str) :=
  match fuel with
  | O => None
  | S f =>
      match skip_ws s with
      | c :: r =>
          if (c =? ","%char)%N then
            match parse_value f r with
            | Some (v, r1) => parse_items f r1 (v :: acc)
            | None => None
            end
          else if (c =? "]"%char)%N then Some (JArray (rev acc), r)
          else None
      | [] => None
      end
  end

(** At a member of an object: its key, a colon, its value, then a comma
    and the next member, or the end. *)
with parse_members (fuel : nat) (s : str) (acc : list (str * json))
  : option (json * str) :=
  match fuel with
  | O => None
  | S f =>
      match skip_ws s with
      | c :: r =>
          if (c =? quote_char)%N then
            match parse_chars r [] with
            | Some (k, r1) =>
                match skip_ws r1 with
                | c2 :: r2 =>
                    if (c2 =? ":"%char)%N then
                      match parse_value f r2 with
                      | Some (v, r3) =>
                          match skip_ws r3 with
                          | c4 :: r4 =>
                              if (c4 =? ","%char)%N then
                                parse_members f r4 ((k, v) :: acc)
                              else if (c4 =? "}"%char)%N then
                                Some (make_object (rev ((k, v) :: acc)), r4)
                              else None
                          | [] => None
                          end
                      | None => None
                      end
                    else None
                | [] => None
                end
            | None => None
            end
          else None
      | [] => None
      end
  end.

(** [JSON.parse]: [None] is the SyntaxError it throws. *)
Definition JSON_parse (text : str) : option json :=
  match parse_value (S (List.length text)) text with
  | Some (v, r) =>
      match skip_ws r with
      | [] => Some v
      | _ :: _ => None
      end
  | None => None
  end.

End JS.

(** ** The log route: [GET] and [determineLogLevel] *)

Module Logs.
Import JS.
Local Open Scope string_scope.
Local Open Scope js_scope.

(** What the queue hands over for one message; both fields are optional in
    the client's types. *)
Record Message := {
  MessageId : option str;
  Body : option str
}.

(** An element of [logs].  [level] is one of the three level texts; the
    fields filled from parsed data hold whatever value was found there. *)
Record LogEntry := {
  id : str;
  timestamp : json;
  level : str;
  message : json;
  lambdaFunction : json;
  requestId : json
}.

(** A computation inside the per-message [try]: it may throw ([None]; the
    handler only logs what was thrown) and it threads the number of clock
    reads. *)
Definition M (A : Type) : Type := nat -> option A * nat.

Definition ret {A : Type} (a : A) : M A := fun t => (Some a, t).

Definition bind {A B : Type} (m : M A) (k : A -> M B) : M B :=
  fun t => match m t with
           | (Some a, t') => k a t'
           | (None, t') => (None, t')
           end.

Definition lift {A : Type} (o : option A) : M A := fun t => (o, t).

Notation "x <- m ;; k" := (bind m (fun x => k))
  (at level 61, m at next level, right associativity).

(** What [sqsClient.send] settles with: a response whose [Messages] may be
    missing, or a rejection, by an [Error] carrying a message or by some
    other value. *)
Inductive thrown :=
| ErrorObject (error_message : str)
| OtherValue.

Inductive sent :=
| Resolved (Messages : option (list Message))
| Rejected (sqsError : thrown).

(** The JSON the route answers with, as its client reads it, and its
    status. *)
Record Payload := {
  success : bool;
  logs : option (list LogEntry);
  failure : option str
}.

Record Response := {
  status : nat;
  payload : Payload
}.

(** An entry as it is read back from the text of the answer. *)
Definition written (e : LogEntry) : LogEntry :=
  {| id := id e;
     timestamp := on_wire (timestamp e);
     level := level e;
     message := on_wire (message e);
     lambdaFunction := on_wire (lambdaFunction e);
     requestId := on_wire (requestId e) |}.

(** [NextResponse.json({ success: true, logs })]. *)
Definition NextResponse_json (l : list LogEntry) : Response :=
  {| status := 200;
     payload := {| success := true; logs := Some (map written l);
                   failure := None |} |}.

Section Poller.

Context {case : CaseMapping}.

(** Helper function to determine log level based on message content. *)
Definition determineLogLevel (message : json) : str :=
  if negb (truthy message) then "INFO"
  else
    let explicit :=
      match get message "level" with
      | Some (Some l) =>
          if truthy l then
            let level := match l with
                         | JString s => toUpperCase s
                         | _ => []
                         end in
            if eqb level "ERROR" || eqb level "WARN" || eqb level "INFO"
            then Some level else None
          else None
      | _ => None
      end in
    match explicit with
    | Some level => level
    | None =>
        let messageStr := toLowerCase (JSON_stringify message) in
        if includes messageStr "error" || includes messageStr "exception"
           || includes messageStr "fail"
        then "ERROR"
        else if includes messageStr "warn" || includes messageStr "caution"
        then "WARN"
        else "INFO"
    end.

(** [clock t] is what [new Date().toISOString()] returns at the read
    number [t]. *)
Variable clock : nat -> str.

Definition now : M json := fun t => (Some (JString (clock t)), S t).

(** [a || b] where [b] has an effect. *)
Definition or_elseM (a : option json) (b : M json) : M json :=
  match a with
  | Some v => if truthy v then ret v else b
  | None => b
  end.

(** The body of the [try] for one message; [logs_length] is [logs.length]
    at that point. *)
Definition try_block (logs_length : nat) (msg : Message) : M LogEntry :=
  body <- lift (JSON_parse (str_or_else (Body msg) "{}")) ;;
  body_Message <- lift (get body "Message") ;;
  snsMessage <-
    lift (JSON_parse (ToString (or_else body_Message (JString "{}")))) ;;
  body_Timestamp <- lift (get body "Timestamp") ;;
  timestamp' <- or_elseM body_Timestamp now ;;
  sns_message <- lift (get snsMessage "message") ;;
  sns_function <- lift (get snsMessage "function") ;;
  sns_requestId <- lift (get snsMessage "requestId") ;;
  body_MessageId <- lift (get body "MessageId") ;;
  ret {| id := str_or_else (MessageId msg)
                 ("msg-" ++ string_of_nat logs_length);
         timestamp := timestamp';
         level := determineLogLevel snsMessage;
         message := or_else (or_opt sns_message body_Message)
                      (JString "No message content");
         lambdaFunction := or_else sns_function (JString "unknown");
         requestId := or_else (or_opt sns_requestId body_MessageId)
                        (JString "unknown") |}.

(** The text after the prefix in the entry of the [catch]. *)
Definition excerpt (msg : Message) : str :=
  match Body msg with
  | Some b => if negb (eqb b "")
              then substring b 0 100 ++ "..."
              else "No content"
  | None => "No content"
  end.

(** The body of the [catch]; nothing in it can throw. *)
Definition catch_block (logs_length : nat) (msg : Message) (t : nat)
  : LogEntry * nat :=
  ({| id := str_or_else (MessageId msg)
              ("msg-" ++ string_of_nat logs_length);
      timestamp := JString (clock t);
      level := "ERROR";
      message := JString ("Error parsing message: " ++ excerpt msg);
      lambdaFunction := JString "parser";
      requestId := JString (str_or_else (MessageId msg) "unknown") |},
   S t).

(** One turn of the loop: the entry pushed for [msg]. *)
Definition process_message (logs_length : nat) (msg : Message) (t : nat)
  : LogEntry * nat :=
  match try_block logs_length msg t with
  | (Some entry, t') => (entry, t')
  | (None, t') => catch_block logs_length msg t'
  end.

(** [for (const message of response.Messages)], pushing onto [logs]. *)
Fixpoint for_of (messages : list Message) (logs : list LogEntry) (t : nat)
  : list LogEntry * nat :=
  match messages with
  | [] => (logs, t)
  | msg :: rest =>
      let '(entry, t') := process_message (List.length logs) msg t in
      for_of rest (logs ++ [entry])%list t'
  end.

Definition mockLogs (t : nat) : list LogEntry :=
  [ {| id := "1";
       timestamp := JString (clock t);
       level := "INFO";
       message := JString "This is mock data. Please configure SQS_QUEUE_URL in your environment variables.";
       lambdaFunction := JString "mockGenerator";
       requestId := JString "mock-req-123" |};
    {| id := "2";
       timestamp := JString (clock (S t));
       level := "WARN";
       message := JString "SQS_QUEUE_URL environment variable is missing. Check your .env.local file.";
       lambdaFunction := JString "configChecker";
       requestId := JString "mock-req-124" |} ].

(** The outer [try] of [GET]: a response, or what it throws. *)
Definition GET_try (SQS_QUEUE_URL : str) (reply : sent) (t : nat)
  : Response + thrown :=
  if negb (eqb SQS_QUEUE_URL "") then
    match reply with
    | Resolved None => inl (NextResponse_json [])
    | Resolved (Some []) => inl (NextResponse_json [])
    | Resolved (Some messages) =>
        inl (NextResponse_json (fst (for_of messages [] t)))
    | Rejected sqsError =>
        inr (ErrorObject
               ("SQS error: " ++ match sqsError with
                                 | ErrorObject m => m
                                 | OtherValue => "Unknown error"
                                 end))
    end
  else inl (NextResponse_json (mockLogs t)).

(** [GET]: [reply] is what the queue answers if it is asked, [t] the number
    of clock reads so far. *)
Definition GET (SQS_QUEUE_URL : str) (reply : sent) (t : nat) : Response :=
  match GET_try SQS_QUEUE_URL reply t with
  | inl response => response
  | inr error =>
      {| status := 500;
         payload :=
           {| success := false;
              logs := None;
              failure :=
                Some match error with
                     | ErrorObject m => "Failed to fetch logs: " ++ m
                     | OtherValue => "Failed to fetch logs: Unknown error"
                     end |} |}
  end.

End Poller.

End Logs.

(** ** The object route: [DELETE] *)

Module S3.
Import JS.
Local Open Scope string_scope.
Local Open Scope js_scope.

Record DeleteObjectCommand := {
  Bucket : str;
  Key : json
}.

Record Payload := {
  success : bool;
  message : str
}.

Record Response := {
  status : nat;
  payload : Payload
}.

(** What a call of the handler leaves behind: its answer and the commands
    it sent to the object store, in order. *)
Record Outcome := {
  response : Response;
  sent : list DeleteObjectCommand
}.

Definition failed : Response :=
  {| status := 500;
     payload := {| success := false; message := "Failed to delete file" |} |}.

Definition required : Response :=
  {| status := 400;
     payload := {| success := false; message := "File ID is required" |} |}.

Definition deleted : Response :=
  {| status := 200;
     payload := {| success := true;
                   message := "File deleted successfully" |} |}.

(** [DELETE]: [request_body] is the text of the request's body, which
    [request.json()] parses, and [send_resolves] tells whether the store
    accepts the command sent to it.  Everything thrown on the way (by the
    parse, by taking [fileId] out of [null], by the store) ends in the
    [catch]. *)
Definition DELETE (BUCKET_NAME : str) (request_body : str)
  (send_resolves : bool) : Outcome :=
  match JSON_parse request_body with
  | None => {| response := failed; sent := [] |}
  | Some parsed =>
      match get parsed "fileId" with
      | None => {| response := failed; sent := [] |}
      | Some None => {| response := required; sent := [] |}
      | Some (Some fileId) =>
          if negb (truthy fileId) then {| response := required; sent := [] |}
          else
            let command := {| Bucket := BUCKET_NAME; Key := fileId |} in
            {| response := if send_resolves then deleted else failed;
               sent := [command] |}
      end
  end.

(** The object store is not part of the repository: its contents are of
    some type [Store] and a command acts on them in some way. *)
Section Store.

Variable Store : Type.
Variable execute : DeleteObjectCommand -> Store -> Store.

Definition run (commands : list DeleteObjectCommand) (contents : Store)
  : Store :=
  fold_left (fun c command => execute command c) commands contents.

End Store.

End S3.

(** ** The object route: [POST] *)

Module Upload.
Import JS.
Local Open Scope string_scope.
Local Open Scope js_scope.

(** A file of the form: its name, its media type and its contents. *)
Record File := {
  name : str;
  type : str;
  contents : list N
}.

(** What [formData.getAll] holds under a key: files, or the texts of plain
    fields, which have no [arrayBuffer]. *)
Inductive FormDataEntryValue :=
| FileEntry (file : File)
| TextEntry (text : str).

Record PutObjectCommand := {
  Bucket : str;
  Key : str;
  Body : list N;
  ContentType : str
}.

Record UploadResult := {
  fileName : str;
  key : str
}.

Record Payload := {
  success : bool;
  message : str;
  files : option (list UploadResult)
}.

Record Response := {
  status : nat;
  payload : Payload
}.

(** The answer of the handler and the commands it sent to the store, in
    order. *)
Record Outcome := {
  response : Response;
  sent : list PutObjectCommand
}.

Definition failed : Response :=
  {| status := 500;
     payload := {| success := false; message := "Failed to upload files";
                   files := None |} |}.

(** The key of an upload made at the time [now], in milliseconds. *)
Definition upload_key (now : N) (file_name : str) : str :=
  "uploads/" ++ string_of_N now ++ "-" ++ file_name.

Section Post.

Variable BUCKET_NAME : str.

(** [Date_now t] is what [Date.now()] returns at the read number [t]. *)
Variable Date_now : nat -> N.

(** Whether the store accepts the command that is the [k]-th sent. *)
Variable accepts : nat -> PutObjectCommand -> bool.

(** [for (const file of files)]: the results pushed, or nothing when
    something was thrown, and the commands sent so far. *)
Fixpoint for_of (entries : list FormDataEntryValue)
  (uploadResults : list UploadResult) (commands : list PutObjectCommand)
  (t : nat) : option (list UploadResult) * list PutObjectCommand :=
  match entries with
  | [] => (Some uploadResults, commands)
  | TextEntry _ :: _ => (None, commands)
  | FileEntry file :: rest =>
      let key := upload_key (Date_now t) (name file) in
      let command := {| Bucket := BUCKET_NAME;
                        Key := key;
                        Body := contents file;
                        ContentType := type file |} in
      if accepts (List.length commands) command then
        for_of rest
          (uploadResults ++ [{| fileName := name file; key := key |}])%list
          (commands ++ [command])%list (S t)
      else (None, (commands ++ [command])%list)
  end.

(** [POST]: [formData] is what [request.formData()] gives under the key
    [files], or nothing when the request is not a form; [t] is the number
    of clock reads so far. *)
Definition POST (formData : option (list FormDataEntryValue)) (t : nat)
  : Outcome :=
  match formData with
  | None => {| response := failed; sent := [] |}
  | Some entries =>
      match for_of entries [] [] t with
      | (Some uploadResults, commands) =>
          {| response :=
               {| status := 200;
                  payload :=
                    {| success := true;
                       message := "Successfully uploaded "
                                  ++ string_of_nat (List.length entries)
                                  ++ " file(s)";
                       files := Some uploadResults |} |};
             sent := commands |}
      | (None, commands) => {| response := failed; sent := commands |}
      end
  end.

End Post.

End Upload.

(** ** The object route: [GET] *)

Module Listing.
Import JS.
Local Open Scope string_scope.
Local Open Scope js_scope.

(** An object as the store lists it; every field is optional in the
    client's types.  [LastModified] is the date in the text that
    [toISOString] gives. *)
Record Object := {
  Key : option str;
  Size : option N;
  LastModified : option str
}.

Record S3File := {
  id : option str;
  name : str;
  size : N;
  lastModified : str;
  url : str
}.

Record Payload := {
  success : bool;
  files : option (list S3File);
  message : option str
}.

Record Response := {
  status : nat;
  payload : Payload
}.

Definition failed : Response :=
  {| status := 500;
     payload := {| success := false; files := None;
                   message := Some (u "Failed to fetch files") |} |}.

Definition listed (l : list S3File) : Response :=
  {| status := 200;
     payload := {| success := true; files := Some l; message := None |} |}.

(** [s.split('/').pop()]: what follows the last slash of [s], all of [s]
    without one. *)
Fixpoint last_segment_from (s : str) (acc : str) : str :=
  match s with
  | [] => acc
  | c :: r =>
      if (c =? "/"%char)%N then last_segment_from r []
      else last_segment_from r (acc ++ [c])
  end.

Definition last_segment (s : str) : str := last_segment_from s [].

(** [Promise.all]: every result, in order, or a rejection when one of
    them is. *)
Fixpoint Promise_all {A : Type} (l : list (option A)) : option (list A) :=
  match l with
  | [] => Some []
  | None :: _ => None
  | Some x :: r =>
      match Promise_all r with
      | Some r' => Some (x :: r')
      | None => None
      end
  end.

Section Get.

Variable BUCKET_NAME : str.

(** The presigner: the address for a bucket, a key and a number of
    seconds, or a rejection. *)
Variable getSignedUrl : str -> option str -> nat -> option str.

(** The callback of [response.Contents.map]. *)
Definition describe (item : Object) : option S3File :=
  match getSignedUrl BUCKET_NAME (Key item) 3600 with
  | None => None
  | Some address =>
      Some {| id := Key item;
              name := str_or_else (option_map last_segment (Key item)) "";
              size := match Size item with
                      | Some n => n
                      | None => 0%N
                      end;
              lastModified := str_or_else (LastModified item) "";
              url := address |}
  end.

(** [GET]: [reply] is what the store answers to the list command for the
    prefix [uploads/]: a rejection, or a response whose [Contents] may be
    missing. *)
Definition GET (reply : option (option (list Object))) : Response :=
  match reply with
  | None => failed
  | Some None => listed []
  | Some (Some Contents) =>
      match Promise_all (map describe Contents) with
      | Some l => listed l
      | None => failed
      end
  end.

End Get.

End Listing.

(** ** The logs view *)

Module LogsView.
Import JS.
Local Open Scope string_scope.
Local Open Scope js_scope.

(** The state that a poll touches. *)
Record State := {
  logs : list Logs.LogEntry;
  loading : bool;
  error : option str
}.

(** What [fetch] settles with: the answer of the route, or a rejection. *)
Inductive fetched :=
| Answered (response : Logs.Response)
| Unreachable (thrown : Logs.thrown).

Definition ok (response : Logs.Response) : bool :=
  Nat.leb 200 (Logs.status response) && Nat.leb (Logs.status response) 299.

(** What the [try] of [fetchLogs] throws, or the logs it sets. *)
Definition fetchLogs_try (f : fetched) : list Logs.LogEntry + Logs.thrown :=
  match f with
  | Unreachable thrown => inr thrown
  | Answered response =>
      if negb (ok response) then
        inr (Logs.ErrorObject
               ("HTTP error! Status: " ++ string_of_nat (Logs.status response)))
      else
        let data := Logs.payload response in
        if negb (Logs.success data) then
          inr (Logs.ErrorObject
                 (str_or_else (Logs.failure data) "Failed to fetch logs"))
        else
          inl (match Logs.logs data with
               | Some l => l
               | None => []
               end)
  end.

(** [fetchLogs]: the state when the poll has settled. *)
Definition fetchLogs (f : fetched) (st : State) : State :=
  match fetchLogs_try f with
  | inl l => {| logs := l; loading := false; error := None |}
  | inr thrown =>
      {| logs := logs st;
         loading := false;
         error :=
           Some match thrown with
                | Logs.ErrorObject m => "Failed to fetch SNS logs: " ++ m
                | Logs.OtherValue =>
                    u "Failed to fetch SNS logs. Please try again later."
                end |}
  end.

Section Filter.

Context {case : CaseMapping}.

(** [v.toLowerCase().includes(searchTerm.toLowerCase())]: only a string
    has a [toLowerCase], on anything else the call throws. *)
Definition text_includes (v : json) (searchTerm : str) : option bool :=
  match v with
  | JString s => Some (includes (toLowerCase s) (toLowerCase searchTerm))
  | _ => None
  end.

(** [a || b] where both may throw: [b] is only evaluated when [a] is
    false. *)
Definition orM (a : option bool) (b : option bool) : option bool :=
  match a with
  | Some true => Some true
  | Some false => b
  | None => None
  end.

(** The callback of [logs.filter]. *)
Definition matches (filter searchTerm : str) (log : Logs.LogEntry)
  : option bool :=
  let matchesFilter := eqb filter "ALL" || eqb (Logs.level log) filter in
  match orM (Some (eqb searchTerm ""))
          (orM (text_includes (Logs.message log) searchTerm)
             (orM (text_includes (Logs.lambdaFunction log) searchTerm)
                (text_includes (Logs.requestId log) searchTerm))) with
  | Some matchesSearch => Some (matchesFilter && matchesSearch)
  | None => None
  end.

(** [filteredLogs]: nothing when the callback throws on a log. *)
Fixpoint filteredLogs (filter searchTerm : str) (l : list Logs.LogEntry)
  : option (list Logs.LogEntry) :=
  match l with
  | [] => Some []
  | log :: rest =>
      match matches filter searchTerm log with
      | None => None
      | Some keep =>
          match filteredLogs filter searchTerm rest with
          | None => None
          | Some rest' => Some (if keep then log :: rest' else rest')
          end
      end
  end.

End Filter.

End LogsView.

(** ** The files view *)

Module ManageFilesView.
Import JS.
Local Open Scope string_scope.
Local Open Scope js_scope.

Record S3File := {
  id : str;
  name : str;
  size : N;
  lastModified : str;
  url : option str
}.

Record ActionStatus := {
  success : bool;
  message : str
}.

Record State := {
  files : list S3File;
  selectedFile : option str;
  deleteConfirm : option str;
  actionStatus : option ActionStatus
}.

Definition confirmed (st : State) (fileId : str) : bool :=
  match deleteConfirm st with
  | Some pending => eqb pending fileId
  | None => false
  end.

(** [handleDelete]: the state when the click has settled, and the bodies
    of the requests it made.  [fetch_DELETE] is the route as the view
    sees it: the data of the answer to a body, or nothing when the call
    or the reading of the answer throws. *)
Definition handleDelete (fetch_DELETE : str -> option S3.Payload)
  (fileId : str) (st : State) : State * list str :=
  if negb (confirmed st fileId) then
    ({| files := files st;
        selectedFile := selectedFile st;
        deleteConfirm := Some fileId;
        actionStatus := actionStatus st |}, [])
  else
    let body := JSON_stringify (JObject [(u "fileId", JString fileId)]) in
    let deleted :=
      match fetch_DELETE body with
      | Some data => S3.success data
      | None => false
      end in
    if deleted then
      ({| files := filter (fun file => negb (eqb (id file) fileId))
                     (files st);
          selectedFile := None;
          deleteConfirm := None;
          actionStatus :=
            Some {| success := true;
                    message := "File deleted successfully" |} |}, [body])
    else
      ({| files := files st;
          selectedFile := None;
          deleteConfirm := None;
          actionStatus :=
            Some {| success := false;
                    message := "Error deleting file. Please try again." |} |},
       [body]).

(** [formatFileSize]. *)
Definition formatFileSize (bytes : num) : str :=
  if num_ltb bytes (num_of_N 1024) then number_to_string bytes ++ " B"
  else if num_ltb bytes (num_of_N 1048576)
  then toFixed1 (div_pow2 bytes 10) ++ " KB"
  else toFixed1 (div_pow2 bytes 20) ++ " MB".

End ManageFilesView.

(** ** The upload view *)

Module UploadView.
Import JS.
Local Open Scope string_scope.
Local Open Scope js_scope.

Record UploadStatus := {
  success : bool;
  message : str
}.

Record State := {
  files : list Upload.File;
  uploading : bool;
  uploadStatus : option UploadStatus
}.

(** What [fetch] and the reading of its answer settle with. *)
Inductive fetched :=
| Answered (data : Upload.Payload)
| Unreachable (thrown : Logs.thrown).

(** [handleUpload]: the state when the click has settled, and the forms
    it posted: the files appended under the key [files]. *)
Definition handleUpload (fetch_POST : list Upload.File -> fetched)
  (st : State) : State * list (list Upload.File) :=
  match files st with
  | [] =>
      ({| files := files st;
          uploading := uploading st;
          uploadStatus :=
            Some {| success := false;
                    message := "Please select at least one file to upload" |} |},
       [])
  | _ :: _ =>
      let formData := files st in
      let thrown :=
        match fetch_POST formData with
        | Unreachable thrown => inr thrown
        | Answered data =>
            if negb (Upload.success data) then
              inr (Logs.ErrorObject
                     (if eqb (Upload.message data) ""
                      then u "Upload failed" else Upload.message data))
            else inl (Upload.message data)
        end in
      match thrown with
      | inl text =>
          ({| files := [];
              uploading := false;
              uploadStatus :=
                Some {| success := true;
                        message :=
                          if eqb text ""
                          then "Successfully uploaded "
                               ++ string_of_nat (List.length (files st))
                               ++ " file(s)"
                          else text |} |}, [formData])
      | inr error =>
          ({| files := files st;
              uploading := false;
              uploadStatus :=
                Some {| success := false;
                        message :=
                          match error with
                          | Logs.ErrorObject m => m
                          | Logs.OtherValue =>
                              u "Error uploading files. Please try again."
                          end |} |}, [formData])
      end
  end.

End UploadView.

(** ** Vocabulary of the properties *)

Import JS Logs.
Open Scope string_scope.
Open Scope js_scope.

(** The three level texts. *)
Definition valid_level (l : str) : Prop :=
  l = u "INFO" \/ l = u "WARN" \/ l = u "ERROR".

(** The classification by content alone, in the words of the
    specification: search the serialized payload, lowercased, for the
    keywords; ERROR before WARN before INFO. *)
Definition content_level {case : CaseMapping} (payload : json) : str :=
  let text := toLowerCase (JSON_stringify payload) in
  if includes text "error" || includes text "exception"
     || includes text "fail"
  then "ERROR"
  else if includes text "warn" || includes text "caution"
  then "WARN"
  else "INFO".

(** Conversions that know a few letters outside ASCII as well, with the
    mappings that the Unicode tables give them: the uppercase form of the
    dotless i (U+0131) is I, that of the sharp s (U+00DF) is SS, that of
    the e with an acute accent (U+00E9) is U+00C9, and back; the lowercase
    form of the I with a dot (U+0130) is i followed by the combining dot
    (U+0307), that of the Kelvin sign (U+212A) is k.  They serve to
    instantiate the properties beyond ASCII. *)
Definition upper_units (c : N) : str :=
  if (c =? 305)%N then [73%N]
  else if (c =? 223)%N then [83%N; 83%N]
  else if (c =? 233)%N then [201%N]
  else [upper_unit c].

Definition lower_units (c : N) : str :=
  if (c =? 304)%N then [105%N; 775%N]
  else if (c =? 201)%N then [233%N]
  else if (c =? 8490)%N then [107%N]
  else [lower_unit c].

Definition latin_case : CaseMapping :=
  {| toUpperCase := flat_map upper_units;
     toLowerCase := flat_map lower_units |}.

(** The identifier of a message when the queue gave it one that is not
    empty. *)
Definition assigned (msg : Message) : option str :=
  match MessageId msg with
  | Some (c :: i) => Some (c :: i)
  | _ => None
  end.

(** The entry of a parse failure, in the words of the specification: the
    prefix, then the first 100 code units of the raw body and three dots,
    or "No content" without a body. *)
Definition error_entry (clock : nat -> str) (logs_length : nat)
  (msg : Message) (t : nat) : LogEntry :=
  {| id := match assigned msg with
           | Some i => i
           | None => "msg-" ++ string_of_nat logs_length
           end;
     timestamp := JString (clock t);
     level := "ERROR";
     message :=
       JString ("Error parsing message: "
                ++ match Body msg with
                   | Some (c :: b) => firstn 100 (c :: b) ++ "..."
                   | _ => "No content"
                   end);
     lambdaFunction := JString "parser";
     requestId := JString match assigned msg with
                          | Some i => i
                          | None => "unknown"
                          end |}.

(** The answer with status 200 that holds [entries]. *)
Definition respond_logs (entries : list LogEntry) : Response :=
  {| status := 200;
     payload := {| success := true; logs := Some entries;
                   failure := None |} |}.

(** Pieces of JSON text: a quoted word, and a quoted word inside a string
    literal, where each quote is escaped. *)
Definition q (s : str) : str := dq ++ s ++ dq.
Definition qq (s : str) : str := bs ++ dq ++ s ++ bs ++ dq.

(** An envelope whose [Message] is plain text, not JSON. *)
Definition plain_text_body : str :=
  "{" ++ q "Message" ++ ":" ++ q "disk is full" ++ "}".

Definition plain_text_message : Message :=
  {| MessageId := Some (u "m-1"); Body := Some plain_text_body |}.

(** An envelope whose [Message] is a number beyond the range of binary64:
    it is read as an infinity, whose text is not JSON. *)
Definition overflow_message : Message :=
  {| MessageId := Some (u "m-2");
     Body := Some ("{" ++ q "Message" ++ ":1e400}") |}.

(** A body that is not JSON, of 120 code units outside ASCII (the letter e
    with an acute accent). *)
Definition accented_message : Message :=
  {| MessageId := None; Body := Some (repeat_unit 233 120) |}.

(** The body of the scenario of the specification: an envelope with a
    [Timestamp] whose [Message] is the text of a payload with a lowercase
    level and a request id. *)
Definition scenario_payload : str :=
  "{" ++ qq "level" ++ ":" ++ qq "warn" ++ ","
  ++ qq "requestId" ++ ":" ++ qq "r1" ++ "}".

Definition scenario_body : str :=
  "{" ++ q "Message" ++ ": " ++ dq ++ scenario_payload ++ dq ++ ", "
  ++ q "Timestamp" ++ ": " ++ q "2023-01-01T00:00:00Z" ++ "}".

(** The same envelope carrying a [MessageId] of its own as well. *)
Definition scenario_body_with_id : str :=
  "{" ++ q "MessageId" ++ ": " ++ q "sns-9" ++ ", "
  ++ q "Message" ++ ": " ++ dq ++ scenario_payload ++ dq ++ ", "
  ++ q "Timestamp" ++ ": " ++ q "2023-01-01T00:00:00Z" ++ "}".

(** The entries of a batch, one per message, the first of them pushed
    when [logs] holds [i] entries. *)
Fixpoint entries_from {case : CaseMapping} (clock : nat -> str) (i : nat)
  (messages : list Message) (t : nat)
  : list LogEntry :=
  match messages with
  | [] => []
  | msg :: rest =>
      let '(entry, t') := process_message clock i msg t in
      entry :: entries_from clock (S i) rest t'
  end.

(** The placeholder of position [i]. *)
Definition placeholder (i : nat) : str := "msg-" ++ string_of_nat i.

(** The identifiers that the queue assigned in a batch: those present and
    not empty. *)
Definition queue_ids (messages : list Message) : list str :=
  flat_map (fun msg => match MessageId msg with
                       | Some i => if eqb i "" then [] else [i]
                       | None => []
                       end) messages.

(** The identifiers of the entries of a batch whose first message is at
    position [i]. *)
Fixpoint ids_from (i : nat) (messages : list Message) : list str :=
  match messages with
  | [] => []
  | msg :: rest =>
      str_or_else (MessageId msg) (placeholder i) :: ids_from (S i) rest
  end.

(** Two deliveries of one message in the same batch. *)
Definition redelivered_batch : list Message :=
  [ {| MessageId := Some (u "5fea7756-0ea4"); Body := Some (u "{}") |};
    {| MessageId := Some (u "5fea7756-0ea4"); Body := Some (u "{}") |} ].

(** A parsed body has a truthy [fileId]: it is an object with such a
    field. *)
Definition has_truthy_fileId (parsed : json) : bool :=
  match parsed with
  | JObject fields => truthy_opt (lookup "fileId" fields)
  | _ => false
  end.

(** [kw] is found in [text], whatever the case of the ASCII letters of
    [text]. *)
Definition has (kw text : str) : bool := includes (ascii_lower text) kw.

Definition is_lower (c : N) : bool := in_range 97 122 c.

Definition is_letter (c : N) : bool := is_lower (lower_unit c).

(** A payload mentions [kw]: the keyword is found in one of its strings
    or of its field names, at any depth. *)
Fixpoint mentions (kw : str) (v : json) : bool :=
  match v with
  | JString s => has kw s
  | JArray items => existsb (mentions kw) items
  | JObject fields =>
      existsb (fun kv => has kw (fst kv) || mentions kw (snd kv)) fields
  | _ => false
  end.

(** Induction on a value, with the hypothesis for every item of an array
    and every field of an object. *)
Section JsonInduction.

Variable P : json -> Prop.
Hypothesis HNull : P JNull.
Hypothesis HBool : forall b, P (JBool b).
Hypothesis HNumber : forall x, P (JNumber x).
Hypothesis HString : forall s, P (JString s).
Hypothesis HArray : forall items, Forall P items -> P (JArray items).
Hypothesis HObject :
  forall fields, Forall (fun kv => P (snd kv)) fields -> P (JObject fields).

Fixpoint json_nested_ind (v : json) : P v :=
  match v with
  | JNull => HNull
  | JBool b => HBool b
  | JNumber x => HNumber x
  | JString s => HString s
  | JArray items =>
      HArray items
        ((fix all (l : list json) : Forall P l :=
            match l with
            | [] => Forall_nil P
            | x :: r => Forall_cons x (json_nested_ind x) (all r)
            end) items)
  | JObject fields =>
      HObject fields
        ((fix all (l : list (str * json))
            : Forall (fun kv => P (snd kv)) l :=
            match l with
            | [] => Forall_nil _
            | kv :: r => Forall_cons kv (json_nested_ind (snd kv)) (all r)
            end) fields)
  end.

End JsonInduction.

(** A value that the view can show in place of a text: it is truthy, or it
    is the [null] that the answer carries for an infinity. *)
Definition present (v : json) : Prop := truthy v = true \/ v = JNull.

(** An entry of the answer: a level among the three, an identifier that is
    not empty, and a message, a function and a request id that are
    present. *)
Definition well_formed (e : LogEntry) : Prop :=
  valid_level (level e) /\ id e <> []
  /\ present (message e) /\ present (lambdaFunction e)
  /\ present (requestId e).

(** An entry as the handler makes it, before it is written: its message,
    function and request id are truthy. *)
Definition filled (e : LogEntry) : Prop :=
  valid_level (level e) /\ id e <> []
  /\ truthy (message e) = true /\ truthy (lambdaFunction e) = true
  /\ truthy (requestId e) = true.

(** A payload whose message is a number beyond the range of binary64. *)
Definition overflow_payload_message : Message :=
  {| MessageId := Some (u "m-3");
     Body := Some ("{" ++ q "Message" ++ ":" ++ dq
                   ++ "{" ++ qq "message" ++ ":1e400}" ++ dq ++ "}") |}.

(** The body that the files view sends for a file: the object with the
    one field [fileId]. *)
Definition delete_body (fileId : str) : str :=
  JSON_stringify (JObject [(u "fileId", JString fileId)]).

(** The result and the command of [POST] for a file uploaded at the clock
    read number [i]. *)
Definition result_of (Date_now : nat -> N) (p : nat * Upload.File)
  : Upload.UploadResult :=
  {| Upload.fileName := Upload.name (snd p);
     Upload.key := Upload.upload_key (Date_now (fst p)) (Upload.name (snd p)) |}.

Definition command_of (BUCKET_NAME : str) (Date_now : nat -> N)
  (p : nat * Upload.File) : Upload.PutObjectCommand :=
  {| Upload.Bucket := BUCKET_NAME;
     Upload.Key := Upload.upload_key (Date_now (fst p)) (Upload.name (snd p));
     Upload.Body := Upload.contents (snd p);
     Upload.ContentType := Upload.type (snd p) |}.

(** The files of a form, each with the number of the clock read made for
    it, the first being [t]. *)
Definition timed (t : nat) (files : list Upload.File)
  : list (nat * Upload.File) :=
  combine (seq t (List.length files)) files.

Definition is_slash (c : N) : bool := (c =? "/"%char)%N.

Definition no_slash (s : str) : bool :=
  forallb (fun c => negb (is_slash c)) s.

Definition all_digits (s : str) : bool := forallb is_digit s.

(** A directory part: empty, or ending with a slash. *)
Definition directory (s : str) : Prop :=
  s = [] \/ exists d, s = d ++ "/".

(** The message, function and request id of a log are strings. *)
Definition textual (log : LogEntry) : Prop :=
  (exists s, message log = JString s)
  /\ (exists s, lambdaFunction log = JString s)
  /\ (exists s, requestId log = JString s).

(** The filter of the level alone. *)
Definition level_passes (filter : str) (log : LogEntry) : bool :=
  eqb filter "ALL" || eqb (level log) filter.

(** A message of the queue whose payload has a number as its message. *)
Definition numeric_message : Message :=
  {| MessageId := Some (u "m-5");
     Body := Some ("{" ++ q "Message" ++ ":" ++ dq
                   ++ "{" ++ qq "message" ++ ":5}" ++ dq ++ "}") |}.

(** A run of clicks on Delete, one file after the other, each settled
    before the next: the state at the end and the bodies of the requests
    made, in order. *)
Fixpoint clicks (fetch_DELETE : str -> option S3.Payload)
  (ids : list str) (st : ManageFilesView.State)
  : ManageFilesView.State * list str :=
  match ids with
  | [] => (st, [])
  | fileId :: rest =>
      let '(st', requests) :=
        ManageFilesView.handleDelete fetch_DELETE fileId st in
      let '(st'', requests') := clicks fetch_DELETE rest st' in
      (st'', (requests ++ requests')%list)
  end.

(** The route as the files view reaches it: the data of the answer of
    [DELETE] to a body. *)
Definition route_DELETE (BUCKET_NAME : str) (send_resolves : bool)
  (body : str) : option S3.Payload :=
  Some (S3.payload (S3.response (S3.DELETE BUCKET_NAME body send_resolves))).

(** The route as the upload view reaches it: the data of the answer of
    [POST] to a form of files. *)
Definition route_POST (BUCKET_NAME : str) (Date_now : nat -> N)
  (accepts : nat -> Upload.PutObjectCommand -> bool) (t : nat)
  (formData : list Upload.File) : UploadView.fetched :=
  UploadView.Answered
    (Upload.payload
       (Upload.response
          (Upload.POST BUCKET_NAME Date_now accepts
             (Some (map Upload.FileEntry formData)) t))).

(** The whole numbers that binary64 holds exactly include those below
    [2^53]. *)
Definition safe_integer (bytes : N) : Prop := (bytes < 2 ^ 53)%N.

(** [kw] occurs in [text] in some letter case: a part [w] of [text] has
    [kw] as its lowercase form. *)
Definition occurs (kw text : str) : Prop :=
  exists a w b, text = a ++ w ++ b /\ ascii_lower w = kw.

(** ** Strings *)

Lemma eqb_eq (a b : str) : eqb a b = true <-> a = b.
Proof.
  revert b. induction a as [| x a IH]; intros [| y b]; simpl;
    try (split; [discriminate | discriminate]); try tauto.
  rewrite andb_true_iff, N.eqb_eq, IH.
  split; [intros [-> ->]; reflexivity | intros H; injection H; auto].
Qed.

Lemma eqb_refl (a : str) : eqb a a = true.
Proof. apply eqb_eq. reflexivity. Qed.

Lemma eqb_neq (a b : str) : eqb a b = false <-> a <> b.
Proof.
  rewrite <- eqb_eq. destruct (eqb a b); split; congruence.
Qed.

Lemma eqb_empty (s : str) : eqb s [] = match s with [] => true | _ => false end.
Proof. destruct s; reflexivity. Qed.

Lemma eqb_empty_false (s : str) : s <> [] -> eqb s "" = false.
Proof. intros H. apply eqb_neq. exact H. Qed.

Lemma valid_level_test (l : str) :
  (eqb l "ERROR" || eqb l "WARN" || eqb l "INFO") = true <-> valid_level l.
Proof.
  unfold valid_level. rewrite !orb_true_iff, !eqb_eq. tauto.
Qed.

Lemma valid_level_nonempty (l : str) : valid_level l -> l <> [].
Proof. intros [E | [E | E]]; subst l; discriminate. Qed.

(** [get] finds a field only in an object. *)
Lemma get_some_object (v : json) (k : str) (x : json) :
  get v k = Some (Some x) ->
  exists fields, v = JObject fields /\ lookup k fields = Some x.
Proof.
  destruct v; simpl; try discriminate.
  intros H. injection H as H. eauto.
Qed.

Lemma starts_app (sub b : str) : starts sub (sub ++ b) = true.
Proof.
  induction sub as [| c sub IH]; simpl; [reflexivity |].
  rewrite N.eqb_refl. exact IH.
Qed.

Lemma starts_split (sub s : str) :
  starts sub s = true -> exists b, s = sub ++ b.
Proof.
  revert s. induction sub as [| c sub IH]; intros s H.
  - exists s. reflexivity.
  - destruct s as [| d s]; simpl in H; [discriminate H |].
    apply andb_true_iff in H. destruct H as [Hc H].
    apply N.eqb_eq in Hc. subst d.
    destruct (IH s H) as [b ->]. exists b. reflexivity.
Qed.

Lemma includes_unfold (s sub : str) :
  includes s sub
  = starts sub s
    || match s with
       | [] => false
       | _ :: r => includes r sub
       end.
Proof. destruct s; reflexivity. Qed.

Lemma includes_intro (a sub b : str) :
  includes (a ++ sub ++ b) sub = true.
Proof.
  induction a as [| c a IH].
  - simpl app. rewrite includes_unfold, starts_app. reflexivity.
  - rewrite includes_unfold. simpl. rewrite IH. apply orb_true_r.
Qed.

Lemma includes_elim (s sub : str) :
  includes s sub = true -> exists a b, s = a ++ sub ++ b.
Proof.
  induction s as [| c s IH]; rewrite includes_unfold; intros H;
    apply orb_true_iff in H; destruct H as [H | H].
  - destruct (starts_split _ _ H) as [b E]. exists [], b. exact E.
  - discriminate H.
  - destruct (starts_split _ _ H) as [b E]. exists [], b. exact E.
  - destruct (IH H) as [a [b ->]]. exists (c :: a), b. reflexivity.
Qed.

(** The conversions of [ascii_case] satisfy what the properties below
    assume of the conversions of the runtime. *)
Lemma ascii_case_upper (s : str) :
  is_ascii s = true -> @toUpperCase ascii_case s = ascii_upper s.
Proof. reflexivity. Qed.

Lemma ascii_case_lower (s : str) :
  is_ascii s = true -> @toLowerCase ascii_case s = ascii_lower s.
Proof. reflexivity. Qed.

Lemma ascii_case_word (a w b : str) :
  forallb is_letter w = true ->
  exists a' b',
    @toLowerCase ascii_case (a ++ w ++ b) = a' ++ ascii_lower w ++ b'.
Proof.
  intros _. exists (ascii_lower a), (ascii_lower b).
  simpl. unfold ascii_lower. rewrite !map_app. reflexivity.
Qed.

Lemma ascii_case_empty (s : str) :
  @toLowerCase ascii_case s = [] <-> s = [].
Proof.
  simpl. unfold ascii_lower. destruct s; simpl; split; intros H;
    try reflexivity; discriminate H.
Qed.

(** So do the conversions of [latin_case]. *)
Lemma upper_units_ascii (c : N) : (c <? 128)%N = true ->
  upper_units c = [upper_unit c].
Proof.
  intros H. apply N.ltb_lt in H. unfold upper_units.
  destruct (N.eqb_spec c 305); [lia |].
  destruct (N.eqb_spec c 223); [lia |].
  destruct (N.eqb_spec c 233); [lia |]. reflexivity.
Qed.

Lemma lower_units_ascii (c : N) : (c <? 128)%N = true ->
  lower_units c = [lower_unit c].
Proof.
  intros H. apply N.ltb_lt in H. unfold lower_units.
  destruct (N.eqb_spec c 304); [lia |].
  destruct (N.eqb_spec c 201); [lia |].
  destruct (N.eqb_spec c 8490); [lia |]. reflexivity.
Qed.

Lemma latin_case_upper (s : str) :
  is_ascii s = true -> @toUpperCase latin_case s = ascii_upper s.
Proof.
  simpl. induction s as [| c s IH]; simpl; intros H; [reflexivity |].
  apply andb_true_iff in H. destruct H as [Hc Hs].
  rewrite (upper_units_ascii c Hc), (IH Hs). reflexivity.
Qed.

Lemma latin_case_lower (s : str) :
  is_ascii s = true -> @toLowerCase latin_case s = ascii_lower s.
Proof.
  simpl. induction s as [| c s IH]; simpl; intros H; [reflexivity |].
  apply andb_true_iff in H. destruct H as [Hc Hs].
  rewrite (lower_units_ascii c Hc), (IH Hs). reflexivity.
Qed.

Lemma letter_ascii (c : N) : is_letter c = true -> (c <? 128)%N = true.
Proof.
  unfold is_letter, is_lower, lower_unit, in_range. intros H.
  apply N.ltb_lt.
  destruct (N.leb_spec 65 c) as [Ha | Ha];
    destruct (N.leb_spec c 90) as [Hb | Hb]; simpl in H; try lia;
    apply andb_true_iff in H; destruct H as [Hc Hd];
    apply N.leb_le in Hc; apply N.leb_le in Hd; lia.
Qed.

Lemma latin_case_word (a w b : str) :
  forallb is_letter w = true ->
  exists a' b',
    @toLowerCase latin_case (a ++ w ++ b) = a' ++ ascii_lower w ++ b'.
Proof.
  intros H. exists (flat_map lower_units a), (flat_map lower_units b).
  simpl. rewrite !flat_map_app. f_equal. f_equal.
  induction w as [| c w IH]; simpl; [reflexivity |].
  simpl in H. apply andb_true_iff in H. destruct H as [Hc Hw].
  rewrite (lower_units_ascii c (letter_ascii c Hc)), (IH Hw). reflexivity.
Qed.

Lemma latin_case_empty (s : str) :
  @toLowerCase latin_case s = [] <-> s = [].
Proof.
  simpl. destruct s as [| c s]; simpl; split; intros H;
    try reflexivity; try discriminate H.
  exfalso. unfold lower_units in H.
  destruct (c =? 304)%N; [discriminate H |].
  destruct (c =? 201)%N; [discriminate H |].
  destruct (c =? 8490)%N; discriminate H.
Qed.

(** ** Properties of the classifier *)

Section Classifier.

Context {case : CaseMapping}.

(** What is assumed of the conversions of the runtime: on an ASCII text
    they are the conversions of ASCII, and an ASCII word inside any text
    is lowercased in place. *)
Hypothesis upper_ascii :
  forall s, is_ascii s = true -> toUpperCase s = ascii_upper s.
Hypothesis lower_ascii :
  forall s, is_ascii s = true -> toLowerCase s = ascii_lower s.
Hypothesis lower_word :
  forall a w b, forallb is_letter w = true ->
    exists a' b', toLowerCase (a ++ w ++ b) = a' ++ ascii_lower w ++ b'.

Lemma toUpperCase_nonempty (s : str) : toUpperCase s <> [] -> s <> [].
Proof.
  intros H E. subst s. apply H. rewrite upper_ascii; reflexivity.
Qed.

(** C4: a payload with a string [level] field whose uppercased value is
    INFO, WARN or ERROR is classified as that uppercased value, whatever
    else the payload contains. *)
Theorem explicit_level_wins (payload : json) (s : str) :
  get payload "level" = Some (Some (JString s)) ->
  valid_level (toUpperCase s) ->
  determineLogLevel payload = toUpperCase s.
Proof.
  intros Hget Hvalid.
  destruct (get_some_object _ _ _ Hget) as [fields [-> Hl]].
  unfold determineLogLevel. simpl truthy. simpl negb. cbv iota.
  simpl get. rewrite Hl. simpl truthy.
  rewrite (eqb_empty_false s)
    by (apply toUpperCase_nonempty, valid_level_nonempty, Hvalid).
  simpl negb. cbv iota.
  apply valid_level_test in Hvalid. rewrite Hvalid. reflexivity.
Qed.

(** *** Keywords in the serialized text *)

Lemma has_occurs (kw s : str) : has kw s = true -> occurs kw s.
Proof.
  unfold has, ascii_lower. intros H.
  destruct (includes_elim _ _ H) as [x [y E]].
  apply map_eq_app in E. destruct E as [a [r [-> [Ha Hr]]]].
  apply map_eq_app in Hr. destruct Hr as [w [b [-> [Hw Hb]]]].
  exists a, w, b. split; [reflexivity | exact Hw].
Qed.

Lemma occurs_app (kw a s b : str) : occurs kw s -> occurs kw (a ++ s ++ b).
Proof.
  intros [x [w [y [-> Hw]]]]. exists (a ++ x), w, (y ++ b).
  split; [| exact Hw]. rewrite <- !app_assoc. reflexivity.
Qed.

Lemma lower_letters (w : str) :
  forallb is_lower (ascii_lower w) = true -> forallb is_letter w = true.
Proof.
  unfold ascii_lower, is_letter.
  induction w as [| c w IH]; simpl; [reflexivity |].
  intros H. apply andb_true_iff in H. destruct H as [Hc Hw].
  rewrite Hc, (IH Hw). reflexivity.
Qed.

(** A keyword that occurs in a text is found in its lowercase form. *)
Lemma occurs_found (kw text : str) :
  forallb is_lower kw = true -> occurs kw text ->
  includes (toLowerCase text) kw = true.
Proof.
  intros Hkw [a [w [b [-> Hw]]]].
  destruct (lower_word a w b) as [a' [b' E]].
  { apply lower_letters. rewrite Hw. exact Hkw. }
  rewrite E, Hw. apply includes_intro.
Qed.

Lemma letter_range (c : N) :
  is_letter c = true -> (65 <= c <= 90 \/ 97 <= c <= 122)%N.
Proof.
  unfold is_letter, is_lower, lower_unit, in_range. intros H.
  destruct (N.leb_spec 65 c) as [Ha | Ha];
    destruct (N.leb_spec c 90) as [Hb | Hb]; simpl in H;
    [left; lia | | |];
    apply andb_true_iff in H; destruct H as [Hc Hd];
    apply N.leb_le in Hc; apply N.leb_le in Hd; right; lia.
Qed.

(** A letter is written as it is between the quotes. *)
Lemma quote_one_letter (c : N) : is_letter c = true -> quote_one c = [c].
Proof.
  intros H. apply letter_range in H.
  unfold quote_one, quote_char, backslash_char, is_high, is_low, in_range.
  repeat match goal with
         | |- context [(c =? ?k)%N] =>
             destruct (N.eqb_spec c k); [lia |]
         end.
  destruct (N.ltb_spec c 32); [lia |].
  destruct (N.leb_spec 55296 c); [lia |].
  destruct (N.leb_spec 56320 c); [lia |].
  reflexivity.
Qed.

Lemma letter_not_high (c : N) : is_letter c = true -> is_high c = false.
Proof.
  intros H. apply letter_range in H. unfold is_high, in_range.
  destruct (N.leb_spec 55296 c); [lia | reflexivity].
Qed.

Lemma letter_not_low (c : N) : is_letter c = true -> is_low c = false.
Proof.
  intros H. apply letter_range in H. unfold is_low, in_range.
  destruct (N.leb_spec 56320 c); [lia | reflexivity].
Qed.

Lemma quote_body_cons (c : N) (r : str) :
  quote_body (c :: r)
  = match r with
    | c' :: r' => if is_high c && is_low c' then c :: c' :: quote_body r'
                  else quote_one c ++ quote_body r
    | [] => quote_one c
    end.
Proof. reflexivity. Qed.

(** Before a code unit that is not the second half of a pair, the text
    between the quotes is written on its own. *)
Lemma quote_body_before (n : nat) :
  forall (a : str) (c : N) (r : str),
    List.length a <= n -> is_low c = false ->
    quote_body (a ++ c :: r) = quote_body a ++ quote_body (c :: r).
Proof.
  induction n as [| n IH]; intros a c r Hlen Hc.
  - destruct a; [reflexivity | simpl in Hlen; lia].
  - destruct a as [| x [| y a]].
    + reflexivity.
    + change (([x] ++ c :: r)) with (x :: c :: r).
      rewrite (quote_body_cons x (c :: r)), Hc, andb_false_r. reflexivity.
    + change ((x :: y :: a) ++ c :: r) with (x :: y :: (a ++ c :: r)).
      rewrite (quote_body_cons x (y :: a ++ c :: r)).
      rewrite (quote_body_cons x (y :: a)).
      destruct (is_high x && is_low y).
      * rewrite (IH a c r ltac:(simpl in Hlen; lia) Hc). reflexivity.
      * change (y :: a ++ c :: r) with ((y :: a) ++ c :: r).
        rewrite (IH (y :: a) c r ltac:(simpl in *; lia) Hc).
        rewrite <- app_assoc. reflexivity.
Qed.

Lemma quote_body_word (w b : str) :
  forallb is_letter w = true -> quote_body (w ++ b) = w ++ quote_body b.
Proof.
  induction w as [| c w IH]; intros H; [reflexivity |].
  simpl in H. apply andb_true_iff in H. destruct H as [Hc Hw].
  change ((c :: w) ++ b) with (c :: (w ++ b)).
  rewrite quote_body_cons, (letter_not_high c Hc), (quote_one_letter c Hc).
  simpl andb. cbv iota.
  destruct (w ++ b) as [| c' r'] eqn:E.
  - apply app_eq_nil in E. destruct E as [-> ->]. reflexivity.
  - rewrite (IH Hw). reflexivity.
Qed.

(** A keyword that occurs in a string occurs in the string as quoted. *)
Lemma occurs_quote (kw s : str) :
  forallb is_lower kw = true -> kw <> [] ->
  occurs kw s -> occurs kw (quote s).
Proof.
  intros Hkw Hne [a [w [b [-> Hw]]]].
  assert (Hl : forallb is_letter w = true).
  { apply lower_letters. rewrite Hw. exact Hkw. }
  destruct w as [| c w]; [contradiction Hne; symmetry; exact Hw |].
  unfold quote. apply occurs_app.
  change (a ++ (c :: w) ++ b) with (a ++ c :: (w ++ b)).
  rewrite (quote_body_before (List.length a) a c (w ++ b) (le_n _))
    by (apply letter_not_low; simpl in Hl; apply andb_true_iff in Hl;
        exact (proj1 Hl)).
  change (c :: w ++ b) with ((c :: w) ++ b).
  rewrite (quote_body_word (c :: w) b Hl).
  exists (quote_body a), (c :: w), (quote_body b).
  split; [reflexivity | exact Hw].
Qed.

Lemma join_in (sep x : str) (l : list str) :
  In x l -> exists a b, join sep l = a ++ x ++ b.
Proof.
  induction l as [| y l IH]; intros Hin; [contradiction |].
  destruct Hin as [-> | Hin].
  - destruct l as [| z l].
    + exists [], []. simpl. rewrite app_nil_r. reflexivity.
    + exists [], (sep ++ join sep (z :: l)). reflexivity.
  - destruct (IH Hin) as [a [b E]].
    destruct l as [| z l]; [contradiction |].
    exists (y ++ sep ++ a), b.
    change (join sep (y :: z :: l)) with (y ++ sep ++ join sep (z :: l)).
    rewrite E, <- !app_assoc. reflexivity.
Qed.

Lemma occurs_join (kw sep x : str) (l : list str) :
  In x l -> occurs kw x -> occurs kw (join sep l).
Proof.
  intros Hin H. destruct (join_in sep x l Hin) as [a [b ->]].
  apply occurs_app. exact H.
Qed.

(** A keyword that a payload mentions occurs in its serialized text. *)
Lemma mentions_stringify (kw : str) (v : json) :
  forallb is_lower kw = true -> kw <> [] ->
  mentions kw v = true -> occurs kw (JSON_stringify v).
Proof.
  intros Hkw Hne. induction v as [| b | x | s | items IH | fields IH]
    using json_nested_ind; simpl; intros H; try discriminate H.
  - apply occurs_quote; [assumption | assumption |].
    apply has_occurs. exact H.
  - apply existsb_exists in H. destruct H as [x [Hin Hx]].
    apply (occurs_app kw "[" _ "]").
    apply (occurs_join kw "," (JSON_stringify x)).
    + apply in_map. exact Hin.
    + rewrite Forall_forall in IH. apply IH; assumption.
  - apply existsb_exists in H. destruct H as [[k x] [Hin Hx]].
    apply (occurs_app kw "{" _ "}").
    apply (occurs_join kw "," (quote k ++ ":" ++ JSON_stringify x)).
    + apply (in_map (fun kv => quote (fst kv) ++ ":" ++ JSON_stringify (snd kv))
               fields (k, x) Hin).
    + simpl in Hx. apply orb_true_iff in Hx. destruct Hx as [Hk | Hv].
      * apply (occurs_app kw [] (quote k) (":" ++ JSON_stringify x)).
        apply occurs_quote; [assumption | assumption |].
        apply has_occurs. exact Hk.
      * rewrite app_assoc.
        rewrite <- (app_nil_r (JSON_stringify x)).
        apply occurs_app.
        rewrite Forall_forall in IH. apply (IH (k, x) Hin Hv).
Qed.

Lemma mentions_found (kw : str) (v : json) :
  forallb is_lower kw = true -> kw <> [] ->
  mentions kw v = true ->
  includes (toLowerCase (JSON_stringify v)) kw = true.
Proof.
  intros Hkw Hne H. apply occurs_found; [exact Hkw |].
  apply mentions_stringify; assumption.
Qed.

(** The classification of an ASCII text. *)
Lemma content_level_ascii (payload : json) :
  is_ascii (JSON_stringify payload) = true ->
  content_level payload
  = let text := ascii_lower (JSON_stringify payload) in
    if includes text "error" || includes text "exception"
       || includes text "fail"
    then "ERROR"
    else if includes text "warn" || includes text "caution"
    then "WARN"
    else "INFO".
Proof.
  intros H. unfold content_level. rewrite (lower_ascii _ H). reflexivity.
Qed.

Lemma content_level_falsy (payload : json) :
  truthy payload = false -> content_level payload = "INFO".
Proof.
  destruct payload as [| [|] | [neg m e | neg] | s | items | fields]; simpl;
    intros H; try discriminate H.
  - rewrite content_level_ascii; reflexivity.
  - rewrite content_level_ascii; reflexivity.
  - apply negb_false_iff, N.eqb_eq in H. subst m.
    rewrite content_level_ascii; reflexivity.
  - apply negb_false_iff, eqb_eq in H. subst s.
    rewrite content_level_ascii; reflexivity.
Qed.

(** Without a valid explicit level the classifier is the classification
    by content. *)
Lemma determineLogLevel_content (payload : json) :
  (forall s, get payload "level" = Some (Some (JString s)) ->
             ~ valid_level (toUpperCase s)) ->
  determineLogLevel payload = content_level payload.
Proof.
  intros Hno. unfold determineLogLevel.
  destruct (truthy payload) eqn:Htruthy; simpl negb; cbv iota.
  2: { symmetry. apply content_level_falsy. exact Htruthy. }
  destruct (get payload "level") as [[l |] |] eqn:Hl; try reflexivity.
  destruct (truthy l) eqn:Ht; [| reflexivity].
  destruct l as [| b | x | s | items | fs]; try reflexivity.
  destruct (eqb (toUpperCase s) "ERROR" || eqb (toUpperCase s) "WARN"
            || eqb (toUpperCase s) "INFO") eqn:Hv; [| reflexivity].
  exfalso. apply (Hno s eq_refl). apply valid_level_test. exact Hv.
Qed.

(** C5: a payload without a valid explicit level is classified by its
    serialized, lowercased text: ERROR if it contains error, exception or
    fail, else WARN if it contains warn or caution, else INFO.  A keyword
    in a string or in a field name of the payload, at any depth and in any
    letter case, is in that text; the null and the empty payload are
    INFO. *)
Theorem content_classification (payload : json) :
  (forall s, get payload "level" = Some (Some (JString s)) ->
             ~ valid_level (toUpperCase s)) ->
  determineLogLevel payload = content_level payload
  /\ (forall kw, In kw [u "error"; u "exception"; u "fail"] ->
                 mentions kw payload = true ->
                 determineLogLevel payload = "ERROR")
  /\ (forall kw, In kw [u "warn"; u "caution"] ->
                 mentions kw payload = true ->
                 determineLogLevel payload = "ERROR"
                 \/ determineLogLevel payload = "WARN")
  /\ determineLogLevel JNull = "INFO"
  /\ determineLogLevel (JObject []) = "INFO"
  /\ determineLogLevel (JObject [(u "Exception", JNumber (num_of_N 1))])
     = "ERROR"
  /\ determineLogLevel (JObject [(u "note", JString "disk FAILing")])
     = "ERROR"
  /\ determineLogLevel (JObject [(u "note", JString "Caution: full")])
     = "WARN"
  /\ determineLogLevel (JObject [(u "note", JString "warning: error 5")])
     = "ERROR".
Proof.
  intros Hno.
  pose proof (determineLogLevel_content payload Hno) as Hcontent.
  split; [exact Hcontent |].
  split; [| split].
  - intros kw Hkw Hm. rewrite Hcontent. unfold content_level.
    assert (H : includes (toLowerCase (JSON_stringify payload)) kw = true).
    { apply mentions_found; [| | exact Hm];
        simpl in Hkw; destruct Hkw as [<- | [<- | [<- | []]]];
        solve [reflexivity | discriminate]. }
    simpl in Hkw.
    destruct Hkw as [<- | [<- | [<- | []]]]; rewrite H;
      rewrite ?orb_true_r; reflexivity.
  - intros kw Hkw Hm. rewrite Hcontent. unfold content_level.
    assert (H : includes (toLowerCase (JSON_stringify payload)) kw = true).
    { apply mentions_found; [| | exact Hm];
        simpl in Hkw; destruct Hkw as [<- | [<- | []]];
        solve [reflexivity | discriminate]. }
    simpl in Hkw.
    destruct (includes (toLowerCase (JSON_stringify payload)) "error"
              || includes (toLowerCase (JSON_stringify payload)) "exception"
              || includes (toLowerCase (JSON_stringify payload)) "fail");
      [left; reflexivity | right].
    destruct Hkw as [<- | [<- | []]]; rewrite H;
      rewrite ?orb_true_r; reflexivity.
  - split; [reflexivity |].
    repeat split;
      (rewrite determineLogLevel_content
         by (intros s Hs; discriminate Hs));
      (rewrite content_level_ascii by reflexivity); reflexivity.
Qed.

End Classifier.

Lemma explicit_level_wins_witness :
  @determineLogLevel ascii_case
    (JObject [(u "level", JString "Info");
              (u "message", JString "fatal error")])
  = u "INFO"
  /\ @determineLogLevel latin_case
       (JObject [(u "level", JString (305%N :: u "nfo"));
                 (u "message", JString "fatal error")])
     = u "INFO".
Proof.
  split.
  - apply (@explicit_level_wins ascii_case ascii_case_upper
             (JObject [(u "level", JString "Info");
                       (u "message", JString "fatal error")]) "Info").
    + reflexivity.
    + left. reflexivity.
  - apply (@explicit_level_wins latin_case latin_case_upper
             (JObject [(u "level", JString (305%N :: u "nfo"));
                       (u "message", JString "fatal error")])
             (305%N :: u "nfo")).
    + reflexivity.
    + left. reflexivity.
Defined.

Lemma content_classification_witness :
  @determineLogLevel ascii_case
    (JObject [(u "level", JString "debug");
              (u "detail", JString "Unhandled Exception")])
  = u "ERROR"
  /\ @determineLogLevel latin_case
       (JObject [(u "level", JString "debug");
                 (u "detail", JString ([201%N] ++ u "chec: EXCEPTION"))])
     = u "ERROR".
Proof.
  split.
  - refine (proj1 (proj2 (@content_classification ascii_case
             ascii_case_lower ascii_case_word
             (JObject [(u "level", JString "debug");
                       (u "detail", JString "Unhandled Exception")]) _))
             "exception" _ _).
    + intros s H. injection H as H. subst s.
      intros [E | [E | E]]; discriminate E.
    + right. left. reflexivity.
    + reflexivity.
  - refine (proj1 (proj2 (@content_classification latin_case
             latin_case_lower latin_case_word
             (JObject [(u "level", JString "debug");
                       (u "detail",
                        JString ([201%N] ++ u "chec: EXCEPTION"))]) _))
             "exception" _ _).
    + intros s H. injection H as H. subst s.
      intros [E | [E | E]]; discriminate E.
    + right. left. reflexivity.
    + reflexivity.
Defined.

(** ** Properties of the log route *)

Lemma JSON_parse_empty : JSON_parse [] = None.
Proof. reflexivity. Qed.

Lemma JSON_parse_braces : JSON_parse "{}" = Some (JObject []).
Proof. reflexivity. Qed.

Lemma firstn_min {A : Type} (n : nat) (s : list A) :
  firstn (Nat.min n (List.length s)) s = firstn n s.
Proof.
  destruct (Nat.le_ge_cases n (List.length s)) as [H | H].
  - rewrite Nat.min_l by exact H. reflexivity.
  - rewrite Nat.min_r by exact H.
    rewrite firstn_all, firstn_all2 by exact H. reflexivity.
Qed.

(** [s.substring(0, n)] is the first [n] code units of [s]. *)
Lemma substring_head (s : str) (n : nat) : substring s 0 n = firstn n s.
Proof.
  unfold substring. rewrite Nat.min_0_l, Nat.max_0_l, Nat.sub_0_r.
  apply firstn_min.
Qed.

Lemma str_or_else_assigned (msg : Message) (b : str) :
  str_or_else (MessageId msg) b
  = match assigned msg with
    | Some i => i
    | None => b
    end.
Proof.
  unfold str_or_else, assigned.
  destruct (MessageId msg) as [[| c i] |]; reflexivity.
Qed.

Section LogRoute.

Context {case : CaseMapping}.
Variable clock : nat -> str.

Hypothesis upper_ascii :
  forall s, is_ascii s = true -> toUpperCase s = ascii_upper s.
Hypothesis lower_ascii :
  forall s, is_ascii s = true -> toLowerCase s = ascii_lower s.

(** The [catch] pushes the entry of a parse failure. *)
Lemma catch_block_entry (n : nat) (msg : Message) (t : nat) :
  catch_block clock n msg t = (error_entry clock n msg t, S t).
Proof.
  unfold catch_block, error_entry, excerpt.
  rewrite !str_or_else_assigned.
  destruct (Body msg) as [[| c b] |]; try reflexivity.
  simpl negb. cbv iota. rewrite substring_head. reflexivity.
Qed.

Lemma determineLogLevel_empty : determineLogLevel (JObject []) = "INFO".
Proof.
  unfold determineLogLevel. cbn [truthy negb get lookup].
  rewrite (lower_ascii (JSON_stringify (JObject []))) by reflexivity.
  reflexivity.
Qed.

(** What the [try] does, step by step. *)
Lemma try_block_steps (n : nat) (msg : Message) (t : nat) :
  try_block clock n msg t
  = match JSON_parse (str_or_else (Body msg) "{}") with
    | None => (None, t)
    | Some body =>
        match get body "Message" with
        | None => (None, t)
        | Some body_Message =>
            match JSON_parse
                    (ToString (or_else body_Message (JString "{}"))) with
            | None => (None, t)
            | Some snsMessage =>
                match get body "Timestamp" with
                | None => (None, t)
                | Some body_Timestamp =>
                    let t' := if truthy_opt body_Timestamp then t else S t in
                    match get snsMessage "message",
                          get snsMessage "function",
                          get snsMessage "requestId",
                          get body "MessageId" with
                    | Some sns_message, Some sns_function,
                      Some sns_requestId, Some body_MessageId =>
                        (Some
                           {| id := str_or_else (MessageId msg)
                                      ("msg-" ++ string_of_nat n);
                              timestamp :=
                                if truthy_opt body_Timestamp
                                then or_else body_Timestamp JNull
                                else JString (clock t);
                              level := determineLogLevel snsMessage;
                              message :=
                                or_else (or_opt sns_message body_Message)
                                  (JString "No message content");
                              lambdaFunction :=
                                or_else sns_function (JString "unknown");
                              requestId :=
                                or_else (or_opt sns_requestId body_MessageId)
                                  (JString "unknown") |}, t')
                    | _, _, _, _ => (None, t')
                    end
                end
            end
        end
    end.
Proof.
  unfold try_block, bind, lift, ret. cbv beta.
  destruct (JSON_parse (str_or_else (Body msg) "{}")) as [body |];
    [| reflexivity].
  destruct (get body "Message") as [bm |]; [| reflexivity].
  destruct (JSON_parse (ToString (or_else bm (JString "{}")))) as [sns |];
    [| reflexivity].
  destruct (get body "Timestamp") as [ts |]; [| reflexivity].
  unfold or_elseM, now, ret, truthy_opt, or_else.
  destruct ts as [v |]; [destruct (truthy v) |];
    destruct (get sns "message") as [sm |]; try reflexivity;
    destruct (get sns "function") as [sf |]; try reflexivity;
    destruct (get sns "requestId") as [sr |]; try reflexivity;
    destruct (get body "MessageId") as [bid |]; reflexivity.
Qed.

(** A property read on a value other than [null] does not throw. *)
Lemma get_total (v : json) (k : str) :
  v <> JNull -> exists x, get v k = Some x.
Proof.
  destruct v; simpl; intros H; eauto. contradiction H. reflexivity.
Qed.

(** A body that is not JSON makes the [try] throw at its first line. *)
Lemma invalid_body_throws (n : nat) (msg : Message) (b : str) (t : nat) :
  Body msg = Some b -> b <> [] -> JSON_parse b = None ->
  try_block clock n msg t = (None, t).
Proof.
  intros Hb Hne Hp. rewrite try_block_steps.
  rewrite Hb. simpl str_or_else. rewrite (eqb_empty_false b Hne).
  simpl negb. cbv iota. rewrite Hp. reflexivity.
Qed.

(** Without a body, or with an empty one, the [try] does not throw. *)
Lemma try_block_default (n : nat) (msg : Message) (t : nat) :
  str_or_else (Body msg) "{}" = u "{}" ->
  try_block clock n msg t
  = (Some {| id := str_or_else (MessageId msg) ("msg-" ++ string_of_nat n);
             timestamp := JString (clock t);
             level := "INFO";
             message := JString "No message content";
             lambdaFunction := JString "unknown";
             requestId := JString "unknown" |}, S t).
Proof.
  intros Hb. rewrite try_block_steps, Hb, JSON_parse_braces.
  cbn [get lookup or_else ToString]. rewrite JSON_parse_braces.
  cbn [get lookup truthy_opt or_opt or_else].
  rewrite determineLogLevel_empty. reflexivity.
Qed.

Lemma try_block_default_returns (n : nat) (msg : Message) (t : nat) :
  str_or_else (Body msg) "{}" = u "{}" ->
  exists entry, try_block clock n msg t = (Some entry, S t).
Proof.
  intros Hb. rewrite try_block_steps, Hb, JSON_parse_braces.
  cbn [get lookup or_else ToString]. rewrite JSON_parse_braces.
  cbn [get lookup truthy_opt]. eexists. reflexivity.
Qed.

(** When the [try] throws, the body of the message is there and not
    empty: without a body the text parsed is the literal of the empty
    object. *)
Lemma throws_has_body (n : nat) (msg : Message) (t : nat) :
  fst (try_block clock n msg t) = None ->
  exists c b, Body msg = Some (c :: b).
Proof.
  intros H.
  destruct (Body msg) as [[| c b] |] eqn:Hb.
  - destruct (try_block_default_returns n msg t) as [e He];
      [rewrite Hb; reflexivity |].
    rewrite He in H. discriminate H.
  - eauto.
  - destruct (try_block_default_returns n msg t) as [e He];
      [rewrite Hb; reflexivity |].
    rewrite He in H. discriminate H.
Qed.

Lemma for_of_one (n : nat) (msg : Message) (logs : list LogEntry) (t : nat) :
  List.length logs = n ->
  for_of clock [msg] logs t
  = ((logs ++ [fst (process_message clock n msg t)])%list,
     snd (process_message clock n msg t)).
Proof.
  intros <-. simpl.
  destruct (process_message clock (List.length logs) msg t). reflexivity.
Qed.

(** C3: when the processing of a message throws, the loop pushes one
    entry for it, with level ERROR, the message "Error parsing message: "
    followed by the first 100 code units of the body and "..." (or by
    "No content" without a body), the function "parser" and the message's
    identifier, or "unknown", as request id. *)
Theorem thrown_message_entry (n : nat) (msg : Message) (t : nat) :
  fst (try_block clock n msg t) = None ->
  let entry := fst (process_message clock n msg t) in
  level entry = "ERROR"
  /\ message entry =
       JString ("Error parsing message: "
                ++ match Body msg with
                   | Some b => if eqb b "" then "No content"
                               else firstn 100 b ++ "..."
                   | None => "No content"
                   end)
  /\ lambdaFunction entry = JString "parser"
  /\ requestId entry =
       JString (match MessageId msg with
                | Some i => if eqb i "" then "unknown" else i
                | None => "unknown"
                end)
  /\ forall logs, List.length logs = n ->
       fst (for_of clock [msg] logs t) = (logs ++ [entry])%list.
Proof.
  intros H entry.
  split; [| split; [| split; [| split; [| intros logs Hn;
                                          rewrite (for_of_one n) by exact Hn;
                                          reflexivity]]]];
    subst entry; unfold process_message;
    destruct (try_block clock n msg t) as [[e |] t'] eqn:Ht;
    try discriminate H;
    rewrite catch_block_entry; unfold error_entry, assigned; simpl.
  - reflexivity.
  - destruct (Body msg) as [[| c b] |]; reflexivity.
  - reflexivity.
  - destruct (MessageId msg) as [[| c i] |]; reflexivity.
Qed.

(** C10: a message without a body never reaches the [catch]: it gets the
    entry of an empty payload, with level INFO, the message "No message
    content", the function "unknown" and the time of the clock, so the
    text "No content" is not produced for it. *)
Theorem absent_body_entry (n : nat) (msg : Message) (t : nat) :
  Body msg = None ->
  try_block clock n msg t = (Some (fst (process_message clock n msg t)), S t)
  /\ process_message clock n msg t =
       ({| id := str_or_else (MessageId msg) ("msg-" ++ string_of_nat n);
           timestamp := JString (clock t);
           level := "INFO";
           message := JString "No message content";
           lambdaFunction := JString "unknown";
           requestId := JString "unknown" |}, S t)
  /\ message (fst (process_message clock n msg t))
     <> JString "Error parsing message: No content".
Proof.
  intros Hb. unfold process_message.
  rewrite try_block_default by (rewrite Hb; reflexivity).
  repeat split. discriminate.
Qed.

(** C1, amended: when the envelope is valid JSON and its [Message] is
    truthy (for a string: not empty) and its text is not JSON, the inner
    parse throws inside the same [try] and the entry pushed is the
    parse-failure entry of the [catch].  A [Message] that is absent or
    falsy, and only such a one, is replaced by the literal of the empty
    object: it gives the entry of an empty payload, while the entry of a
    truthy [Message] whose text is JSON is classified by that payload. *)
Theorem inner_parse_failure_entry (n : nat) (msg : Message) (t : nat)
  (b : str) (body : json) (m : option json) :
  Body msg = Some b ->
  JSON_parse b = Some body ->
  get body "Message" = Some m ->
  (forall v, m = Some v -> truthy v = true ->
             JSON_parse (ToString v) = None ->
             try_block clock n msg t = (None, t)
             /\ process_message clock n msg t
                = (error_entry clock n msg t, S t))
  /\ (forall s, m = Some (JString s) -> s <> [] -> JSON_parse s = None ->
                process_message clock n msg t
                = (error_entry clock n msg t, S t))
  /\ (truthy_opt m = false ->
      exists entry t',
        try_block clock n msg t = (Some entry, t')
        /\ process_message clock n msg t = (entry, t')
        /\ level entry = "INFO"
        /\ message entry = JString "No message content"
        /\ lambdaFunction entry = JString "unknown")
  /\ (forall v snsMessage entry t',
        m = Some v -> truthy v = true ->
        JSON_parse (ToString v) = Some snsMessage ->
        try_block clock n msg t = (Some entry, t') ->
        level entry = determineLogLevel snsMessage).
Proof.
  intros Hb Hp Hget.
  assert (Hne : eqb b "" = false).
  { destruct (eqb b "") eqn:E; [| reflexivity].
    apply eqb_eq in E. subst b.
    discriminate Hp. }
  assert (Hbody : JSON_parse (str_or_else (Body msg) "{}") = Some body).
  { rewrite Hb. simpl. rewrite Hne. exact Hp. }
  assert (Hthrow : forall v, m = Some v -> truthy v = true ->
             JSON_parse (ToString v) = None ->
             try_block clock n msg t = (None, t)
             /\ process_message clock n msg t
                = (error_entry clock n msg t, S t)).
  { intros v -> Hv Hs.
    assert (Htry : try_block clock n msg t = (None, t)).
    { rewrite try_block_steps, Hbody, Hget. simpl or_else. rewrite Hv, Hs.
      reflexivity. }
    split; [exact Htry |].
    unfold process_message. rewrite Htry. apply catch_block_entry. }
  split; [exact Hthrow |]. split; [| split].
  - intros s -> Hs Hnone.
    apply (Hthrow (JString s) eq_refl); [| exact Hnone].
    simpl. rewrite (eqb_empty_false s Hs). reflexivity.
  - intros Hfalsy.
    assert (Hdefault : or_else m (JString "{}") = JString "{}").
    { unfold or_else, truthy_opt in *. destruct m as [v |]; [| reflexivity].
      rewrite Hfalsy. reflexivity. }
    assert (Hmessage : or_else (or_opt None m) (JString "No message content")
                       = JString "No message content").
    { unfold or_opt. simpl truthy_opt. cbv iota.
      unfold or_else, truthy_opt in *. destruct m as [v |]; [| reflexivity].
      rewrite Hfalsy. reflexivity. }
    assert (Hnull : body <> JNull).
    { intros ->. discriminate Hget. }
    destruct (get_total body "Timestamp" Hnull) as [ts Hts].
    destruct (get_total body "MessageId" Hnull) as [bid Hbid].
    assert (Htry : exists entry t',
               try_block clock n msg t = (Some entry, t')
               /\ level entry = "INFO"
               /\ message entry = JString "No message content"
               /\ lambdaFunction entry = JString "unknown").
    { rewrite try_block_steps, Hbody, Hget, Hdefault.
      cbn [ToString]. rewrite JSON_parse_braces, Hts, Hbid.
      cbn [get lookup]. cbv iota beta zeta.
      eexists. eexists. split; [reflexivity |].
      cbn [level message lambdaFunction or_else].
      rewrite determineLogLevel_empty, Hmessage. repeat split. }
    destruct Htry as [entry [t' [Htry [H1 [H2 H3]]]]].
    exists entry, t'. unfold process_message. rewrite Htry.
    repeat split; assumption.
  - intros v sns entry t' -> Hv Hs Htry.
    rewrite try_block_steps, Hbody, Hget in Htry.
    simpl or_else in Htry. rewrite Hv, Hs in Htry.
    destruct (get body "Timestamp") as [ts |]; [| discriminate Htry].
    cbv zeta in Htry.
    destruct (get sns "message") as [sm |]; [| discriminate Htry].
    destruct (get sns "function") as [sf |]; [| discriminate Htry].
    destruct (get sns "requestId") as [sr |]; [| discriminate Htry].
    destruct (get body "MessageId") as [bid |]; [| discriminate Htry].
    injection Htry as <- _. reflexivity.
Qed.

(** The level of the scenario's payload. *)
Lemma scenario_level :
  determineLogLevel
    (JObject [(u "level", JString "warn"); (u "requestId", JString "r1")])
  = "WARN".
Proof.
  unfold determineLogLevel. cbn [truthy negb get].
  change (lookup "level" [(u "level", JString "warn");
                          (u "requestId", JString "r1")])
    with (Some (JString "warn")).
  cbv iota. change (truthy (JString "warn")) with true. cbv iota.
  rewrite (upper_ascii "warn") by reflexivity. reflexivity.
Qed.

Lemma scenario_try (body : str) (mid : option str) (t : nat) :
  body = scenario_body \/ body = scenario_body_with_id ->
  exists entry,
    try_block clock 0 {| MessageId := mid; Body := Some body |} t
    = (Some entry, t)
    /\ level entry = "WARN"
    /\ requestId entry = JString "r1"
    /\ timestamp entry = JString "2023-01-01T00:00:00Z".
Proof.
  intros [-> | ->]; rewrite try_block_steps;
    cbn [Body MessageId str_or_else].
  - change (JSON_parse
              (if negb (eqb scenario_body "") then scenario_body else "{}"))
      with (Some (JObject [(u "Message", JString ("{" ++ q "level" ++ ":" ++ q "warn" ++ ","
                                     ++ q "requestId" ++ ":" ++ q "r1" ++ "}"));
                           (u "Timestamp", JString "2023-01-01T00:00:00Z")])).
    cbv iota. simpl get. cbv iota. simpl or_else. simpl ToString.
    change (JSON_parse ("{" ++ q "level" ++ ":" ++ q "warn" ++ ","
                        ++ q "requestId" ++ ":" ++ q "r1" ++ "}"))
      with (Some (JObject [(u "level", JString "warn");
                           (u "requestId", JString "r1")])).
    cbv iota. simpl get. simpl truthy_opt. cbv iota zeta.
    eexists. split; [reflexivity |].
    split; [exact scenario_level | split; reflexivity].
  - change (JSON_parse
              (if negb (eqb scenario_body_with_id "")
               then scenario_body_with_id else "{}"))
      with (Some (JObject [(u "MessageId", JString "sns-9");
                           (u "Message", JString ("{" ++ q "level" ++ ":" ++ q "warn" ++ ","
                                     ++ q "requestId" ++ ":" ++ q "r1" ++ "}"));
                           (u "Timestamp", JString "2023-01-01T00:00:00Z")])).
    cbv iota. simpl get. cbv iota. simpl or_else. simpl ToString.
    change (JSON_parse ("{" ++ q "level" ++ ":" ++ q "warn" ++ ","
                        ++ q "requestId" ++ ":" ++ q "r1" ++ "}"))
      with (Some (JObject [(u "level", JString "warn");
                           (u "requestId", JString "r1")])).
    cbv iota. simpl get. simpl truthy_opt. cbv iota zeta.
    eexists. split; [reflexivity |].
    split; [exact scenario_level | split; reflexivity].
Qed.

(** C7: the scenario's message gives one entry, with level WARN, request
    id r1 and the envelope's timestamp; the clock is not read, and an
    identifier of the envelope does not replace the payload's request
    id. *)
Theorem scenario_entry (SQS_QUEUE_URL : str) (mid : option str) (t : nat) :
  SQS_QUEUE_URL <> [] ->
  (exists entry,
      GET clock SQS_QUEUE_URL
        (Resolved (Some [{| MessageId := mid; Body := Some scenario_body |}]))
        t
      = respond_logs [entry]
      /\ level entry = "WARN"
      /\ requestId entry = JString "r1"
      /\ timestamp entry = JString "2023-01-01T00:00:00Z")
  /\ snd (for_of clock [{| MessageId := mid; Body := Some scenario_body |}]
            [] t) = t
  /\ requestId
       (fst (process_message clock 0
               {| MessageId := mid; Body := Some scenario_body_with_id |} t))
     = JString "r1".
Proof.
  intros Hurl.
  destruct (scenario_try scenario_body mid t (or_introl eq_refl))
    as [entry [Htry [Hl [Hr Ht]]]].
  destruct (scenario_try scenario_body_with_id mid t (or_intror eq_refl))
    as [entry' [Htry' [_ [Hr' _]]]].
  assert (Hp : process_message clock 0
                 {| MessageId := mid; Body := Some scenario_body |} t
               = (entry, t)).
  { unfold process_message. rewrite Htry. reflexivity. }
  split; [| split].
  - exists (written entry). unfold GET, GET_try.
    rewrite (eqb_empty_false _ Hurl). simpl negb. cbv iota.
    rewrite (for_of_one 0) by reflexivity. rewrite Hp.
    split; [reflexivity |].
    unfold written. simpl. rewrite Hl, Hr, Ht. repeat split.
  - rewrite (for_of_one 0) by reflexivity. rewrite Hp. reflexivity.
  - unfold process_message. rewrite Htry'. exact Hr'.
Qed.

(** C6: when the receive call is rejected, the answer has status 500,
    [success] false, a message that names the queue failure, and no
    [logs]. *)
Theorem transport_failure_response
  (SQS_QUEUE_URL : str) (sqsError : thrown) (t : nat) :
  SQS_QUEUE_URL <> [] ->
  let r := GET clock SQS_QUEUE_URL (Rejected sqsError) t in
  status r = 500
  /\ ~ (200 <= status r < 300)
  /\ success (payload r) = false
  /\ logs (payload r) = None
  /\ failure (payload r) =
       Some ("Failed to fetch logs: SQS error: "
             ++ match sqsError with
                | ErrorObject m => m
                | OtherValue => "Unknown error"
                end).
Proof.
  intros Hurl r. subst r. unfold GET, GET_try.
  rewrite (eqb_empty_false _ Hurl). simpl.
  repeat split. lia.
Qed.

End LogRoute.

Lemma thrown_message_entry_witness :
  (let entry :=
     fst (@process_message ascii_case (fun _ => u "T") 0 accented_message 0) in
   level entry = u "ERROR"
   /\ message entry
      = JString ("Error parsing message: " ++ repeat_unit 233 100 ++ "...")
   /\ lambdaFunction entry = JString "parser"
   /\ requestId entry = JString "unknown"
   /\ forall logs, List.length logs = 0 ->
        fst (@for_of ascii_case (fun _ => u "T") [accented_message] logs 0)
        = (logs ++ [entry])%list)
  /\ message
       (fst (@process_message ascii_case (fun _ => u "T") 4 overflow_message 0))
     = JString ("Error parsing message: {" ++ q "Message" ++ ":1e400}...").
Proof.
  split.
  - exact (@thrown_message_entry ascii_case (fun _ => u "T") 0
             accented_message 0 eq_refl).
  - exact (proj1 (proj2 (@thrown_message_entry ascii_case (fun _ => u "T") 4
                           overflow_message 0 eq_refl))).
Defined.

Lemma absent_body_entry_witness :
  @process_message ascii_case (fun _ => u "2024-05-01T10:00:00.000Z") 3
    {| MessageId := None; Body := None |} 0
  = ({| id := "msg-3";
        timestamp := JString "2024-05-01T10:00:00.000Z";
        level := "INFO";
        message := JString "No message content";
        lambdaFunction := JString "unknown";
        requestId := JString "unknown" |}, 1).
Proof.
  exact (proj1 (proj2 (@absent_body_entry ascii_case
                         (fun _ => u "2024-05-01T10:00:00.000Z")
                         ascii_case_lower 3
                         {| MessageId := None; Body := None |} 0 eq_refl))).
Defined.

(** C1, as the specification has it, fails: the envelope of
    [plain_text_message] is valid JSON and its [Message] is a string that
    is not JSON, yet the [try] throws and the entry pushed is the one of
    the [catch], whatever the case conversions and the clock. *)
Lemma inner_parse_failure_not_graceful :
  (exists body,
      JSON_parse plain_text_body = Some body
      /\ get body "Message" = Some (Some (JString "disk is full"))
      /\ JSON_parse "disk is full" = None)
  /\ forall (case : CaseMapping) (clock : nat -> str) (t : nat),
       try_block clock 0 plain_text_message t = (None, t)
       /\ process_message clock 0 plain_text_message t =
            ({| id := "m-1";
                timestamp := JString (clock t);
                level := "ERROR";
                message :=
                  JString ("Error parsing message: " ++ plain_text_body
                           ++ "...");
                lambdaFunction := JString "parser";
                requestId := JString "m-1" |}, S t).
Proof.
  split.
  - exists (JObject [(u "Message", JString "disk is full")]).
    repeat split.
  - intros case clock t. split; reflexivity.
Qed.

Lemma inner_parse_failure_entry_witness :
  (@try_block ascii_case (fun _ => u "T") 0 plain_text_message 0 = (None, 0)
   /\ @process_message ascii_case (fun _ => u "T") 0 plain_text_message 0 =
        (error_entry (fun _ => u "T") 0 plain_text_message 0, 1)).
Proof.
  refine (proj1 (@inner_parse_failure_entry ascii_case (fun _ => u "T")
                   ascii_case_lower 0
                   plain_text_message 0 plain_text_body
                   (JObject [(u "Message", JString "disk is full")])
                   (Some (JString "disk is full")) eq_refl eq_refl eq_refl)
            (JString "disk is full") eq_refl eq_refl eq_refl).
Defined.

Lemma scenario_entry_witness :
  exists entry,
    @GET ascii_case (fun _ => u "now") "https://queue.example/logs"
      (Resolved (Some [{| MessageId := Some (u "m-1");
                          Body := Some scenario_body |}])) 0
    = respond_logs [entry]
    /\ level entry = u "WARN"
    /\ requestId entry = JString "r1"
    /\ timestamp entry = JString "2023-01-01T00:00:00Z".
Proof.
  refine (proj1 (@scenario_entry ascii_case (fun _ => u "now")
                   ascii_case_upper "https://queue.example/logs"
                   (Some (u "m-1")) 0 _)).
  discriminate.
Defined.

Lemma transport_failure_response_witness :
  failure (payload (@GET ascii_case (fun _ => u "now")
                      "https://queue.example/logs"
                      (Rejected (ErrorObject "connect ETIMEDOUT")) 0))
  = Some (u "Failed to fetch logs: SQS error: connect ETIMEDOUT").
Proof.
  refine (proj2 (proj2 (proj2 (proj2
            (@transport_failure_response ascii_case (fun _ => u "now")
               "https://queue.example/logs"
               (ErrorObject "connect ETIMEDOUT") 0 _))))).
  discriminate.
Defined.

(** ** The loop over a batch *)

Lemma on_wire_string (s : str) : on_wire (JString s) = JString s.
Proof. reflexivity. Qed.

Lemma written_error_entry (clock : nat -> str) (n : nat) (msg : Message)
  (t : nat) :
  written (error_entry clock n msg t) = error_entry clock n msg t.
Proof. reflexivity. Qed.

Section Batch.

Context {case : CaseMapping}.
Variable clock : nat -> str.

Lemma for_of_entries (messages : list Message) :
  forall (acc : list LogEntry) (t : nat),
    fst (for_of clock messages acc t)
    = (acc ++ entries_from clock (List.length acc) messages t)%list.
Proof.
  induction messages as [| msg rest IH]; intros acc t; simpl.
  - rewrite app_nil_r. reflexivity.
  - destruct (process_message clock (List.length acc) msg t) as [entry t'].
    rewrite IH, length_app, <- app_assoc. simpl.
    rewrite Nat.add_1_r. reflexivity.
Qed.

Lemma entries_from_length (messages : list Message) :
  forall (i t : nat),
    List.length (entries_from clock i messages t) = List.length messages.
Proof.
  induction messages as [| msg rest IH]; intros i t; simpl.
  - reflexivity.
  - destruct (process_message clock i msg t) as [entry t'].
    simpl. rewrite IH. reflexivity.
Qed.

(** Each entry is the one [process_message] makes for the message at the
    same position, at that position. *)
Lemma entries_from_nth (messages : list Message) :
  forall (i t k : nat) (msg : Message),
    nth_error messages k = Some msg ->
    exists t', nth_error (entries_from clock i messages t) k
               = Some (fst (process_message clock (i + k) msg t')).
Proof.
  induction messages as [| m rest IH]; intros i t k msg Hk.
  - destruct k; discriminate Hk.
  - simpl. destruct (process_message clock i m t) as [entry t'] eqn:Hp.
    destruct k as [| k].
    + injection Hk as ->. exists t. rewrite Nat.add_0_r, Hp. reflexivity.
    + simpl in Hk. destruct (IH (S i) t' k msg Hk) as [t'' H].
      exists t''. simpl. rewrite H.
      replace (i + S k) with (S i + k) by lia. reflexivity.
Qed.

(** The identifier of an entry is settled before anything can throw, and
    the [catch] computes it the same way. *)
Lemma try_block_id (n : nat) (msg : Message) (t t' : nat) (entry : LogEntry) :
  try_block clock n msg t = (Some entry, t') ->
  id entry = str_or_else (MessageId msg) ("msg-" ++ string_of_nat n).
Proof.
  rewrite try_block_steps. intros H.
  destruct (JSON_parse (str_or_else (Body msg) "{}")) as [body |];
    [| discriminate H].
  destruct (get body "Message") as [bm |]; [| discriminate H].
  destruct (JSON_parse (ToString (or_else bm (JString "{}")))) as [sns |];
    [| discriminate H].
  destruct (get body "Timestamp") as [ts |]; [| discriminate H].
  cbv zeta in H.
  destruct (get sns "message") as [sm |]; [| discriminate H].
  destruct (get sns "function") as [sf |]; [| discriminate H].
  destruct (get sns "requestId") as [sr |]; [| discriminate H].
  destruct (get body "MessageId") as [bid |]; [| discriminate H].
  injection H as <- _. reflexivity.
Qed.

Lemma process_message_id (n : nat) (msg : Message) (t : nat) :
  id (fst (process_message clock n msg t))
  = str_or_else (MessageId msg) ("msg-" ++ string_of_nat n).
Proof.
  unfold process_message.
  destruct (try_block clock n msg t) as [[entry |] t'] eqn:H.
  - exact (try_block_id n msg t t' entry H).
  - reflexivity.
Qed.

(** What [GET] answers to a batch: the entries of its messages, as they
    are written. *)
Lemma GET_entries (SQS_QUEUE_URL : str) (messages : list Message) (t : nat) :
  SQS_QUEUE_URL <> [] ->
  GET clock SQS_QUEUE_URL (Resolved (Some messages)) t
  = respond_logs (map written (entries_from clock 0 messages t)).
Proof.
  intros Hurl. unfold GET, GET_try.
  rewrite (eqb_empty_false _ Hurl). simpl negb. cbv iota.
  destruct messages as [| m rest].
  - reflexivity.
  - rewrite for_of_entries. reflexivity.
Qed.

(** C2: the answer to a batch holds as many entries as the batch has
    messages, and the entry at each position is the one made for the
    message at that position: the entry of the [try] when that does not
    throw, and else the entry of a parse failure, with level ERROR, the
    excerpt of the body and the function "parser". *)
Theorem batch_length (SQS_QUEUE_URL : str) (messages : list Message)
  (t : nat) :
  SQS_QUEUE_URL <> [] ->
  exists entries,
    GET clock SQS_QUEUE_URL (Resolved (Some messages)) t
    = respond_logs entries
    /\ List.length entries = List.length messages
    /\ forall k msg,
         nth_error messages k = Some msg ->
         exists t',
           nth_error entries k
           = Some (written (fst (process_message clock k msg t')))
           /\ match try_block clock k msg t' with
              | (Some entry, _) => nth_error entries k = Some (written entry)
              | (None, t'') =>
                  nth_error entries k = Some (error_entry clock k msg t'')
                  /\ exists c b, Body msg = Some (c :: b)
              end.
Proof.
  intros Hurl.
  exists (map written (entries_from clock 0 messages t)).
  split; [apply GET_entries; exact Hurl |]. split.
  - rewrite length_map. apply entries_from_length.
  - intros k msg Hk.
    destruct (entries_from_nth messages 0 t k msg Hk) as [t' H].
    exists t'. rewrite nth_error_map, H. simpl.
    split; [reflexivity |].
    unfold process_message.
    destruct (try_block clock k msg t') as [[entry |] t''] eqn:Htry.
    + reflexivity.
    + rewrite catch_block_entry. simpl. split; [reflexivity |].
      apply (throws_has_body clock k msg t'). rewrite Htry. reflexivity.
Qed.

End Batch.

Lemma batch_length_witness :
  exists entries,
    @GET ascii_case (fun _ => u "now") "https://queue.example/logs"
      (Resolved (Some [ {| MessageId := Some (u "a"); Body := Some (u "{}") |};
                        {| MessageId := None; Body := Some (u "not json") |};
                        {| MessageId := None; Body := None |} ])) 0
    = respond_logs entries
    /\ List.length entries = 3
    /\ exists e, nth_error entries 1 = Some e
                 /\ id e = u "msg-1"
                 /\ level e = u "ERROR"
                 /\ message e = JString "Error parsing message: not json..."
                 /\ lambdaFunction e = JString "parser".
Proof.
  destruct (@batch_length ascii_case (fun _ => u "now")
              "https://queue.example/logs"
              [ {| MessageId := Some (u "a"); Body := Some (u "{}") |};
                {| MessageId := None; Body := Some (u "not json") |};
                {| MessageId := None; Body := None |} ] 0)
    as [entries [H1 [H2 H3]]].
  - discriminate.
  - exists entries. split; [exact H1 |]. split; [exact H2 |].
    destruct (H3 1 {| MessageId := None; Body := Some (u "not json") |}
                eq_refl) as [t' [_ H]].
    rewrite (invalid_body_throws (fun _ => u "now") 1
               {| MessageId := None; Body := Some (u "not json") |}
               (u "not json") t' eq_refl) in H;
      [| discriminate | reflexivity].
    destruct H as [H _].
    eexists. split; [exact H |]. repeat split.
Defined.

(** ** Identifiers within a batch *)

Lemma u_inj (a b : string) : u a = u b -> a = b.
Proof.
  unfold u. intros H.
  assert (Hl : list_ascii_of_string a = list_ascii_of_string b).
  { revert H. generalize (list_ascii_of_string a) (list_ascii_of_string b).
    intros x. induction x as [| c x IH]; intros [| d y] H;
      try discriminate H; [reflexivity |].
    simpl in H. injection H as Hc H.
    apply (f_equal ascii_of_N) in Hc. rewrite !ascii_N_embedding in Hc.
    subst d. f_equal. apply IH. exact H. }
  apply (f_equal string_of_list_ascii) in Hl.
  rewrite !string_of_list_ascii_of_string in Hl. exact Hl.
Qed.

Lemma string_of_nat_inj (a b : nat) :
  string_of_nat a = string_of_nat b -> a = b.
Proof.
  unfold string_of_nat. intros H. apply u_inj in H.
  assert (Hu : Nat.to_uint a = Nat.to_uint b).
  { apply (f_equal NilEmpty.uint_of_string) in H.
    rewrite !NilEmpty.usu in H. injection H as H. exact H. }
  apply (f_equal Nat.of_uint) in Hu.
  rewrite !DecimalNat.Unsigned.of_to in Hu. exact Hu.
Qed.

Lemma placeholder_inj (a b : nat) : placeholder a = placeholder b -> a = b.
Proof.
  unfold placeholder. intros H. apply app_inv_head in H.
  apply string_of_nat_inj. exact H.
Qed.

Lemma entries_ids {case : CaseMapping} (clock : nat -> str)
  (messages : list Message) :
  forall (i t : nat),
    map id (entries_from clock i messages t) = ids_from i messages.
Proof.
  induction messages as [| msg rest IH]; intros i t; simpl.
  - reflexivity.
  - pose proof (process_message_id clock i msg t) as Hid.
    destruct (process_message clock i msg t) as [entry t'].
    simpl in *. rewrite Hid, IH. reflexivity.
Qed.

(** An identifier of the batch was assigned by the queue or is the
    placeholder of a message that has none. *)
Lemma ids_from_in (messages : list Message) :
  forall (i : nat) (x : str),
    In x (ids_from i messages) ->
    In x (queue_ids messages)
    \/ exists k msg, nth_error messages k = Some msg
                     /\ truthy_str (MessageId msg) = false
                     /\ x = placeholder (i + k).
Proof.
  induction messages as [| m rest IH]; intros i x Hin; simpl in *.
  - contradiction.
  - destruct Hin as [Hx | Hin].
    + unfold str_or_else in Hx.
      destruct (MessageId m) as [s |] eqn:Hm.
      * destruct (eqb s "") eqn:E; simpl in Hx.
        -- right. exists 0, m. rewrite Nat.add_0_r, Hm. simpl. rewrite E.
           auto.
        -- left. left. exact Hx.
      * right. exists 0, m. rewrite Nat.add_0_r, Hm. auto.
    + destruct (IH (S i) x Hin) as [Hq | [k [msg [Hk [Hf Hx]]]]].
      * left. apply in_or_app. right. exact Hq.
      * right. exists (S k), msg.
        replace (i + S k) with (S i + k) by lia. auto.
Qed.

Lemma queue_ids_cons (m : Message) (rest : list Message) :
  queue_ids (m :: rest)
  = ((match MessageId m with
      | Some i => if eqb i "" then [] else [i]
      | None => []
      end) ++ queue_ids rest)%list.
Proof. reflexivity. Qed.

Lemma ids_from_NoDup (messages : list Message) :
  forall (i : nat),
    NoDup (queue_ids messages) ->
    (forall s k msg, In s (queue_ids messages) ->
                     nth_error messages k = Some msg ->
                     truthy_str (MessageId msg) = false ->
                     s <> placeholder (i + k)) ->
    NoDup (ids_from i messages).
Proof.
  induction messages as [| m rest IH]; intros i Hnd Hfree.
  - constructor.
  - rewrite queue_ids_cons in Hnd.
    assert (Hrest : forall s k msg,
               In s (queue_ids rest) ->
               nth_error rest k = Some msg ->
               truthy_str (MessageId msg) = false ->
               s <> placeholder (S i + k)).
    { intros s k msg Hs Hk Hf.
      replace (S i + k) with (i + S k) by lia.
      apply (Hfree s (S k) msg); [| exact Hk | exact Hf].
      rewrite queue_ids_cons. apply in_or_app. right. exact Hs. }
    assert (Hplace : truthy_str (MessageId m) = false ->
                     NoDup (queue_ids rest) ->
                     NoDup (placeholder i :: ids_from (S i) rest)).
    { intros Hf Hnd'. constructor.
      - intros Hin.
        destruct (ids_from_in rest (S i) _ Hin)
          as [Hq | [k [msg [Hk [Hf' Hx]]]]].
        + apply (Hfree (placeholder i) 0 m); [| reflexivity | exact Hf |].
          * rewrite queue_ids_cons. apply in_or_app. right. exact Hq.
          * rewrite Nat.add_0_r. reflexivity.
        + apply placeholder_inj in Hx. lia.
      - apply IH; assumption. }
    simpl. unfold str_or_else.
    destruct (MessageId m) as [s0 |] eqn:Hm.
    + destruct (eqb s0 "") eqn:E; simpl negb; cbv iota.
      * apply Hplace; [simpl; rewrite E; reflexivity | exact Hnd].
      * simpl in Hnd. inversion Hnd as [| x l Hnotin Hnd']. subst x l.
        constructor.
        -- intros Hin.
           destruct (ids_from_in rest (S i) _ Hin)
             as [Hq | [k [msg [Hk [Hf' Hx]]]]].
           ++ exact (Hnotin Hq).
           ++ apply (Hfree s0 (S k) msg); [| exact Hk | exact Hf' |].
              ** rewrite queue_ids_cons, Hm, E. left. reflexivity.
              ** rewrite Hx. f_equal. lia.
        -- apply IH; assumption.
    + apply Hplace; [reflexivity | exact Hnd].
Qed.

Lemma map_id_written (l : list LogEntry) : map id (map written l) = map id l.
Proof. rewrite map_map. reflexivity. Qed.

(** C8, as the specification has it, fails: the entries of
    [redelivered_batch] carry the same identifier twice, in the loop and
    in the answer. *)
Lemma redelivered_ids_collide :
  queue_ids redelivered_batch = [u "5fea7756-0ea4"; u "5fea7756-0ea4"]
  /\ forall (case : CaseMapping),
       map id (fst (for_of (fun _ => u "now") redelivered_batch [] 0))
       = [u "5fea7756-0ea4"; u "5fea7756-0ea4"]
       /\ ~ NoDup (map id (fst (for_of (fun _ => u "now") redelivered_batch
                                  [] 0)))
       /\ exists entries,
            GET (fun _ => u "now") "https://queue.example/logs"
              (Resolved (Some redelivered_batch)) 0
            = respond_logs entries
            /\ ~ NoDup (map id entries).
Proof.
  split; [reflexivity |]. intros case.
  assert (E : map id (fst (for_of (fun _ => u "now") redelivered_batch [] 0))
              = [u "5fea7756-0ea4"; u "5fea7756-0ea4"]) by reflexivity.
  assert (Hdup : ~ NoDup [u "5fea7756-0ea4"; u "5fea7756-0ea4"]).
  { intros H. inversion H as [| x l Hnotin _]. apply Hnotin. left.
    reflexivity. }
  split; [exact E |]. split; [rewrite E; exact Hdup |].
  eexists. split; [reflexivity |].
  rewrite map_id_written, E. exact Hdup.
Qed.

(** C8, amended: the identifier of the entry at position [k] is the
    identifier the queue assigned to the message there when it is present
    and not empty, else the placeholder of [k]; the identifiers of a batch
    are pairwise distinct when the identifiers assigned by the queue are,
    and none of them is the placeholder of a message without one. *)
Theorem batch_ids {case : CaseMapping} (clock : nat -> str)
  (SQS_QUEUE_URL : str) (messages : list Message) (t : nat) :
  SQS_QUEUE_URL <> [] ->
  exists entries,
    GET clock SQS_QUEUE_URL (Resolved (Some messages)) t
    = respond_logs entries
    /\ (forall k msg,
          nth_error messages k = Some msg ->
          option_map id (nth_error entries k)
          = Some (match MessageId msg with
                  | Some i => if eqb i "" then "msg-" ++ string_of_nat k
                              else i
                  | None => "msg-" ++ string_of_nat k
                  end))
    /\ (NoDup (queue_ids messages) ->
        (forall s k msg, In s (queue_ids messages) ->
                         nth_error messages k = Some msg ->
                         truthy_str (MessageId msg) = false ->
                         s <> "msg-" ++ string_of_nat k) ->
        NoDup (map id entries)).
Proof.
  intros Hurl.
  exists (map written (entries_from clock 0 messages t)).
  split; [apply GET_entries; exact Hurl |]. split.
  - intros k msg Hk.
    destruct (entries_from_nth clock messages 0 t k msg Hk) as [t' H].
    rewrite nth_error_map, H. simpl. rewrite process_message_id.
    unfold str_or_else.
    destruct (MessageId msg) as [i |]; [| reflexivity].
    destruct (eqb i ""); reflexivity.
  - intros Hnd Hfree. rewrite map_id_written, entries_ids.
    apply ids_from_NoDup; assumption.
Qed.

Lemma batch_ids_witness :
  exists entries,
    @GET ascii_case (fun _ => u "now") "https://queue.example/logs"
      (Resolved (Some [ {| MessageId := Some (u "a"); Body := Some (u "{}") |};
                        {| MessageId := None; Body := Some (u "not json") |};
                        {| MessageId := Some (u ""); Body := None |} ])) 0
    = respond_logs entries
    /\ NoDup (map id entries).
Proof.
  destruct (@batch_ids ascii_case (fun _ => u "now")
              "https://queue.example/logs"
              [ {| MessageId := Some (u "a"); Body := Some (u "{}") |};
                {| MessageId := None; Body := Some (u "not json") |};
                {| MessageId := Some (u ""); Body := None |} ] 0)
    as [entries [H1 [_ H2]]].
  - discriminate.
  - exists entries. split; [exact H1 |]. apply H2.
    + simpl. constructor; [intros [] | constructor].
    + simpl. intros s k msg [<- | []] _ _. discriminate.
Defined.

(** ** Properties of the object route *)

(** C9, as stated, fails: the body [null] is JSON without a [fileId], and
    the answer to it is the 500 of the [catch], not the 400. *)
Lemma null_body_not_400 :
  JSON_parse "null" = Some JNull
  /\ has_truthy_fileId JNull = false
  /\ S3.DELETE "bucket" "null" true
     = {| S3.response :=
            {| S3.status := 500;
               S3.payload := {| S3.success := false;
                                S3.message := "Failed to delete file" |} |};
          S3.sent := [] |}
  /\ S3.status (S3.response (S3.DELETE "bucket" "null" true)) <> 400.
Proof.
  repeat split. discriminate.
Qed.

(** C9, amended: a request whose body is JSON other than [null] and has
    no truthy [fileId] is answered 400 with "File ID is required" and
    sends no command, so the store keeps its contents. *)
Theorem missing_fileId_rejected (BUCKET_NAME request_body : str)
  (parsed : json) (send_resolves : bool) :
  JSON_parse request_body = Some parsed ->
  parsed <> JNull ->
  has_truthy_fileId parsed = false ->
  let outcome := S3.DELETE BUCKET_NAME request_body send_resolves in
  S3.response outcome
  = {| S3.status := 400;
       S3.payload := {| S3.success := false;
                        S3.message := "File ID is required" |} |}
  /\ S3.sent outcome = []
  /\ forall (Store : Type) (execute : S3.DeleteObjectCommand -> Store -> Store)
            (contents : Store),
       S3.run Store execute (S3.sent outcome) contents = contents.
Proof.
  intros Hp Hnull Hf outcome. subst outcome. unfold S3.DELETE. rewrite Hp.
  destruct parsed as [| b | x | s | items | fields]; cbn [get];
    try (repeat split; fail).
  - contradiction Hnull. reflexivity.
  - simpl in Hf.
    destruct (lookup "fileId" fields) as [fileId |]; simpl in Hf.
    + rewrite Hf. repeat split.
    + repeat split.
Qed.

Lemma missing_fileId_rejected_witness :
  (S3.response (S3.DELETE "bucket" "{}" true) = S3.required
   /\ S3.sent (S3.DELETE "bucket" "{}" true) = [])
  /\ S3.response (S3.DELETE "bucket" ("{" ++ q "fileId" ++ ":1e-400}") true)
     = S3.required.
Proof.
  split.
  - destruct (missing_fileId_rejected "bucket" "{}" (JObject []) true
                eq_refl) as [Hr [Hs _]].
    + discriminate.
    + reflexivity.
    + split; [exact Hr | exact Hs].
  - refine (proj1 (missing_fileId_rejected "bucket"
                     ("{" ++ q "fileId" ++ ":1e-400}")
                     (JObject [(u "fileId", JNumber (Finite false 0 0))]) true
                     eq_refl _ eq_refl)).
    discriminate.
Defined.

(** ** Further properties of the log route *)

Lemma or_else_truthy (a : option json) (b : json) :
  truthy b = true -> truthy (or_else a b) = true.
Proof.
  intros Hb. unfold or_else. destruct a as [v |]; [| exact Hb].
  destruct (truthy v) eqn:Hv; [exact Hv | exact Hb].
Qed.

Lemma str_or_else_nonempty (a : option str) (b : str) :
  b <> [] -> str_or_else a b <> [].
Proof.
  intros Hb. unfold str_or_else. destruct a as [s |]; [| exact Hb].
  destruct (eqb s "") eqn:E; simpl; [exact Hb |].
  apply eqb_neq. exact E.
Qed.

(** What is read back from the text of a truthy value is truthy, or the
    [null] of an infinity. *)
Lemma on_wire_present (v : json) : truthy v = true -> present (on_wire v).
Proof.
  destruct v as [| b | [neg [| p] e | neg] | s | items | fields]; simpl;
    intros H; try discriminate H;
    solve [left; exact H | left; reflexivity | right; reflexivity].
Qed.

Section LogRouteFurther.

Context {case : CaseMapping}.
Variable clock : nat -> str.

(** The classifier answers one of the three levels. *)
Lemma determineLogLevel_range (payload : json) :
  valid_level (determineLogLevel payload).
Proof.
  unfold determineLogLevel.
  destruct (negb (truthy payload)); [left; reflexivity |].
  destruct (get payload "level") as [[l |] |];
    try (destruct (truthy l);
         [match goal with
          | |- context [if ?c then Some _ else None] =>
              destruct c eqn:Hc; [apply valid_level_test; exact Hc |]
          end |]);
    repeat match goal with
           | |- context [if ?c then _ else _] => destruct c
           end;
    unfold valid_level; auto.
Qed.

(** X1: the classifier answers INFO, WARN or ERROR on every value,
    whatever the case conversions. *)
Theorem determineLogLevel_valid (payload : json) :
  determineLogLevel payload = u "INFO" \/ determineLogLevel payload = u "WARN"
  \/ determineLogLevel payload = u "ERROR".
Proof. exact (determineLogLevel_range payload). Qed.

(** What the [try] has found when it does not throw. *)
Lemma try_block_success (n : nat) (msg : Message) (t t' : nat)
  (entry : LogEntry) :
  try_block clock n msg t = (Some entry, t') ->
  exists body body_Message snsMessage body_Timestamp
         sns_message sns_function sns_requestId body_MessageId,
    JSON_parse (str_or_else (Body msg) "{}") = Some body
    /\ get body "Message" = Some body_Message
    /\ JSON_parse (ToString (or_else body_Message (JString "{}")))
       = Some snsMessage
    /\ get body "Timestamp" = Some body_Timestamp
    /\ t' = (if truthy_opt body_Timestamp then t else S t)
    /\ get snsMessage "message" = Some sns_message
    /\ get snsMessage "function" = Some sns_function
    /\ get snsMessage "requestId" = Some sns_requestId
    /\ get body "MessageId" = Some body_MessageId
    /\ entry =
       {| id := str_or_else (MessageId msg) ("msg-" ++ string_of_nat n);
          timestamp := if truthy_opt body_Timestamp
                       then or_else body_Timestamp JNull
                       else JString (clock t);
          level := determineLogLevel snsMessage;
          message := or_else (or_opt sns_message body_Message)
                       (JString "No message content");
          lambdaFunction := or_else sns_function (JString "unknown");
          requestId := or_else (or_opt sns_requestId body_MessageId)
                         (JString "unknown") |}.
Proof.
  rewrite try_block_steps. intros H.
  destruct (JSON_parse (str_or_else (Body msg) "{}")) as [body |] eqn:H1;
    [| discriminate H].
  destruct (get body "Message") as [bm |] eqn:H2; [| discriminate H].
  destruct (JSON_parse (ToString (or_else bm (JString "{}"))))
    as [sns |] eqn:H3; [| discriminate H].
  destruct (get body "Timestamp") as [ts |] eqn:H4; [| discriminate H].
  cbv zeta in H.
  destruct (get sns "message") as [sm |] eqn:H6; [| discriminate H].
  destruct (get sns "function") as [sf |] eqn:H7; [| discriminate H].
  destruct (get sns "requestId") as [sr |] eqn:H8; [| discriminate H].
  destruct (get body "MessageId") as [bid |] eqn:H9; [| discriminate H].
  injection H as He Ht. subst entry t'.
  exists body, bm, sns, ts, sm, sf, sr, bid.
  repeat split; assumption.
Qed.

(** The clock is read at most once before the [try] throws. *)
Lemma try_block_throws_clock (n : nat) (msg : Message) (t t' : nat) :
  try_block clock n msg t = (None, t') -> t <= t' <= S t.
Proof.
  rewrite try_block_steps.
  destruct (JSON_parse (str_or_else (Body msg) "{}")) as [body |];
    [| intros H; injection H as <-; lia].
  destruct (get body "Message") as [bm |];
    [| intros H; injection H as <-; lia].
  destruct (JSON_parse (ToString (or_else bm (JString "{}"))))
    as [sns |]; [| intros H; injection H as <-; lia].
  destruct (get body "Timestamp") as [ts |];
    [| intros H; injection H as <-; lia].
  cbv zeta.
  destruct (truthy_opt ts);
    repeat match goal with
           | |- context [match ?x with _ => _ end] => destruct x
           end;
    intros H; try discriminate H; injection H as <-; lia.
Qed.

(** The [try] throws or not whatever the clock shows, and what it finds
    besides the timestamp is the same. *)
Lemma try_block_clock (clock' : nat -> str) (n : nat)
  (msg : Message) (t t' : nat) :
  match fst (try_block clock n msg t), fst (try_block clock' n msg t') with
  | Some e, Some e' =>
      id e = id e' /\ level e = level e' /\ message e = message e'
      /\ lambdaFunction e = lambdaFunction e' /\ requestId e = requestId e'
  | None, None => True
  | _, _ => False
  end.
Proof.
  rewrite !try_block_steps.
  destruct (JSON_parse (str_or_else (Body msg) "{}")) as [body |];
    [| exact I].
  destruct (get body "Message") as [bm |]; [| exact I].
  destruct (JSON_parse (ToString (or_else bm (JString "{}")))) as [sns |];
    [| exact I].
  destruct (get body "Timestamp") as [ts |]; [| exact I].
  cbv zeta.
  destruct (get sns "message") as [sm |]; [| exact I].
  destruct (get sns "function") as [sf |]; [| exact I].
  destruct (get sns "requestId") as [sr |]; [| exact I].
  destruct (get body "MessageId") as [bid |]; [| exact I].
  simpl. repeat split.
Qed.

(** X4: the entry of a message is isolated from the rest of the batch and
    from the time: its identifier, level, message, function and request id
    are fixed by the message and its position alone. *)
Theorem entry_isolated (clock' : nat -> str) (n : nat)
  (msg : Message) (t t' : nat) :
  let e := fst (process_message clock n msg t) in
  let e' := fst (process_message clock' n msg t') in
  id e = id e' /\ level e = level e' /\ message e = message e'
  /\ lambdaFunction e = lambdaFunction e' /\ requestId e = requestId e'.
Proof.
  pose proof (try_block_clock clock' n msg t t') as H.
  unfold process_message. cbv zeta.
  destruct (try_block clock n msg t) as [[e |] t1];
    destruct (try_block clock' n msg t') as [[e' |] t1'];
    simpl in H; try contradiction H.
  - exact H.
  - repeat split.
Qed.

(** X5: the timestamp of an entry made without a throw is the [Timestamp]
    of the envelope when that is truthy, and then the clock is not read;
    else it is the reading of the clock.  The entry of a throw always
    carries a reading of the clock. *)
Theorem timestamp_precedence (n : nat) (msg : Message) (t : nat) :
  (forall entry t' body,
      try_block clock n msg t = (Some entry, t') ->
      JSON_parse (str_or_else (Body msg) "{}") = Some body ->
      exists stamp,
        get body "Timestamp" = Some stamp
        /\ (truthy_opt stamp = true ->
            Some (timestamp entry) = stamp /\ t' = t)
        /\ (truthy_opt stamp = false ->
            timestamp entry = JString (clock t) /\ t' = S t))
  /\ (forall t',
        try_block clock n msg t = (None, t') ->
        t <= t' <= S t
        /\ process_message clock n msg t
           = (error_entry clock n msg t', S t')).
Proof.
  split.
  - intros entry t' body Htry Hbody.
    destruct (try_block_success n msg t t' entry Htry)
      as (body' & bm & sns & ts & sm & sf & sr & bid
          & Hb & _ & _ & Hts & Ht' & _ & _ & _ & _ & He).
    rewrite Hbody in Hb. injection Hb as <-.
    exists ts. split; [exact Hts |].
    rewrite He. cbn [timestamp].
    split; intros Htruthy; rewrite Htruthy in *.
    + split; [| exact Ht'].
      unfold or_else, truthy_opt in *. destruct ts as [v |];
        [| discriminate Htruthy].
      rewrite Htruthy. reflexivity.
    + split; [reflexivity | exact Ht'].
  - intros t' Htry. split.
    + exact (try_block_throws_clock n msg t t' Htry).
    + unfold process_message. rewrite Htry. apply catch_block_entry.
Qed.

Lemma process_message_filled (n : nat) (msg : Message) (t : nat) :
  filled (fst (process_message clock n msg t)).
Proof.
  unfold process_message.
  destruct (try_block clock n msg t) as [[e |] t'] eqn:Htry.
  - destruct (try_block_success n msg t t' e Htry)
      as (body & bm & sns & ts & sm & sf & sr & bid & _ & _ & _ & _ & _
          & _ & _ & _ & _ & He).
    rewrite He. unfold filled. cbn [fst level id message lambdaFunction
                                     requestId].
    repeat split.
    + apply determineLogLevel_range.
    + apply str_or_else_nonempty. discriminate.
    + apply or_else_truthy. reflexivity.
    + apply or_else_truthy. reflexivity.
    + apply or_else_truthy. reflexivity.
  - rewrite catch_block_entry. unfold filled, error_entry.
    cbn [fst level id message lambdaFunction requestId].
    repeat split.
    + right. right. reflexivity.
    + destruct (assigned msg) as [i |] eqn:Hi; [| discriminate].
      unfold assigned in Hi.
      destruct (MessageId msg) as [[| c j] |]; try discriminate Hi.
      injection Hi as <-. discriminate.
    + destruct (assigned msg) as [i |] eqn:Hi; [| reflexivity].
      unfold assigned in Hi.
      destruct (MessageId msg) as [[| c j] |]; try discriminate Hi.
      injection Hi as <-. reflexivity.
Qed.

Lemma entries_from_filled (messages : list Message) :
  forall i t, Forall filled (entries_from clock i messages t).
Proof.
  induction messages as [| msg rest IH]; intros i t; simpl.
  - constructor.
  - pose proof (process_message_filled i msg t) as H.
    destruct (process_message clock i msg t) as [e t'].
    constructor; [exact H | apply IH].
Qed.

Lemma written_well_formed (e : LogEntry) : filled e -> well_formed (written e).
Proof.
  intros (H1 & H2 & H3 & H4 & H5). unfold well_formed, written. simpl.
  repeat split; try assumption; apply on_wire_present; assumption.
Qed.

Lemma mockLogs_filled (t : nat) : Forall filled (mockLogs clock t).
Proof.
  unfold mockLogs, filled.
  repeat constructor; simpl; solve [discriminate | auto].
Qed.

(** What [GET] hands to [NextResponse.json], when it answers 200. *)
Lemma GET_made (SQS_QUEUE_URL : str) (reply : sent) (t : nat) :
  match logs (payload (GET clock SQS_QUEUE_URL reply t)) with
  | Some entries =>
      exists made, entries = map written made /\ Forall filled made
  | None => True
  end.
Proof.
  destruct (eqb SQS_QUEUE_URL "") eqn:Hurl.
  - unfold GET, GET_try. rewrite Hurl. simpl.
    exists (mockLogs clock t). split; [reflexivity | apply mockLogs_filled].
  - apply eqb_neq in Hurl.
    destruct reply as [[messages |] | e].
    + rewrite (GET_entries clock SQS_QUEUE_URL messages t Hurl). simpl.
      eexists. split; [reflexivity | apply entries_from_filled].
    + unfold GET, GET_try. rewrite (eqb_empty_false _ Hurl). simpl.
      exists []. split; [reflexivity | constructor].
    + unfold GET, GET_try. rewrite (eqb_empty_false _ Hurl). simpl.
      exact I.
Qed.

(** X3: every entry that [GET] answers with, from the queue or from the
    mock data, has one of the three levels, an identifier that is not
    empty, and a message, a function and a request id that are truthy or
    [null].  The handler makes them truthy; a [null] is what the answer
    carries for a number beyond the range of binary64, as the message of
    [overflow_payload_message] is. *)
Theorem GET_entries_well_formed (SQS_QUEUE_URL : str) (reply : sent)
  (t : nat) :
  match logs (payload (GET clock SQS_QUEUE_URL reply t)) with
  | Some entries =>
      Forall well_formed entries
      /\ exists made, entries = map written made /\ Forall filled made
  | None => True
  end
  /\ message (fst (process_message clock 0 overflow_payload_message t))
     = JNumber (Infinity false)
  /\ message
       (written (fst (process_message clock 0 overflow_payload_message t)))
     = JNull.
Proof.
  split; [| split; reflexivity].
  pose proof (GET_made SQS_QUEUE_URL reply t) as H.
  destruct (logs (payload (GET clock SQS_QUEUE_URL reply t)))
    as [entries |]; [| exact I].
  split; [| exact H].
  destruct H as [made [-> Hmade]].
  induction Hmade as [| e rest He Hrest IH]; simpl; constructor.
  - apply written_well_formed. exact He.
  - exact IH.
Qed.

(** The two shapes of an answer of [GET]. *)
Lemma GET_cases (SQS_QUEUE_URL : str) (reply : sent) (t : nat) :
  let r := GET clock SQS_QUEUE_URL reply t in
  (status r = 200 /\ success (payload r) = true
   /\ failure (payload r) = None
   /\ exists entries, logs (payload r) = Some entries)
  \/ (status r = 500 /\ success (payload r) = false
      /\ logs (payload r) = None
      /\ exists text, failure (payload r) = Some text).
Proof.
  cbv zeta. unfold GET, GET_try.
  destruct (negb (eqb SQS_QUEUE_URL "")); simpl.
  - destruct reply as [[[| m rest] |] | e]; simpl;
      solve [left; repeat split; eauto | right; repeat split; eauto].
  - left. repeat split; eauto.
Qed.

(** X2: [GET] answers in one of two ways only: status 200 with [success]
    true, a list of logs and no message, or status 500 with [success]
    false, a message and no logs; the second happens exactly when a queue
    is configured and the receive call is rejected.  Without a configured
    queue the answer does not depend on the queue at all. *)
Theorem GET_outcomes (SQS_QUEUE_URL : str) (reply : sent) (t : nat) :
  let r := GET clock SQS_QUEUE_URL reply t in
  ((status r = 200 /\ success (payload r) = true
    /\ failure (payload r) = None
    /\ exists entries, logs (payload r) = Some entries)
   \/ (status r = 500 /\ success (payload r) = false
       /\ logs (payload r) = None
       /\ exists text, failure (payload r) = Some text))
  /\ (status r = 500 <->
      SQS_QUEUE_URL <> [] /\ exists sqsError, reply = Rejected sqsError)
  /\ (SQS_QUEUE_URL = [] ->
      forall reply', GET clock SQS_QUEUE_URL reply' t = r).
Proof.
  cbv zeta. split; [exact (GET_cases SQS_QUEUE_URL reply t) |].
  unfold GET, GET_try.
  destruct (eqb SQS_QUEUE_URL "") eqn:Hurl; simpl.
  - apply eqb_eq in Hurl. subst SQS_QUEUE_URL.
    split; [| intros _ reply'; reflexivity].
    split; [discriminate | intros [H _]; contradiction H; reflexivity].
  - apply eqb_neq in Hurl.
    destruct reply as [[messages |] | e].
    + destruct messages as [| m rest]; simpl;
        (split; [| intros E; contradiction (Hurl E)]);
        (split; [discriminate | intros [_ [x Hx]]; discriminate Hx]).
    + simpl. split; [| intros E; contradiction (Hurl E)].
      split; [discriminate | intros [_ [x Hx]]; discriminate Hx].
    + simpl. split; [| intros E; contradiction (Hurl E)].
      split; [intros _; split; [exact Hurl | eauto] | reflexivity].
Qed.

(** X6: the entry of a message whose processing throws quotes the start
    of the body, 100 code units of it or the whole body when that is
    shorter, so its message has at most 126 code units. *)
Theorem error_excerpt_bounded (n : nat) (msg : Message) (t : nat) :
  fst (try_block clock n msg t) = None ->
  exists b p rest,
    Body msg = Some b
    /\ message (fst (process_message clock n msg t))
       = JString ("Error parsing message: " ++ p ++ "...")
    /\ b = p ++ rest
    /\ List.length p = Nat.min 100 (List.length b)
    /\ List.length ("Error parsing message: " ++ p ++ "...") <= 126.
Proof.
  intros H.
  destruct (throws_has_body clock n msg t H) as [c [b Hb]].
  exists (c :: b), (firstn 100 (c :: b)), (skipn 100 (c :: b)).
  split; [exact Hb |].
  split; [| split; [symmetry; apply firstn_skipn |]].
  - unfold process_message.
    destruct (try_block clock n msg t) as [[e |] t']; [discriminate H |].
    rewrite catch_block_entry. unfold error_entry. cbn [fst message].
    rewrite Hb. reflexivity.
  - split; [apply length_firstn |].
    rewrite !length_app, length_firstn.
    pose proof (Nat.le_min_l 100 (List.length (c :: b))) as Hk.
    remember (Nat.min 100 (List.length (c :: b))) as k.
    change (List.length (u "Error parsing message: ")) with 23.
    change (List.length (u "...")) with 3. lia.
Qed.

End LogRouteFurther.

Lemma GET_outcomes_witness :
  @GET ascii_case (fun _ => u "now") [] (Rejected OtherValue) 0
  = @GET ascii_case (fun _ => u "now") [] (Resolved None) 0.
Proof.
  exact (proj2 (proj2 (@GET_outcomes ascii_case (fun _ => u "now") []
                         (Resolved None) 0))
           eq_refl (Rejected OtherValue)).
Defined.

Lemma timestamp_precedence_witness :
  timestamp (fst (@process_message ascii_case (fun _ => u "now") 0
                    {| MessageId := None; Body := Some scenario_body |} 7))
  = JString "2023-01-01T00:00:00Z"
  /\ @process_message ascii_case (fun _ => u "now") 0
       {| MessageId := None;
          Body := Some ("{" ++ q "Timestamp" ++ ":1e-400}") |} 7
     = ({| id := "msg-0";
           timestamp := JString "now";
           level := "INFO";
           message := JString "No message content";
           lambdaFunction := JString "unknown";
           requestId := JString "unknown" |}, 8).
Proof.
  split.
  - destruct (proj1 (@timestamp_precedence ascii_case (fun _ => u "now") 0
                       {| MessageId := None; Body := Some scenario_body |} 7)
                _ 7 _ eq_refl eq_refl) as [stamp [Hget [Htrue _]]].
    injection Hget as <-.
    destruct (Htrue eq_refl) as [H _].
    exact (f_equal (fun o => match o with Some v => v | None => JNull end) H).
  - destruct (proj1 (@timestamp_precedence ascii_case (fun _ => u "now") 0
                       {| MessageId := None;
                          Body := Some ("{" ++ q "Timestamp" ++ ":1e-400}") |}
                       7)
                _ 8 _ eq_refl eq_refl) as [stamp [Hget [_ Hfalse]]].
    injection Hget as <-.
    destruct (Hfalse eq_refl) as [_ _]. reflexivity.
Defined.

Lemma error_excerpt_bounded_witness :
  exists b p rest,
    Body accented_message = Some b
    /\ message (fst (@process_message ascii_case (fun _ => u "T") 0
                       accented_message 0))
       = JString ("Error parsing message: " ++ p ++ "...")
    /\ b = p ++ rest
    /\ List.length p = Nat.min 100 (List.length b)
    /\ List.length ("Error parsing message: " ++ p ++ "...") <= 126.
Proof.
  exact (@error_excerpt_bounded ascii_case (fun _ => u "T") 0
           accented_message 0 eq_refl).
Defined.

(** ** Further properties of the object route *)

(** X7: whatever the request, [DELETE] sends at most one command, and only
    for the bucket of the configuration and the truthy [fileId] of the
    body; it answers 200, 400 or 500, with [success] exactly on 200, which
    needs a command that the store accepted; a 400 sends nothing. *)
Theorem DELETE_outcomes (BUCKET_NAME request_body : str)
  (send_resolves : bool) :
  let o := S3.DELETE BUCKET_NAME request_body send_resolves in
  let r := S3.response o in
  List.length (S3.sent o) <= 1
  /\ (S3.status r = 200 \/ S3.status r = 400 \/ S3.status r = 500)
  /\ (S3.success (S3.payload r) = true <-> S3.status r = 200)
  /\ (S3.status r = 200 -> send_resolves = true /\ List.length (S3.sent o) = 1)
  /\ (S3.status r = 400 -> S3.sent o = [])
  /\ (forall command, In command (S3.sent o) ->
        S3.Bucket command = BUCKET_NAME
        /\ truthy (S3.Key command) = true
        /\ exists parsed,
             JSON_parse request_body = Some parsed
             /\ get parsed "fileId" = Some (Some (S3.Key command))).
Proof.
  cbv zeta. unfold S3.DELETE.
  destruct (JSON_parse request_body) as [parsed |] eqn:Hp;
    [destruct (get parsed "fileId") as [[fileId |] |] eqn:Hg;
     [destruct (truthy fileId) eqn:Ht; [destruct send_resolves |] | |] |];
    simpl;
    (split; [lia |]);
    (split; [auto |]);
    (split; [split; [try discriminate; reflexivity
                    | try discriminate; reflexivity] |]);
    (split; [try discriminate; auto |]);
    (split; [try discriminate; auto |]);
    intros command Hin; try contradiction Hin;
    destruct Hin as [<- | []]; simpl; eauto.
Qed.

Lemma DELETE_outcomes_witness :
  S3.sent (S3.DELETE "bucket" "{}" true) = [].
Proof.
  exact (proj1 (proj2 (proj2 (proj2 (proj2
           (DELETE_outcomes "bucket" "{}" true))))) eq_refl).
Defined.

(** *** A string written and read back *)

Lemma parse_chars_cons (c : N) (r acc : str) :
  parse_chars (c :: r) acc
  = if (c =? quote_char)%N then Some (acc, r)
    else if (c =? backslash_char)%N then
      match r with
      | e :: r' =>
          if (e =? "u"%char)%N then
            match r' with
            | h1 :: h2 :: h3 :: h4 :: r'' =>
                match hex_val h1, hex_val h2, hex_val h3, hex_val h4 with
                | Some a, Some b, Some c', Some d =>
                    parse_chars r''
                      (acc ++ [(((a * 16 + b) * 16 + c') * 16 + d)%N])
                | _, _, _, _ => None
                end
            | _ => None
            end
          else
            match escape_char e with
            | Some t => parse_chars r' (acc ++ [t])
            | None => None
            end
      | [] => None
      end
    else if (c <? 32)%N then None
    else parse_chars r (acc ++ [c]).
Proof. reflexivity. Qed.

Lemma hex_val_digit (d : N) : (d < 16)%N -> hex_val (hex_digit d) = Some d.
Proof.
  intros H.
  assert (Hd : In d [0; 1; 2; 3; 4; 5; 6; 7; 8; 9; 10; 11; 12; 13; 14; 15]%N).
  { destruct d as [| [[[[p | p |] | [p | p |] |] | [[p | p |] | [p | p |] |] |]
                     | [[[p | p |] | [p | p |] |] | [[p | p |] | [p | p |] |] |]
                     |]]; simpl; try lia; tauto. }
  simpl in Hd.
  repeat (destruct Hd as [<- | Hd]; [reflexivity |]). contradiction Hd.
Qed.

Lemma hex_digits_value (c : N) :
  (c < 65536)%N ->
  (((c / 4096 mod 16 * 16 + c / 256 mod 16) * 16 + c / 16 mod 16) * 16
   + c mod 16 = c)%N.
Proof.
  intros H.
  pose proof (N.div_mod c 16 ltac:(lia)) as H1.
  pose proof (N.div_mod (c / 16) 16 ltac:(lia)) as H2.
  pose proof (N.div_mod (c / 256) 16 ltac:(lia)) as H3.
  assert (E2 : (c / 16 / 16 = c / 256)%N)
    by (rewrite N.Div0.div_div; reflexivity).
  assert (E3 : (c / 256 / 16 = c / 4096)%N)
    by (rewrite N.Div0.div_div; reflexivity).
  rewrite E2 in H2. rewrite E3 in H3.
  assert (H4 : (c / 4096 < 16)%N)
    by (apply N.Div0.div_lt_upper_bound; lia).
  rewrite (N.mod_small (c / 4096) 16 H4). lia.
Qed.

Lemma parse_chars_escape (c : N) (r acc : str) :
  (c < 65536)%N ->
  parse_chars (unicode_escape c ++ r) acc = parse_chars r (acc ++ [c]).
Proof.
  intros H. unfold unicode_escape.
  change ((bs ++ "u" ++ [hex_digit (c / 4096 mod 16);
                         hex_digit (c / 256 mod 16);
                         hex_digit (c / 16 mod 16); hex_digit (c mod 16)])
          ++ r)
    with (backslash_char :: N_of_ascii "u"
          :: hex_digit (c / 4096 mod 16) :: hex_digit (c / 256 mod 16)
          :: hex_digit (c / 16 mod 16) :: hex_digit (c mod 16) :: r).
  rewrite parse_chars_cons.
  change (backslash_char =? quote_char)%N with false.
  change (backslash_char =? backslash_char)%N with true.
  change (N_of_ascii "u" =? N_of_ascii "u")%N with true.
  cbv iota.
  rewrite !hex_val_digit by (apply N.mod_lt; lia).
  rewrite (hex_digits_value c H). reflexivity.
Qed.

(** A code unit between quotes is read back as it was written. *)
Lemma parse_chars_quote_one (c : N) (r acc : str) :
  parse_chars (quote_one c ++ r) acc = parse_chars r (acc ++ [c]).
Proof.
  unfold quote_one.
  destruct (N.eqb_spec c quote_char) as [-> | H1]; [reflexivity |].
  destruct (N.eqb_spec c backslash_char) as [-> | H2]; [reflexivity |].
  destruct (N.eqb_spec c 8) as [-> | H3]; [reflexivity |].
  destruct (N.eqb_spec c 9) as [-> | H4]; [reflexivity |].
  destruct (N.eqb_spec c 10) as [-> | H5]; [reflexivity |].
  destruct (N.eqb_spec c 12) as [-> | H6]; [reflexivity |].
  destruct (N.eqb_spec c 13) as [-> | H7]; [reflexivity |].
  destruct ((c <? 32)%N || is_high c || is_low c) eqn:E.
  - apply parse_chars_escape.
    unfold is_high, is_low, in_range in E.
    destruct (N.ltb_spec c 32); [lia |].
    destruct (N.leb_spec c 56319); [lia |].
    destruct (N.leb_spec c 57343); [lia |].
    rewrite !andb_false_r in E. discriminate E.
  - simpl app. rewrite parse_chars_cons.
    apply N.eqb_neq in H1. apply N.eqb_neq in H2. rewrite H1, H2.
    apply orb_false_iff in E. destruct E as [E _].
    apply orb_false_iff in E. destruct E as [E _]. rewrite E. reflexivity.
Qed.

Lemma parse_chars_high (c : N) (r acc : str) :
  is_high c || is_low c = true ->
  parse_chars (c :: r) acc = parse_chars r (acc ++ [c]).
Proof.
  intros H. rewrite parse_chars_cons.
  assert (Hc : (55296 <= c)%N).
  { unfold is_high, is_low, in_range in H.
    destruct (N.leb_spec 55296 c); [assumption |].
    destruct (N.leb_spec 56320 c); [lia |]. discriminate H. }
  unfold quote_char, backslash_char.
  destruct (N.eqb_spec c 34); [lia |].
  destruct (N.eqb_spec c 92); [lia |].
  destruct (N.ltb_spec c 32); [lia |]. reflexivity.
Qed.

Lemma parse_chars_quote_body_bounded (n : nat) :
  forall (s r acc : str),
    List.length s <= n ->
    parse_chars (quote_body s ++ dq ++ r) acc = Some (acc ++ s, r).
Proof.
  induction n as [| n IH]; intros s r acc Hlen.
  - destruct s; [| simpl in Hlen; lia].
    simpl. rewrite app_nil_r. reflexivity.
  - destruct s as [| c [| c' s]].
    + simpl. rewrite app_nil_r. reflexivity.
    + change (quote_body [c]) with (quote_one c).
      rewrite parse_chars_quote_one. reflexivity.
    + rewrite quote_body_cons.
      destruct (is_high c && is_low c') eqn:Hpair.
      * apply andb_true_iff in Hpair. destruct Hpair as [Hh Hl].
        change ((c :: c' :: quote_body s) ++ dq ++ r)
          with (c :: c' :: (quote_body s ++ dq ++ r)).
        rewrite parse_chars_high by (rewrite Hh; reflexivity).
        rewrite parse_chars_high by (rewrite Hl; apply orb_true_r).
        rewrite IH by (simpl in Hlen; lia).
        rewrite <- !app_assoc. reflexivity.
      * rewrite <- app_assoc, parse_chars_quote_one.
        rewrite IH by (simpl in *; lia).
        rewrite <- app_assoc. reflexivity.
Qed.

Lemma parse_chars_quote_body (s r acc : str) :
  parse_chars (quote_body s ++ dq ++ r) acc = Some (acc ++ s, r).
Proof. apply (parse_chars_quote_body_bounded (List.length s)), le_n. Qed.

(** What is read back from the text written for a string, for an
    infinity and for the negative zero. *)
Lemma read_back_string (s : str) :
  JSON_parse (JSON_stringify (JString s)) = Some (on_wire (JString s)).
Proof.
  unfold JSON_parse. cbn [JSON_stringify on_wire]. unfold quote.
  change (dq ++ quote_body s ++ dq) with (quote_char :: (quote_body s ++ dq)).
  cbn [List.length].
  change (parse_value (S (S (List.length (quote_body s ++ dq))))
            (quote_char :: (quote_body s ++ dq)))
    with (match parse_chars (quote_body s ++ dq) [] with
          | Some (t, r1) => Some (JString t, r1)
          | None => None
          end).
  rewrite <- (app_nil_r dq) at 1.
  rewrite parse_chars_quote_body. reflexivity.
Qed.

Lemma read_back_number :
  (forall neg,
      JSON_parse (JSON_stringify (JNumber (Infinity neg)))
      = Some (on_wire (JNumber (Infinity neg))))
  /\ JSON_parse (JSON_stringify (JNumber (Finite true 0 0)))
     = Some (on_wire (JNumber (Finite true 0 0))).
Proof. split; [intros neg |]; reflexivity. Qed.

Lemma delete_body_text (fileId : str) :
  delete_body fileId
  = N_of_ascii "{" :: quote_char
      :: (quote_body "fileId" ++ dq
          ++ N_of_ascii ":" :: quote_char :: (quote_body fileId ++ dq ++ "}")).
Proof.
  unfold delete_body. cbn [JSON_stringify map join fst snd].
  unfold quote. rewrite <- !app_assoc. reflexivity.
Qed.

Lemma parse_value_object (f : nat) (r : str) :
  parse_value (S f) (N_of_ascii "{" :: quote_char :: r)
  = parse_members f (quote_char :: r) [].
Proof. reflexivity. Qed.

Lemma parse_value_string (f : nat) (r : str) :
  parse_value (S f) (quote_char :: r)
  = match parse_chars r [] with
    | Some (t, r1) => Some (JString t, r1)
    | None => None
    end.
Proof. reflexivity. Qed.

Lemma parse_members_key (f : nat) (r : str) (acc : list (str * json)) :
  parse_members (S f) (quote_char :: r) acc
  = match parse_chars r [] with
    | Some (k, r1) =>
        match skip_ws r1 with
        | c2 :: r2 =>
            if (c2 =? ":"%char)%N then
              match parse_value f r2 with
              | Some (v, r3) =>
                  match skip_ws r3 with
                  | c4 :: r4 =>
                      if (c4 =? ","%char)%N then
                        parse_members f r4 ((k, v) :: acc)
                      else if (c4 =? "}"%char)%N then
                        Some (make_object (rev ((k, v) :: acc)), r4)
                      else None
                  | [] => None
                  end
              | None => None
              end
            else None
        | [] => None
        end
    | None => None
    end.
Proof. reflexivity. Qed.

(** The round trip of that body through [request.json()]. *)
Lemma delete_body_parsed (fileId : str) :
  JSON_parse (delete_body fileId)
  = Some (JObject [(u "fileId", JString fileId)]).
Proof.
  rewrite delete_body_text. unfold JSON_parse.
  remember (quote_body "fileId" ++ dq
            ++ N_of_ascii ":" :: quote_char :: (quote_body fileId ++ dq ++ "}"))
    as rest eqn:Hrest.
  assert (Hfuel : exists f,
             List.length (N_of_ascii "{" :: quote_char :: rest) = S (S f)).
  { subst rest. simpl. eauto. }
  destruct Hfuel as [f ->].
  rewrite parse_value_object, parse_members_key. subst rest.
  rewrite parse_chars_quote_body.
  change (skip_ws (N_of_ascii ":" :: quote_char
                   :: (quote_body fileId ++ dq ++ "}")))
    with (N_of_ascii ":" :: quote_char :: (quote_body fileId ++ dq ++ "}")).
  cbv iota beta. change (N_of_ascii ":" =? N_of_ascii ":")%N with true.
  cbv iota.
  rewrite parse_value_string, parse_chars_quote_body.
  reflexivity.
Qed.

(** ** Properties of the uploads *)

Section PostProperties.

Variable BUCKET_NAME : str.
Variable Date_now : nat -> N.
Variable accepts : nat -> Upload.PutObjectCommand -> bool.

Lemma timed_cons (t : nat) (file : Upload.File) (rest : list Upload.File) :
  timed t (file :: rest) = (t, file) :: timed (S t) rest.
Proof. reflexivity. Qed.

(** The loop over files that the store accepts one after the other. *)
Lemma upload_for_of_accepted (files : list Upload.File) :
  forall results commands t,
    (forall k file,
        nth_error files k = Some file ->
        accepts (List.length commands + k)
          (command_of BUCKET_NAME Date_now (t + k, file)) = true) ->
    Upload.for_of BUCKET_NAME Date_now accepts
      (map Upload.FileEntry files) results commands t
    = (Some (results ++ map (result_of Date_now) (timed t files))%list,
       (commands ++ map (command_of BUCKET_NAME Date_now) (timed t files))%list).
Proof.
  induction files as [| file rest IH]; intros results commands t Hacc.
  - simpl. rewrite !app_nil_r. reflexivity.
  - simpl map at 1. simpl Upload.for_of.
    pose proof (Hacc 0 file eq_refl) as H0.
    rewrite !Nat.add_0_r in H0. unfold command_of in H0. simpl in H0.
    rewrite H0. rewrite IH.
    + rewrite timed_cons. simpl map.
      rewrite <- !app_assoc. reflexivity.
    + intros k f Hk. pose proof (Hacc (S k) f Hk) as H.
      rewrite length_app. cbn [List.length].
      replace (List.length commands + 1 + k)
        with (List.length commands + S k) by lia.
      replace (S t + k) with (t + S k) by lia. exact H.
Qed.

(** The loop up to the first file that the store rejects. *)
Lemma upload_for_of_rejected (before : list Upload.File) :
  forall (file : Upload.File) (after : list Upload.FormDataEntryValue)
         results commands t,
    (forall k f,
        nth_error before k = Some f ->
        accepts (List.length commands + k)
          (command_of BUCKET_NAME Date_now (t + k, f)) = true) ->
    accepts (List.length commands + List.length before)
      (command_of BUCKET_NAME Date_now (t + List.length before, file))
    = false ->
    Upload.for_of BUCKET_NAME Date_now accepts
      (map Upload.FileEntry before ++ Upload.FileEntry file :: after)
      results commands t
    = (None,
       (commands
        ++ map (command_of BUCKET_NAME Date_now) (timed t before)
        ++ [command_of BUCKET_NAME Date_now (t + List.length before, file)])
       %list).
Proof.
  induction before as [| b rest IH];
    intros file after results commands t Hacc Hrej.
  - simpl in *. rewrite !Nat.add_0_r in Hrej.
    unfold command_of in Hrej. simpl in Hrej. rewrite Hrej.
    rewrite Nat.add_0_r. reflexivity.
  - simpl map at 1. simpl app at 1. simpl Upload.for_of.
    pose proof (Hacc 0 b eq_refl) as H0.
    rewrite !Nat.add_0_r in H0. unfold command_of in H0. simpl in H0.
    rewrite H0. rewrite IH.
    + rewrite timed_cons. simpl map. simpl List.length.
      rewrite <- !app_assoc. simpl. rewrite Nat.add_succ_r. reflexivity.
    + intros k f Hk. pose proof (Hacc (S k) f Hk) as H.
      rewrite length_app. cbn [List.length].
      replace (List.length commands + 1 + k)
        with (List.length commands + S k) by lia.
      replace (S t + k) with (t + S k) by lia. exact H.
    + rewrite length_app. cbn [List.length] in *.
      replace (List.length commands + 1 + List.length rest)
        with (List.length commands + S (List.length rest)) by lia.
      replace (S t + List.length rest) with (t + S (List.length rest)) by lia.
      exact Hrej.
Qed.

(** The loop up to a field of the form that is not a file. *)
Lemma upload_for_of_text (before : list Upload.File) :
  forall (text : str) (after : list Upload.FormDataEntryValue)
         results commands t,
    (forall k f,
        nth_error before k = Some f ->
        accepts (List.length commands + k)
          (command_of BUCKET_NAME Date_now (t + k, f)) = true) ->
    Upload.for_of BUCKET_NAME Date_now accepts
      (map Upload.FileEntry before ++ Upload.TextEntry text :: after)
      results commands t
    = (None,
       (commands ++ map (command_of BUCKET_NAME Date_now) (timed t before))
       %list).
Proof.
  induction before as [| b rest IH];
    intros text after results commands t Hacc.
  - simpl. rewrite app_nil_r. reflexivity.
  - simpl map at 1. simpl app at 1. simpl Upload.for_of.
    pose proof (Hacc 0 b eq_refl) as H0.
    rewrite !Nat.add_0_r in H0. unfold command_of in H0. simpl in H0.
    rewrite H0. rewrite IH.
    + rewrite timed_cons. simpl map. rewrite <- !app_assoc. reflexivity.
    + intros k f Hk. pose proof (Hacc (S k) f Hk) as H.
      rewrite length_app. cbn [List.length].
      replace (List.length commands + 1 + k)
        with (List.length commands + S k) by lia.
      replace (S t + k) with (t + S k) by lia. exact H.
Qed.

End PostProperties.

Lemma timed_length (t : nat) (files : list Upload.File) :
  List.length (timed t files) = List.length files.
Proof.
  unfold timed. rewrite length_combine, length_seq. apply Nat.min_id.
Qed.

(** The answer of [POST] to files that the store accepts. *)
Lemma POST_accepted (BUCKET_NAME : str) (Date_now : nat -> N)
  (accepts : nat -> Upload.PutObjectCommand -> bool)
  (files : list Upload.File) (t : nat) :
  (forall k command, accepts k command = true) ->
  Upload.POST BUCKET_NAME Date_now accepts
    (Some (map Upload.FileEntry files)) t
  = {| Upload.response :=
         {| Upload.status := 200;
            Upload.payload :=
              {| Upload.success := true;
                 Upload.message :=
                   "Successfully uploaded "
                   ++ string_of_nat (List.length files) ++ " file(s)";
                 Upload.files :=
                   Some (map (result_of Date_now) (timed t files)) |} |};
       Upload.sent := map (command_of BUCKET_NAME Date_now) (timed t files) |}.
Proof.
  intros Hacc. unfold Upload.POST.
  rewrite (upload_for_of_accepted BUCKET_NAME Date_now accepts files [] [] t)
    by (intros; apply Hacc).
  simpl. rewrite length_map. reflexivity.
Qed.

(** X8: when the form holds files only and the store accepts every
    command, [POST] answers 200 with the number of files in its message
    and one result per file, in order, under the key made of the prefix
    [uploads/], the time of the clock and the name; the commands sent
    carry those keys, the contents and the media types, in the same
    order. *)
Theorem POST_all_uploaded (BUCKET_NAME : str) (Date_now : nat -> N)
  (accepts : nat -> Upload.PutObjectCommand -> bool)
  (files : list Upload.File) (t : nat) :
  (forall k command, accepts k command = true) ->
  Upload.POST BUCKET_NAME Date_now accepts
    (Some (map Upload.FileEntry files)) t
  = {| Upload.response :=
         {| Upload.status := 200;
            Upload.payload :=
              {| Upload.success := true;
                 Upload.message :=
                   "Successfully uploaded "
                   ++ string_of_nat (List.length files) ++ " file(s)";
                 Upload.files :=
                   Some (map (result_of Date_now) (timed t files)) |} |};
       Upload.sent := map (command_of BUCKET_NAME Date_now) (timed t files) |}
  /\ List.length (map (result_of Date_now) (timed t files))
     = List.length files.
Proof.
  intros Hacc. split.
  - exact (POST_accepted BUCKET_NAME Date_now accepts files t Hacc).
  - rewrite length_map. apply timed_length.
Qed.

Lemma POST_all_uploaded_witness :
  Upload.POST "bucket" (fun t => (1700000000000 + N.of_nat t)%N)
    (fun _ _ => true)
    (Some (map Upload.FileEntry
             [ {| Upload.name := "a.txt"; Upload.type := "text/plain";
                  Upload.contents := u "hello" |};
               {| Upload.name := "b.png"; Upload.type := "image/png";
                  Upload.contents := [] |} ])) 0
  = {| Upload.response :=
         {| Upload.status := 200;
            Upload.payload :=
              {| Upload.success := true;
                 Upload.message := "Successfully uploaded 2 file(s)";
                 Upload.files :=
                   Some [ {| Upload.fileName := "a.txt";
                             Upload.key := "uploads/1700000000000-a.txt" |};
                          {| Upload.fileName := "b.png";
                             Upload.key := "uploads/1700000000001-b.png" |} ]
              |} |};
       Upload.sent :=
         [ {| Upload.Bucket := "bucket";
              Upload.Key := "uploads/1700000000000-a.txt";
              Upload.Body := u "hello";
              Upload.ContentType := "text/plain" |};
           {| Upload.Bucket := "bucket";
              Upload.Key := "uploads/1700000000001-b.png";
              Upload.Body := [];
              Upload.ContentType := "image/png" |} ] |}.
Proof.
  exact (proj1 (POST_all_uploaded "bucket"
                  (fun t => (1700000000000 + N.of_nat t)%N) (fun _ _ => true)
                  [ {| Upload.name := "a.txt"; Upload.type := "text/plain";
                       Upload.contents := u "hello" |};
                    {| Upload.name := "b.png"; Upload.type := "image/png";
                       Upload.contents := [] |} ] 0
                  (fun _ _ => eq_refl))).
Defined.

(** X9: an upload is not undone by a later failure.  When the store
    rejects the command of a file after accepting those of the files
    before it, or when the form holds a text where a file is expected,
    [POST] answers 500 without a list of files, and the commands of the
    files before have been sent all the same: the store holds them. *)
Theorem POST_partial (BUCKET_NAME : str) (Date_now : nat -> N)
  (accepts : nat -> Upload.PutObjectCommand -> bool)
  (before : list Upload.File) (after : list Upload.FormDataEntryValue)
  (t : nat) :
  (forall k f, nth_error before k = Some f ->
               accepts k (command_of BUCKET_NAME Date_now (t + k, f)) = true) ->
  (forall file,
      accepts (List.length before)
        (command_of BUCKET_NAME Date_now (t + List.length before, file))
      = false ->
      Upload.POST BUCKET_NAME Date_now accepts
        (Some (map Upload.FileEntry before ++ Upload.FileEntry file :: after)%list)
        t
      = {| Upload.response := Upload.failed;
           Upload.sent :=
             (map (command_of BUCKET_NAME Date_now) (timed t before)
              ++ [command_of BUCKET_NAME Date_now
                    (t + List.length before, file)])%list |})
  /\ (forall text,
        Upload.POST BUCKET_NAME Date_now accepts
          (Some (map Upload.FileEntry before ++ Upload.TextEntry text :: after)
                %list)
          t
        = {| Upload.response := Upload.failed;
             Upload.sent :=
               map (command_of BUCKET_NAME Date_now) (timed t before) |})
  /\ Upload.files (Upload.payload Upload.failed) = None
  /\ List.length (map (command_of BUCKET_NAME Date_now) (timed t before))
     = List.length before.
Proof.
  intros Hacc. repeat split.
  - intros file Hrej. unfold Upload.POST.
    rewrite (upload_for_of_rejected BUCKET_NAME Date_now accepts before
               file after [] [] t Hacc Hrej).
    reflexivity.
  - intros text. unfold Upload.POST.
    rewrite (upload_for_of_text BUCKET_NAME Date_now accepts before
               text after [] [] t Hacc).
    reflexivity.
  - rewrite length_map. apply timed_length.
Qed.

Lemma POST_partial_witness :
  Upload.POST "bucket" (fun t => N.of_nat t) (fun k _ => Nat.eqb k 0)
    (Some (map Upload.FileEntry
             [ {| Upload.name := "a"; Upload.type := "t";
                  Upload.contents := u "x" |} ]
           ++ Upload.FileEntry {| Upload.name := "b"; Upload.type := "t";
                                  Upload.contents := u "y" |} :: [])%list) 0
  = {| Upload.response := Upload.failed;
       Upload.sent :=
         [ {| Upload.Bucket := "bucket"; Upload.Key := "uploads/0-a";
              Upload.Body := u "x"; Upload.ContentType := "t" |};
           {| Upload.Bucket := "bucket"; Upload.Key := "uploads/1-b";
              Upload.Body := u "y"; Upload.ContentType := "t" |} ] |}.
Proof.
  refine (proj1 (POST_partial "bucket" (fun t => N.of_nat t)
                   (fun k _ => Nat.eqb k 0)
                   [ {| Upload.name := "a"; Upload.type := "t";
                        Upload.contents := u "x" |} ] [] 0 _)
            {| Upload.name := "b"; Upload.type := "t";
               Upload.contents := u "y" |} eq_refl).
  intros k f Hk. destruct k as [| [| k]]; simpl in Hk;
    [reflexivity | discriminate Hk | discriminate Hk].
Defined.

(** *** The keys of uploads *)

Lemma string_of_uint_digits (d : Decimal.uint) :
  all_digits (u (NilEmpty.string_of_uint d)) = true.
Proof. induction d; simpl; auto. Qed.

Lemma string_of_N_digits (n : N) : all_digits (string_of_N n) = true.
Proof.
  destruct n as [| p]; [reflexivity |]. apply string_of_uint_digits.
Qed.

Lemma string_of_N_inj (a b : N) : string_of_N a = string_of_N b -> a = b.
Proof.
  assert (Hpos : forall p, string_of_N (Npos p) <> u "0").
  { intros p H. unfold string_of_N, string_of_pos in H. apply u_inj in H.
    apply (f_equal NilEmpty.uint_of_string) in H.
    rewrite NilEmpty.usu in H. simpl in H. injection H as H.
    apply (f_equal Pos.of_uint) in H.
    rewrite DecimalPos.Unsigned.of_to in H. discriminate H. }
  destruct a as [| p], b as [| q]; intros H.
  - reflexivity.
  - symmetry in H. contradiction (Hpos q H).
  - contradiction (Hpos p H).
  - unfold string_of_N, string_of_pos in H. apply u_inj in H.
    apply (f_equal NilEmpty.uint_of_string) in H.
    rewrite !NilEmpty.usu in H. injection H as H.
    apply (f_equal Pos.of_uint) in H.
    rewrite !DecimalPos.Unsigned.of_to in H. exact H.
Qed.

(** Digits, a dash and a text: the digits end at the first dash. *)
Lemma digits_dash_inj (d1 : str) :
  forall d2 x y,
    all_digits d1 = true -> all_digits d2 = true ->
    d1 ++ "-" ++ x = d2 ++ "-" ++ y -> d1 = d2 /\ x = y.
Proof.
  induction d1 as [| c d1 IH]; intros d2 x y H1 H2 E.
  - destruct d2 as [| c2 d2]; simpl in E.
    + injection E as E. auto.
    + injection E as Ec E. subst c2. discriminate H2.
  - destruct d2 as [| c2 d2]; simpl in E.
    + injection E as Ec E. subst c. discriminate H1.
    + injection E as Ec E. subst c2.
      simpl in H1, H2.
      apply andb_true_iff in H1. apply andb_true_iff in H2.
      destruct (IH d2 x y (proj2 H1) (proj2 H2) E) as [-> ->]. auto.
Qed.

(** X10: the key of an upload starts with the prefix that [GET] lists,
    and it fixes the time and the name it was made from: two uploads get
    the same key only with the same name in the same millisecond. *)
Theorem upload_key_injective (now1 now2 : N) (name1 name2 : str) :
  starts "uploads/" (Upload.upload_key now1 name1) = true
  /\ (Upload.upload_key now1 name1 = Upload.upload_key now2 name2 <->
      now1 = now2 /\ name1 = name2).
Proof.
  split; [apply (starts_app "uploads/") |]. split.
  - unfold Upload.upload_key. intros E. apply app_inv_head in E.
    destruct (digits_dash_inj _ _ _ _ (string_of_N_digits now1)
                (string_of_N_digits now2) E) as [Hn Hs].
    split; [apply string_of_N_inj; exact Hn | exact Hs].
  - intros [-> ->]. reflexivity.
Qed.

Lemma upload_key_injective_witness :
  Upload.upload_key 5 "1-a" <> Upload.upload_key 51 "a".
Proof.
  intros E.
  destruct (proj1 (proj2 (upload_key_injective 5 51 "1-a" "a")) E) as [H _].
  discriminate H.
Defined.

(** ** Properties of the listing *)

Lemma no_slash_app (a b : str) :
  no_slash (a ++ b) = no_slash a && no_slash b.
Proof. unfold no_slash. apply forallb_app. Qed.

(** What [last_segment_from] does to a text read so far without a slash:
    the result has no slash, and the text splits into a directory part and
    the result. *)
Lemma last_segment_from_split (s : str) :
  forall pre acc,
    directory pre -> no_slash acc = true ->
    no_slash (Listing.last_segment_from s acc) = true
    /\ exists dir, directory dir
                   /\ pre ++ acc ++ s = dir ++ Listing.last_segment_from s acc.
Proof.
  induction s as [| c s IH]; intros pre acc Hpre Hacc.
  - simpl. split; [exact Hacc |]. exists pre. split; [exact Hpre |].
    rewrite app_nil_r. reflexivity.
  - simpl. destruct (N.eqb_spec c 47) as [Hc | Hc].
    + subst c.
      destruct (IH (pre ++ acc ++ "/") []) as [Hn [dir [Hd E]]].
      * right. exists (pre ++ acc). rewrite <- app_assoc. reflexivity.
      * reflexivity.
      * split; [exact Hn |]. exists dir. split; [exact Hd |].
        rewrite <- E. simpl. rewrite <- !app_assoc. reflexivity.
    + destruct (IH pre (acc ++ [c])) as [Hn [dir [Hd E]]].
      * exact Hpre.
      * rewrite no_slash_app, Hacc. unfold no_slash, is_slash. simpl.
        apply N.eqb_neq in Hc. rewrite Hc. reflexivity.
      * split; [exact Hn |]. exists dir. split; [exact Hd |].
        rewrite <- E. rewrite <- !app_assoc. reflexivity.
Qed.

Lemma last_segment_split (s : str) :
  no_slash (Listing.last_segment s) = true
  /\ exists dir, directory dir /\ s = dir ++ Listing.last_segment s.
Proof.
  destruct (last_segment_from_split s [] []) as [Hn [dir [Hd E]]].
  - left. reflexivity.
  - reflexivity.
  - split; [exact Hn |]. exists dir. split; [exact Hd | exact E].
Qed.

(** A text without a slash is its own last segment, after what was read
    before it. *)
Lemma last_segment_from_plain (s : str) :
  forall acc, no_slash s = true -> Listing.last_segment_from s acc = acc ++ s.
Proof.
  induction s as [| c s IH]; intros acc H.
  - simpl. rewrite app_nil_r. reflexivity.
  - unfold no_slash in H. simpl in H. apply andb_true_iff in H.
    destruct H as [Hc Hs]. unfold is_slash in Hc. simpl in Hc |- *.
    destruct (c =? 47)%N; [discriminate Hc |].
    rewrite (IH _ Hs), <- app_assoc. reflexivity.
Qed.

Lemma last_segment_from_app (a : str) :
  forall b acc,
    no_slash a = true ->
    Listing.last_segment_from (a ++ b) acc
    = Listing.last_segment_from b (acc ++ a).
Proof.
  induction a as [| c a IH]; intros b acc H.
  - simpl. rewrite app_nil_r. reflexivity.
  - unfold no_slash in H. simpl in H. apply andb_true_iff in H.
    destruct H as [Hc Ha]. unfold is_slash in Hc. simpl in Hc |- *.
    destruct (c =? 47)%N; [discriminate Hc |].
    rewrite (IH b _ Ha), <- app_assoc. reflexivity.
Qed.

Lemma digits_no_slash (s : str) : all_digits s = true -> no_slash s = true.
Proof.
  unfold no_slash, all_digits. induction s as [| c s IH]; simpl;
    [reflexivity |].
  intros H. apply andb_true_iff in H. destruct H as [Hc Hs].
  rewrite (IH Hs), andb_true_r.
  unfold is_digit, in_range in Hc. unfold is_slash.
  apply andb_true_iff in Hc. destruct Hc as [Hlo _].
  apply N.leb_le in Hlo.
  simpl. destruct (N.eqb_spec c 47) as [-> | _];
    [lia | reflexivity].
Qed.

Lemma Promise_all_some {A : Type} (l : list (option A)) (r : list A) :
  Listing.Promise_all l = Some r <-> l = map Some r.
Proof.
  revert r. induction l as [| [x |] l IH]; intros r; simpl.
  - split; intros H.
    + injection H as <-. reflexivity.
    + destruct r; [reflexivity | discriminate H].
  - destruct (Listing.Promise_all l) as [r' |] eqn:Hr.
    + split; intros H.
      * injection H as <-. simpl. f_equal. apply IH. reflexivity.
      * destruct r as [| y r]; [discriminate H |]. simpl in H.
        injection H as -> H. apply IH in H. injection H as ->. reflexivity.
    + split; intros H; [discriminate H |].
      destruct r as [| y r]; [discriminate H |]. simpl in H.
      injection H as -> H. apply IH in H. discriminate H.
  - split; intros H; [discriminate H |].
    destruct r; discriminate H.
Qed.

Lemma Promise_all_none {A : Type} (l : list (option A)) :
  Listing.Promise_all l = None <-> In None l.
Proof.
  induction l as [| [x |] l IH]; simpl.
  - split; [discriminate | contradiction].
  - destruct (Listing.Promise_all l) as [r' |].
    + split; [discriminate |]. intros [H | H]; [discriminate H |].
      apply IH in H. discriminate H.
    + split; [| reflexivity]. intros _. right. apply IH. reflexivity.
  - split; auto.
Qed.

(** X11: [GET] lists one file per object of the store, in the order of
    the store, when every address can be signed: the file has the key as
    its identifier, an address signed for that key in the bucket for 3600
    seconds, the size of the object or 0, and as name the part of the key
    after its last slash, which holds no slash; without [Contents] the
    list is empty. *)
Theorem GET_lists_every_object (BUCKET_NAME : str)
  (getSignedUrl : str -> option str -> nat -> option str)
  (Contents : list Listing.Object) :
  (forall item, In item Contents ->
                getSignedUrl BUCKET_NAME (Listing.Key item) 3600 <> None) ->
  (exists l,
      Listing.GET BUCKET_NAME getSignedUrl (Some (Some Contents))
      = Listing.listed l
      /\ Forall2
           (fun item file =>
              Listing.id file = Listing.Key item
              /\ getSignedUrl BUCKET_NAME (Listing.Key item) 3600
                 = Some (Listing.url file)
              /\ Listing.size file
                 = match Listing.Size item with Some n => n | None => 0%N end
              /\ no_slash (Listing.name file) = true
              /\ match Listing.Key item with
                 | Some k => exists dir, directory dir
                                         /\ k = dir ++ Listing.name file
                 | None => Listing.name file = []
                 end)
           Contents l)
  /\ Listing.GET BUCKET_NAME getSignedUrl (Some None) = Listing.listed [].
Proof.
  intros Hsign. split; [| reflexivity].
  unfold Listing.GET.
  induction Contents as [| item rest IH].
  - exists []. split; [reflexivity | constructor].
  - destruct IH as [l [Hl HF]].
    { intros i Hi. apply Hsign. right. exact Hi. }
    simpl. unfold Listing.describe at 1.
    destruct (getSignedUrl BUCKET_NAME (Listing.Key item) 3600)
      as [address |] eqn:Ha.
    2: { exfalso. apply (Hsign item); [left; reflexivity | exact Ha]. }
    destruct (Listing.Promise_all
                (map (Listing.describe BUCKET_NAME getSignedUrl) rest))
      as [l' |]; [| discriminate Hl].
    injection Hl as ->.
    eexists. split; [reflexivity |].
    constructor; [| exact HF]. simpl.
    split; [reflexivity |]. split; [exact Ha |]. split; [reflexivity |].
    destruct (Listing.Key item) as [k |]; simpl.
    + destruct (last_segment_split k) as [Hn [dir [Hd E]]].
      destruct (eqb (Listing.last_segment k) "") eqn:Hempty; simpl.
      * apply eqb_eq in Hempty. split; [reflexivity |].
        exists dir. split; [exact Hd |]. rewrite E at 1. rewrite Hempty.
        reflexivity.
      * split; [exact Hn |]. exists dir. split; [exact Hd | exact E].
    + split; reflexivity.
Qed.

Lemma GET_lists_every_object_witness :
  Listing.GET "bucket" (fun b k _ => option_map (fun s => b ++ ":" ++ s) k)
    (Some (Some [ {| Listing.Key := Some (u "uploads/17-a/b.txt");
                     Listing.Size := Some 12%N;
                     Listing.LastModified := None |} ]))
  = Listing.listed
      [ {| Listing.id := Some (u "uploads/17-a/b.txt");
           Listing.name := "b.txt";
           Listing.size := 12%N;
           Listing.lastModified := [];
           Listing.url := "bucket:uploads/17-a/b.txt" |} ].
Proof.
  destruct (GET_lists_every_object "bucket"
              (fun b k _ => option_map (fun s => b ++ ":" ++ s) k)
              [ {| Listing.Key := Some (u "uploads/17-a/b.txt");
                   Listing.Size := Some 12%N;
                   Listing.LastModified := None |} ])
    as [[l [Hl _]] _].
  - intros item [<- | []]. discriminate.
  - reflexivity.
Defined.

(** X12: the listing is all or nothing.  [GET] answers 500 with "Failed
    to fetch files" and no list exactly when the store rejects the list
    command or the address of one of the objects cannot be signed;
    otherwise it answers 200 with as many files as objects. *)
Theorem GET_all_or_nothing (BUCKET_NAME : str)
  (getSignedUrl : str -> option str -> nat -> option str)
  (reply : option (option (list Listing.Object))) :
  let r := Listing.GET BUCKET_NAME getSignedUrl reply in
  (r = Listing.failed <->
   reply = None
   \/ exists Contents item,
        reply = Some (Some Contents) /\ In item Contents
        /\ getSignedUrl BUCKET_NAME (Listing.Key item) 3600 = None)
  /\ (r <> Listing.failed ->
      exists l, r = Listing.listed l
                /\ List.length l
                   = match reply with
                     | Some (Some Contents) => List.length Contents
                     | _ => 0
                     end).
Proof.
  cbv zeta. unfold Listing.GET.
  destruct reply as [[Contents |] |].
  - destruct (Listing.Promise_all
                (map (Listing.describe BUCKET_NAME getSignedUrl) Contents))
      as [l |] eqn:Hall.
    + split.
      * split; [discriminate |].
        intros [H | [C [item [HC [Hin Hnone]]]]]; [discriminate H |].
        injection HC as <-.
        assert (Hd : In None
                       (map (Listing.describe BUCKET_NAME getSignedUrl)
                          Contents)).
        { apply in_map_iff. exists item. split; [| exact Hin].
          unfold Listing.describe. rewrite Hnone. reflexivity. }
        apply Promise_all_none in Hd. rewrite Hd in Hall. discriminate Hall.
      * intros _. exists l. split; [reflexivity |].
        apply Promise_all_some in Hall.
        apply (f_equal (@List.length _)) in Hall.
        rewrite !length_map in Hall. symmetry. exact Hall.
    + split.
      * split; [| reflexivity]. intros _. right.
        apply Promise_all_none in Hall. apply in_map_iff in Hall.
        destruct Hall as [item [Hd Hin]].
        exists Contents, item. split; [reflexivity |]. split; [exact Hin |].
        unfold Listing.describe in Hd.
        destruct (getSignedUrl BUCKET_NAME (Listing.Key item) 3600);
          [discriminate Hd | reflexivity].
      * intros H. contradiction H. reflexivity.
  - split.
    + split; [discriminate |].
      intros [H | [C [item [HC _]]]]; discriminate.
    + intros _. exists []. split; reflexivity.
  - split.
    + split; [| reflexivity]. intros _. left. reflexivity.
    + intros H. contradiction H. reflexivity.
Qed.

Lemma GET_all_or_nothing_witness :
  Listing.GET "bucket" (fun _ _ _ => None)
    (Some (Some [ {| Listing.Key := Some (u "uploads/1-a");
                     Listing.Size := None;
                     Listing.LastModified := None |} ]))
  = Listing.failed.
Proof.
  apply (proj1 (GET_all_or_nothing "bucket" (fun _ _ _ => None)
                  (Some (Some [ {| Listing.Key := Some (u "uploads/1-a");
                                   Listing.Size := None;
                                   Listing.LastModified := None |} ])))).
  right. eexists. eexists. split; [reflexivity |].
  split; [left; reflexivity | reflexivity].
Defined.

(** X13: the name that [GET] lists for a key made by [POST] is what
    [last_segment_from] finds in the file's name after the time and the
    dash: for a name without a slash, the time, a dash and the name, and
    never the name alone. *)
Theorem listed_name_of_upload (now : N) (file_name : str) :
  Listing.last_segment (Upload.upload_key now file_name)
  = Listing.last_segment_from file_name (string_of_N now ++ "-")
  /\ (no_slash file_name = true ->
      Listing.last_segment (Upload.upload_key now file_name)
      = string_of_N now ++ "-" ++ file_name)
  /\ Listing.last_segment (Upload.upload_key now file_name) <> file_name.
Proof.
  assert (E : Listing.last_segment (Upload.upload_key now file_name)
              = Listing.last_segment_from file_name (string_of_N now ++ "-")).
  { unfold Listing.last_segment, Upload.upload_key.
    transitivity (Listing.last_segment_from
                    (string_of_N now ++ "-" ++ file_name) []);
      [reflexivity |].
    rewrite last_segment_from_app
      by (apply digits_no_slash, string_of_N_digits).
    rewrite (last_segment_from_app "-" file_name) by reflexivity.
    reflexivity. }
  split; [exact E |]. split.
  - intros H. rewrite E, (last_segment_from_plain _ _ H), <- app_assoc.
    reflexivity.
  - rewrite E. intros H.
    destruct (last_segment_from_split file_name [] (string_of_N now ++ "-"))
      as [_ [dir [Hd Hs]]].
    + left. reflexivity.
    + rewrite no_slash_app.
      rewrite (digits_no_slash _ (string_of_N_digits now)). reflexivity.
    + rewrite H in Hs.
      change ((string_of_N now ++ "-") ++ file_name = dir ++ file_name) in Hs.
      apply app_inv_tail in Hs.
      assert (Hn : no_slash dir = true).
      { rewrite <- Hs, no_slash_app.
        rewrite (digits_no_slash _ (string_of_N_digits now)). reflexivity. }
      destruct Hd as [-> | [d ->]].
      * destruct (string_of_N now); discriminate Hs.
      * rewrite no_slash_app in Hn. apply andb_true_iff in Hn.
        destruct Hn as [_ Hn]. discriminate Hn.
Qed.

Lemma listed_name_of_upload_witness :
  Listing.last_segment (Upload.upload_key 1700000000000 "report.pdf")
  = u "1700000000000-report.pdf".
Proof.
  exact (proj1 (proj2 (listed_name_of_upload 1700000000000 "report.pdf"))
           eq_refl).
Defined.

(** ** Properties of the logs view *)

Section LogsViewProperties.

Context {case : CaseMapping}.

Section SearchTerm.

(** What is assumed of the lowercase conversion of the runtime: only the
    empty text has an empty lowercase form. *)
Hypothesis lower_empty : forall s, toLowerCase s = [] <-> s = [].

Lemma matches_term (filter term term' : str) (log : LogEntry) :
  toLowerCase term = toLowerCase term' ->
  LogsView.matches filter term log = LogsView.matches filter term' log.
Proof.
  intros E. unfold LogsView.matches, LogsView.text_includes.
  assert (Hempty : eqb term "" = eqb term' "").
  { destruct (eqb term "") eqn:H1; destruct (eqb term' "") eqn:H2;
      try reflexivity.
    - apply eqb_eq in H1. apply eqb_neq in H2. subst term.
      exfalso. apply H2. apply lower_empty. rewrite <- E.
      apply lower_empty. reflexivity.
    - apply eqb_eq in H2. apply eqb_neq in H1. subst term'.
      exfalso. apply H1. apply lower_empty. rewrite E.
      apply lower_empty. reflexivity. }
  rewrite Hempty, E. reflexivity.
Qed.

(** X14: the search does not see the letter case of the search term: two
    terms with the same lowercase form filter the logs alike, and so do a
    term and its lowercase form. *)
Theorem search_term_case (filter term term' : str) (l : list LogEntry) :
  toLowerCase term = toLowerCase term' ->
  LogsView.filteredLogs filter term l = LogsView.filteredLogs filter term' l.
Proof.
  intros E. induction l as [| log rest IH]; simpl; [reflexivity |].
  rewrite (matches_term filter term term' log E), IH. reflexivity.
Qed.

End SearchTerm.

Lemma matches_textual (filter term : str) (log : LogEntry) :
  textual log -> exists keep, LogsView.matches filter term log = Some keep.
Proof.
  intros [[m Hm] [[f Hf] [r Hr]]].
  unfold LogsView.matches, LogsView.text_includes, LogsView.orM.
  rewrite Hm, Hf, Hr.
  destruct (eqb term ""); [eauto |].
  destruct (includes (toLowerCase m) (toLowerCase term)); [eauto |].
  destruct (includes (toLowerCase f) (toLowerCase term)); eauto.
Qed.

(** X15: with an empty search term the view never reads the texts of
    the logs: it shows the logs whose level passes the filter, all of them
    under ALL, in their order; and on logs whose texts are strings the
    filter never throws, whatever the term. *)
Theorem filteredLogs_total (filter term : str) (l : list LogEntry) :
  LogsView.filteredLogs filter [] l
  = Some (List.filter (level_passes filter) l)
  /\ LogsView.filteredLogs "ALL" [] l = Some l
  /\ (Forall textual l ->
      exists shown, LogsView.filteredLogs filter term l = Some shown
                    /\ forall log, In log shown ->
                                   In log l /\ level_passes filter log = true).
Proof.
  split; [| split].
  - induction l as [| log rest IH]; simpl; [reflexivity |].
    rewrite IH. unfold LogsView.matches, level_passes. simpl.
    rewrite andb_true_r. reflexivity.
  - induction l as [| log rest IH]; simpl; [reflexivity |].
    rewrite IH. reflexivity.
  - intros Ht. induction Ht as [| log rest Hlog Hrest IH].
    + exists []. split; [reflexivity | intros log []].
    + destruct IH as [shown [Hs Hin]].
      destruct (matches_textual filter term log Hlog) as [keep Hk].
      simpl. rewrite Hk, Hs.
      exists (if keep then log :: shown else shown).
      split; [reflexivity |].
      intros x Hx. destruct keep.
      * destruct Hx as [<- | Hx].
        -- split; [left; reflexivity |].
           unfold LogsView.matches in Hk.
           destruct (LogsView.orM _ _) as [ms |]; [| discriminate Hk].
           injection Hk as Hk. apply andb_true_iff in Hk.
           exact (proj1 Hk).
        -- destruct (Hin x Hx) as [H1 H2]. split; [right; exact H1 | exact H2].
      * destruct (Hin x Hx) as [H1 H2]. split; [right; exact H1 | exact H2].
Qed.

(** X16: a log whose message is not a string makes the filter throw as
    soon as a search term is typed, whatever its level and the filter; and
    the route does make such logs: the payload of [numeric_message] has
    the number 5 as its message, which the entry carries as it is, in the
    answer too. *)
Theorem filteredLogs_throws (filter term : str) (l : list LogEntry)
  (log : LogEntry) :
  In log l ->
  (forall s, message log <> JString s) ->
  term <> [] ->
  LogsView.filteredLogs filter term l = None
  /\ forall clock t,
       message (written (fst (process_message clock 0 numeric_message t)))
       = JNumber (num_of_N 5).
Proof.
  intros Hin Hmsg Hterm. split; [| intros clock t; reflexivity].
  induction l as [| x rest IH]; [contradiction Hin |].
  simpl. destruct Hin as [-> | Hin].
  - unfold LogsView.matches, LogsView.text_includes.
    rewrite (eqb_empty_false term Hterm).
    destruct (message log) as [| b | n | s | items | fields]; simpl;
      try reflexivity.
    contradiction (Hmsg s). reflexivity.
  - rewrite (IH Hin).
    destruct (LogsView.matches filter term x); reflexivity.
Qed.

(** X17: a poll of the view against the route.  When the route answers
    200 the view shows the entries of the answer and no error; when it
    answers 500 the view keeps the logs it had and shows "Failed to fetch
    SNS logs: HTTP error! Status: 500", not the message of the route; in
    both cases the view stops loading. *)
Theorem fetchLogs_after_GET (clock : nat -> str) (SQS_QUEUE_URL : str)
  (reply : sent) (t : nat) (st : LogsView.State) :
  let r := GET clock SQS_QUEUE_URL reply t in
  let st' := LogsView.fetchLogs (LogsView.Answered r) st in
  LogsView.loading st' = false
  /\ (status r = 200 ->
      logs (payload r) = Some (LogsView.logs st')
      /\ LogsView.error st' = None)
  /\ (status r = 500 ->
      LogsView.logs st' = LogsView.logs st
      /\ LogsView.error st'
         = Some (u "Failed to fetch SNS logs: HTTP error! Status: 500")).
Proof.
  cbv zeta.
  pose proof (GET_cases clock SQS_QUEUE_URL reply t) as Hcases.
  cbv zeta in Hcases.
  unfold LogsView.fetchLogs, LogsView.fetchLogs_try, LogsView.ok.
  destruct Hcases as [[Hs [Hok [Hf [entries He]]]] | [Hs [Hok [Hl [text Hf]]]]];
    rewrite Hs; simpl.
  - rewrite Hok, He. simpl.
    split; [reflexivity |].
    split; intros Hst; [split; reflexivity | discriminate Hst].
  - split; [reflexivity |].
    split; intros Hst; [discriminate Hst | split; reflexivity].
Qed.

End LogsViewProperties.

Lemma search_term_case_witness :
  @LogsView.filteredLogs ascii_case "ALL" "TIMEOUT"
    [ {| id := "1"; timestamp := JString "t"; level := "ERROR";
         message := JString "Gateway Timeout";
         lambdaFunction := JString "f"; requestId := JString "r" |} ]
  = @LogsView.filteredLogs ascii_case "ALL" "timeout"
      [ {| id := "1"; timestamp := JString "t"; level := "ERROR";
           message := JString "Gateway Timeout";
           lambdaFunction := JString "f"; requestId := JString "r" |} ]
  /\ @LogsView.filteredLogs latin_case "ALL" [201%N]
       [ {| id := "1"; timestamp := JString "t"; level := "INFO";
            message := JString (u "CAF" ++ [201%N]);
            lambdaFunction := JString "f"; requestId := JString "r" |} ]
     = @LogsView.filteredLogs latin_case "ALL" [233%N]
         [ {| id := "1"; timestamp := JString "t"; level := "INFO";
              message := JString (u "CAF" ++ [201%N]);
              lambdaFunction := JString "f"; requestId := JString "r" |} ].
Proof.
  split.
  - exact (@search_term_case ascii_case ascii_case_empty "ALL" "TIMEOUT"
             "timeout" _ eq_refl).
  - exact (@search_term_case latin_case latin_case_empty "ALL" [201%N]
             [233%N] _ eq_refl).
Defined.

Lemma filteredLogs_total_witness :
  exists shown,
    @LogsView.filteredLogs ascii_case "WARN" "config"
      (mockLogs (fun _ => u "now") 0)
    = Some shown
    /\ forall log, In log shown ->
                   In log (mockLogs (fun _ => u "now") 0)
                   /\ level_passes "WARN" log = true.
Proof.
  refine (proj2 (proj2 (@filteredLogs_total ascii_case "WARN" "config"
                          (mockLogs (fun _ => u "now") 0))) _).
  repeat constructor; simpl; eauto.
Defined.

Lemma filteredLogs_throws_witness :
  @LogsView.filteredLogs ascii_case "ALL" "5"
    [written (fst (@process_message ascii_case (fun _ => u "now") 0
                     numeric_message 0))]
  = None.
Proof.
  refine (proj1 (@filteredLogs_throws ascii_case "ALL" "5"
                   [written (fst (@process_message ascii_case
                                    (fun _ => u "now") 0 numeric_message 0))]
                   (written (fst (@process_message ascii_case
                                    (fun _ => u "now") 0 numeric_message 0)))
                   _ _ _)).
  - left. reflexivity.
  - intros s. discriminate.
  - discriminate.
Defined.

Lemma fetchLogs_after_GET_witness :
  let st := {| LogsView.logs := mockLogs (fun _ => u "then") 0;
               LogsView.loading := true; LogsView.error := None |} in
  let st' :=
    LogsView.fetchLogs
      (LogsView.Answered
         (@GET ascii_case (fun _ => u "now") "https://queue.example/logs"
            (Rejected (ErrorObject "connect ETIMEDOUT")) 0)) st in
  LogsView.logs st' = LogsView.logs st
  /\ LogsView.error st'
     = Some (u "Failed to fetch SNS logs: HTTP error! Status: 500").
Proof.
  exact (proj2 (proj2 (@fetchLogs_after_GET ascii_case (fun _ => u "now")
                         "https://queue.example/logs"
                         (Rejected (ErrorObject "connect ETIMEDOUT")) 0
                         {| LogsView.logs := mockLogs (fun _ => u "then") 0;
                            LogsView.loading := true;
                            LogsView.error := None |})) eq_refl).
Defined.

(** ** Properties of the files view *)

Lemma handleDelete_step (fetch_DELETE : str -> option S3.Payload)
  (fileId : str) (st : ManageFilesView.State) :
  let '(st', requests) := ManageFilesView.handleDelete fetch_DELETE fileId st in
  (ManageFilesView.confirmed st fileId = false ->
   requests = []
   /\ ManageFilesView.deleteConfirm st' = Some fileId
   /\ ManageFilesView.files st' = ManageFilesView.files st)
  /\ (ManageFilesView.confirmed st fileId = true ->
      requests = [delete_body fileId]
      /\ ManageFilesView.deleteConfirm st' = None).
Proof.
  unfold ManageFilesView.handleDelete.
  destruct (ManageFilesView.confirmed st fileId); simpl.
  - destruct (match fetch_DELETE _ with Some d => S3.success d | None => false end);
      split; intros H; try discriminate H; split; reflexivity.
  - split; intros H; try discriminate H. repeat split.
Qed.

Lemma clicks_requests (fetch_DELETE : str -> option S3.Payload)
  (ids : list str) :
  forall st,
    2 * List.length (snd (clicks fetch_DELETE ids st))
    <= List.length ids
       + match ManageFilesView.deleteConfirm st with
         | Some _ => 1
         | None => 0
         end.
Proof.
  induction ids as [| fileId rest IH]; intros st; simpl; [lia |].
  pose proof (handleDelete_step fetch_DELETE fileId st) as Hstep.
  destruct (ManageFilesView.handleDelete fetch_DELETE fileId st)
    as [st' requests].
  specialize (IH st').
  destruct (clicks fetch_DELETE rest st') as [st'' requests'].
  simpl in *. rewrite length_app.
  destruct Hstep as [Hno Hyes].
  destruct (ManageFilesView.confirmed st fileId) eqn:Hc.
  - destruct (Hyes eq_refl) as [-> Hd]. rewrite Hd in IH. simpl.
    unfold ManageFilesView.confirmed in Hc.
    destruct (ManageFilesView.deleteConfirm st); [lia | discriminate Hc].
  - destruct (Hno eq_refl) as [-> [Hd _]]. rewrite Hd in IH. simpl.
    destruct (ManageFilesView.deleteConfirm st); lia.
Qed.

(** X18: a deletion needs two clicks, in every state of the view.  A
    click on a file that is not the one awaiting confirmation sends
    nothing, leaves the files as they are and makes that file the one
    awaiting, so that a second click on it sends one request for it; a
    click on the file awaiting sends one request for it and clears the
    confirmation.  So a run of clicks sends at most half as many requests
    as there are clicks, plus one when a file was awaiting at the
    start. *)
Theorem delete_needs_two_clicks (fetch_DELETE : str -> option S3.Payload)
  (ids : list str) (st : ManageFilesView.State) :
  2 * List.length (snd (clicks fetch_DELETE ids st))
  <= List.length ids
     + match ManageFilesView.deleteConfirm st with
       | Some _ => 1
       | None => 0
       end
  /\ (forall fileId,
        ManageFilesView.confirmed st fileId = false ->
        snd (ManageFilesView.handleDelete fetch_DELETE fileId st) = []
        /\ ManageFilesView.files
             (fst (ManageFilesView.handleDelete fetch_DELETE fileId st))
           = ManageFilesView.files st
        /\ ManageFilesView.deleteConfirm
             (fst (ManageFilesView.handleDelete fetch_DELETE fileId st))
           = Some fileId
        /\ snd (clicks fetch_DELETE [fileId; fileId] st)
           = [delete_body fileId])
  /\ (forall fileId,
        ManageFilesView.confirmed st fileId = true ->
        snd (ManageFilesView.handleDelete fetch_DELETE fileId st)
        = [delete_body fileId]
        /\ ManageFilesView.deleteConfirm
             (fst (ManageFilesView.handleDelete fetch_DELETE fileId st))
           = None).
Proof.
  split; [apply clicks_requests |]. split.
  - intros fileId Hc.
    unfold clicks, ManageFilesView.handleDelete. rewrite Hc. simpl.
    unfold ManageFilesView.confirmed. simpl. rewrite eqb_refl. simpl.
    destruct (match fetch_DELETE _ with Some d => S3.success d | None => false end);
      repeat split.
  - intros fileId Hc.
    pose proof (handleDelete_step fetch_DELETE fileId st) as H.
    destruct (ManageFilesView.handleDelete fetch_DELETE fileId st)
      as [st' requests].
    destruct H as [_ H]. exact (H Hc).
Qed.

Lemma delete_needs_two_clicks_witness :
  2 * List.length
        (snd (clicks (route_DELETE "bucket" true)
                [u "a"; u "b"; u "b"; u "a"; u "a"]
                {| ManageFilesView.files := [];
                   ManageFilesView.selectedFile := None;
                   ManageFilesView.deleteConfirm := Some (u "c");
                   ManageFilesView.actionStatus := None |}))
  <= 6
  /\ snd (ManageFilesView.handleDelete (route_DELETE "bucket" true) "a"
            {| ManageFilesView.files := [];
               ManageFilesView.selectedFile := None;
               ManageFilesView.deleteConfirm := Some (u "c");
               ManageFilesView.actionStatus := None |}) = [].
Proof.
  split.
  - exact (proj1 (delete_needs_two_clicks (route_DELETE "bucket" true)
                    [u "a"; u "b"; u "b"; u "a"; u "a"]
                    {| ManageFilesView.files := [];
                       ManageFilesView.selectedFile := None;
                       ManageFilesView.deleteConfirm := Some (u "c");
                       ManageFilesView.actionStatus := None |})).
  - exact (proj1 (proj1 (proj2 (delete_needs_two_clicks
                                  (route_DELETE "bucket" true) []
                    {| ManageFilesView.files := [];
                       ManageFilesView.selectedFile := None;
                       ManageFilesView.deleteConfirm := Some (u "c");
                       ManageFilesView.actionStatus := None |})) "a" eq_refl)).
Defined.

(** X19: a confirmed click on a file, against the route.  For a file
    whose identifier is not empty and a store that accepts, the route
    sends the store exactly one command, for the bucket and that very
    identifier as key, whatever code units it holds, and the view drops
    the files with that identifier, keeps the others in their order and
    reports the success.  When the store refuses, or for the empty
    identifier, which the route answers with 400 before sending anything,
    the view keeps its files and reports an error. *)
Theorem confirmed_delete (BUCKET_NAME : str) (send_resolves : bool)
  (fileId : str) (st : ManageFilesView.State) :
  ManageFilesView.confirmed st fileId = true ->
  let st' := fst (ManageFilesView.handleDelete
                    (route_DELETE BUCKET_NAME send_resolves) fileId st) in
  let o := S3.DELETE BUCKET_NAME (delete_body fileId) send_resolves in
  (fileId <> [] ->
   S3.sent o = [{| S3.Bucket := BUCKET_NAME; S3.Key := JString fileId |}])
  /\ (fileId = [] -> S3.sent o = [] /\ S3.status (S3.response o) = 400)
  /\ (fileId <> [] -> send_resolves = true ->
      ManageFilesView.files st'
      = List.filter (fun file => negb (eqb (ManageFilesView.id file) fileId))
          (ManageFilesView.files st)
      /\ (forall file, In file (ManageFilesView.files st') <->
                       In file (ManageFilesView.files st)
                       /\ ManageFilesView.id file <> fileId)
      /\ ManageFilesView.actionStatus st'
         = Some {| ManageFilesView.success := true;
                   ManageFilesView.message := "File deleted successfully" |})
  /\ (fileId = [] \/ send_resolves = false ->
      ManageFilesView.files st' = ManageFilesView.files st
      /\ ManageFilesView.actionStatus st'
         = Some {| ManageFilesView.success := false;
                   ManageFilesView.message :=
                     "Error deleting file. Please try again." |}).
Proof.
  intros Hc. cbv zeta.
  unfold ManageFilesView.handleDelete, route_DELETE. rewrite Hc. simpl negb.
  cbv iota.
  change (JSON_stringify (JObject [(u "fileId", JString fileId)]))
    with (delete_body fileId).
  unfold S3.DELETE. rewrite delete_body_parsed.
  change (get (JObject [(u "fileId", JString fileId)]) "fileId")
    with (Some (Some (JString fileId))).
  cbv iota. unfold truthy.
  destruct (eqb fileId "") eqn:He.
  - apply eqb_eq in He. subst fileId. simpl.
    split; [intros H; contradiction H; reflexivity |].
    split; [intros _; split; reflexivity |].
    split; [intros H; contradiction H; reflexivity |].
    intros _. split; reflexivity.
  - apply eqb_neq in He. simpl negb. cbv iota.
    split; [intros _; reflexivity |].
    split; [intros H; contradiction (He H) |].
    destruct send_resolves; simpl.
    + split.
      * intros _ _. split; [reflexivity |]. split; [| reflexivity].
        intros file. rewrite filter_In, negb_true_iff, eqb_neq.
        reflexivity.
      * intros [H | H]; [contradiction (He H) | discriminate H].
    + split.
      * intros _ H. discriminate H.
      * intros _. split; reflexivity.
Qed.

Lemma confirmed_delete_witness :
  S3.sent (S3.DELETE "bucket"
             (delete_body ("uploads/1-a" ++ dq ++ [56570%N] ++ ".txt")) true)
  = [{| S3.Bucket := "bucket";
        S3.Key := JString ("uploads/1-a" ++ dq ++ [56570%N] ++ ".txt") |}].
Proof.
  refine (proj1 (confirmed_delete "bucket" true
                   ("uploads/1-a" ++ dq ++ [56570%N] ++ ".txt")
                   {| ManageFilesView.files := [];
                      ManageFilesView.selectedFile := None;
                      ManageFilesView.deleteConfirm :=
                        Some ("uploads/1-a" ++ dq ++ [56570%N] ++ ".txt");
                      ManageFilesView.actionStatus := None |} eq_refl) _).
  discriminate.
Defined.

(** *** The size of a file *)

Lemma odd_part_spec (p : positive) :
  forall e0 : Z,
    (Z.pos (fst (odd_part p e0)) * 2 ^ (snd (odd_part p e0) - e0) = Z.pos p
     /\ e0 <= snd (odd_part p e0))%Z.
Proof.
  induction p as [p IH | p IH |]; intros e0.
  - change (odd_part p~1 e0) with (p~1%positive, e0). cbn [fst snd].
    rewrite Z.sub_diag. change (2 ^ 0)%Z with 1%Z. lia.
  - change (odd_part p~0 e0) with (odd_part p (e0 + 1)).
    destruct (IH (e0 + 1)%Z) as [H1 H2]. split; [| lia].
    replace (snd (odd_part p (e0 + 1)) - e0)%Z
      with (Z.succ (snd (odd_part p (e0 + 1)) - (e0 + 1)))%Z by lia.
    rewrite Z.pow_succ_r by lia. lia.
  - change (odd_part 1 e0) with (1%positive, e0). cbn [fst snd].
    rewrite Z.sub_diag. change (2 ^ 0)%Z with 1%Z. lia.
Qed.

(** The binary64 value of a whole number below [2^53] is the number. *)
Lemma num_of_N_spec (b : N) :
  exists m e,
    num_of_N b = Finite false m e
    /\ (Z.of_N m * 2 ^ e = Z.of_N b)%Z /\ (0 <= e)%Z.
Proof.
  destruct b as [| p].
  - exists 0%N, 0%Z. repeat split. lia.
  - unfold num_of_N, normal. simpl Z.of_N.
    destruct (odd_part_spec p 0) as [H1 H2].
    destruct (odd_part p 0) as [m e]. simpl in H1, H2.
    exists (Npos m), e. rewrite Z.sub_0_r in H1. repeat split; assumption.
Qed.

Lemma mag_ltb_shift (m1 : N) (e1 : Z) (m2 : N) (e2 c : Z) :
  (c <= e1)%Z -> (c <= e2)%Z ->
  mag_ltb m1 e1 m2 e2
  = (Z.of_N m1 * 2 ^ (e1 - c) <? Z.of_N m2 * 2 ^ (e2 - c))%Z.
Proof.
  intros H1 H2. unfold mag_ltb.
  set (d := Z.min e1 e2).
  assert (Hd : (c <= d)%Z) by (unfold d; lia).
  assert (Hd1 : (d <= e1)%Z) by (unfold d; lia).
  assert (Hd2 : (d <= e2)%Z) by (unfold d; lia).
  replace (e1 - c)%Z with ((e1 - d) + (d - c))%Z by lia.
  replace (e2 - c)%Z with ((e2 - d) + (d - c))%Z by lia.
  rewrite !Z.pow_add_r by lia.
  assert (Hpos : (0 < 2 ^ (d - c))%Z) by (apply Z.pow_pos_nonneg; lia).
  rewrite !Z.mul_assoc.
  destruct (Z.ltb_spec (Z.of_N m1 * 2 ^ (e1 - d)) (Z.of_N m2 * 2 ^ (e2 - d)))
    as [H | H]; symmetry.
  - apply Z.ltb_lt. apply Z.mul_lt_mono_pos_r; assumption.
  - apply Z.ltb_ge. apply Z.mul_le_mono_nonneg_r; [lia | assumption].
Qed.

Lemma num_ltb_of_N (a b : N) :
  num_ltb (num_of_N a) (num_of_N b) = (a <? b)%N.
Proof.
  destruct (num_of_N_spec a) as [m1 [e1 [-> [H1 E1]]]].
  destruct (num_of_N_spec b) as [m2 [e2 [-> [H2 E2]]]].
  simpl. rewrite (mag_ltb_shift m1 e1 m2 e2 0) by assumption.
  rewrite !Z.sub_0_r, H1, H2.
  destruct (Z.ltb_spec (Z.of_N a) (Z.of_N b));
    destruct (N.ltb_spec a b); try reflexivity; lia.
Qed.

(** Below 1024 a whole number is printed with its decimal digits. *)
Lemma small_number_text :
  forallb (fun n => eqb (number_to_string (num_of_N n)) (string_of_N n))
    (map N.of_nat (seq 0 1024)) = true.
Proof. vm_compute. reflexivity. Qed.

Lemma number_to_string_small (b : N) :
  (b < 1024)%N -> number_to_string (num_of_N b) = string_of_N b.
Proof.
  intros H. apply eqb_eq.
  apply (proj1 (forallb_forall _ _) small_number_text).
  apply in_map_iff. exists (N.to_nat b). split; [apply N2Nat.id |].
  apply in_seq. lia.
Qed.

Lemma ten_to_21 :
  num_of_decimal false 1 21 = Finite false 476837158203125 21.
Proof. vm_compute. reflexivity. Qed.

Lemma div_cross (p q p' q' : Z) :
  (0 < q)%Z -> (0 < q')%Z -> (p * q' = p' * q)%Z -> (p / q = p' / q')%Z.
Proof.
  intros Hq Hq' H.
  rewrite <- (Z.div_mul_cancel_r p q q') by lia.
  rewrite H, (Z.mul_comm q q').
  apply Z.div_mul_cancel_r; lia.
Qed.

(** The quotient of a whole number by a power of two, with one digit
    after the point. *)
Lemma toFixed1_div (b : N) (k : Z) :
  (0 < b < 2 ^ 53)%N -> (0 <= k <= 20)%Z ->
  toFixed1 (div_pow2 (num_of_N b) k)
  = let n := ((20 * b + Z.to_N (2 ^ k)) / (2 * Z.to_N (2 ^ k)))%N in
    string_of_N (n / 10) ++ "." ++ string_of_N (n mod 10).
Proof.
  intros Hb Hk.
  destruct (num_of_N_spec b) as [m [e [-> [Hm He]]]].
  assert (Hm0 : (m =? 0)%N = false).
  { apply N.eqb_neq. intros ->. simpl in Hm. lia. }
  assert (Hpow : (0 < 2 ^ k)%Z) by (apply Z.pow_pos_nonneg; lia).
  unfold div_pow2. rewrite Hm0.
  assert (Hlog : (0 <= Z.log2 (Z.of_N m))%Z) by apply Z.log2_nonneg.
  destruct (Z.leb_spec (-1022) (Z.log2 (Z.of_N m) + e - k)) as [_ | H];
    [| lia].
  unfold toFixed1. rewrite ten_to_21.
  assert (Hlt : num_ltb (Finite false m (e - k))
                  (Finite false 476837158203125 21) = true).
  { simpl. rewrite (mag_ltb_shift m (e - k) 476837158203125 21 (- k))
      by lia.
    apply Z.ltb_lt.
    replace (e - k - - k)%Z with e by lia. rewrite Hm.
    replace (21 - - k)%Z with (21 + k)%Z by lia.
    rewrite Z.pow_add_r by lia.
    assert (Hb' : (Z.of_N b < 2 ^ 53)%Z).
    { change (2 ^ 53)%Z with (Z.of_N (2 ^ 53)). lia. }
    change (2 ^ 53)%Z with 9007199254740992%Z in Hb'.
    change (2 ^ 21)%Z with 2097152%Z.
    change (Z.of_N 476837158203125) with 476837158203125%Z. nia. }
  rewrite Hlt. simpl negb. cbv iota.
  rewrite Hm0. simpl andb. cbv iota.
  assert (Hn : forall a b',
             ratio m (e - k) = (a, b') ->
             Z.to_N ((20 * a + b') / (2 * b'))
             = ((20 * b + Z.to_N (2 ^ k)) / (2 * Z.to_N (2 ^ k)))%N).
  { intros a b' Hr.
    assert (Hcross : (0 < b' /\ a * 2 ^ k = Z.of_N b * b')%Z).
    { unfold ratio in Hr.
      destruct (Z.leb_spec 0 (e - k)) as [Hge | Hlt'];
        injection Hr as <- <-.
      - split; [lia |]. rewrite <- Hm, <- Z.mul_assoc, <- Z.pow_add_r by lia.
        replace (e - k + k)%Z with e by lia. lia.
      - split; [apply Z.pow_pos_nonneg; lia |].
        rewrite <- Hm, <- Z.mul_assoc, <- Z.pow_add_r by lia.
        replace (e + - (e - k))%Z with k by lia. reflexivity. }
    destruct Hcross as [Hb'pos Hcross].
    rewrite (div_cross (20 * a + b') (2 * b')
               (20 * Z.of_N b + 2 ^ k) (2 * 2 ^ k)) by nia.
    apply N2Z.inj. rewrite Z2N.id by (apply Z.div_pos; lia).
    rewrite N2Z.inj_div, N2Z.inj_add, !N2Z.inj_mul, Z2N.id by lia.
    reflexivity. }
  destruct (ratio m (e - k)) as [a b'] eqn:Hr.
  rewrite (Hn a b' eq_refl). reflexivity.
Qed.

Lemma tenths_bounds (num den : N) :
  (0 < den)%N ->
  let n := ((20 * num + den) / (2 * den))%N in
  (den * n <= 10 * num + den / 2 /\ 20 * num + den < 2 * den * (n + 1))%N.
Proof.
  intros Hden n.
  pose proof (N.div_mod (20 * num + den) (2 * den)) as Hdm.
  pose proof (N.mod_lt (20 * num + den) (2 * den)) as Hlt.
  pose proof (N.div_mod den 2) as Hhalf.
  pose proof (N.mod_lt den 2) as Hhalf2.
  fold n in Hdm.
  assert (H2 : (2 * den <> 0)%N) by lia.
  specialize (Hdm H2). specialize (Hlt H2).
  assert (H3 : (2 <> 0)%N) by lia.
  specialize (Hhalf H3). specialize (Hhalf2 H3).
  remember ((20 * num + den) mod (2 * den))%N as r.
  remember (den / 2)%N as h. remember (den mod 2)%N as h2.
  split; nia.
Qed.

(** X20: the size shown for a whole number of bytes that binary64 holds
    exactly.  Below 1024 it is the number itself in B; from 1024 on it is
    a number of tenths [n] of KB, and from 1048576 on of MB, which is the
    nearest to the size, the larger when two are as near; so it is within
    a twentieth of the unit from the size.  The last sizes before 1048576
    are shown as ["1024.0 KB"].  From [10^21] units on, the number is
    written with an exponent. *)
Theorem formatFileSize_accuracy (bytes : N) :
  safe_integer bytes ->
  ((bytes < 1024)%N ->
   ManageFilesView.formatFileSize (num_of_N bytes)
   = string_of_N bytes ++ " B")
  /\ ((1024 <= bytes < 1048576)%N ->
      exists n,
        ManageFilesView.formatFileSize (num_of_N bytes)
        = string_of_N (n / 10) ++ "." ++ string_of_N (n mod 10) ++ " KB"
        /\ (1024 * n <= 10 * bytes + 512 < 1024 * (n + 1))%N
        /\ (10 <= n <= 10240)%N)
  /\ ((1048576 <= bytes)%N ->
      exists n,
        ManageFilesView.formatFileSize (num_of_N bytes)
        = string_of_N (n / 10) ++ "." ++ string_of_N (n mod 10) ++ " MB"
        /\ (1048576 * n <= 10 * bytes + 524288 < 1048576 * (n + 1))%N
        /\ (10 <= n)%N)
  /\ ((1048525 <= bytes < 1048576)%N ->
      ManageFilesView.formatFileSize (num_of_N bytes) = "1024.0 KB")
  /\ ManageFilesView.formatFileSize (num_of_decimal false 1 30)
     = "9.5367431640625e+23 MB".
Proof.
  intros Hsafe. unfold safe_integer in Hsafe.
  assert (HKB : (1024 <= bytes < 1048576)%N ->
                exists n,
                  ManageFilesView.formatFileSize (num_of_N bytes)
                  = string_of_N (n / 10) ++ "." ++ string_of_N (n mod 10)
                    ++ " KB"
                  /\ (1024 * n <= 10 * bytes + 512 < 1024 * (n + 1))%N
                  /\ (10 <= n <= 10240)%N).
  { intros [Hlo Hhi]. unfold ManageFilesView.formatFileSize.
    rewrite !num_ltb_of_N.
    destruct (N.ltb_spec bytes 1024) as [H | _]; [lia |].
    destruct (N.ltb_spec bytes 1048576) as [_ | H]; [| lia].
    exists ((20 * bytes + 1024) / (2 * 1024))%N.
    split.
    - rewrite (toFixed1_div bytes 10) by lia.
      cbv zeta. change (Z.to_N (2 ^ 10)) with 1024%N.
      rewrite <- !app_assoc. reflexivity.
    - pose proof (tenths_bounds bytes 1024 eq_refl) as Hb.
      cbv zeta in Hb.
      remember ((20 * bytes + 1024) / (2 * 1024))%N as n.
      change (1024 / 2)%N with 512%N in Hb. lia. }
  split; [| split; [exact HKB | split; [| split]]].
  - intros H. unfold ManageFilesView.formatFileSize.
    rewrite num_ltb_of_N.
    destruct (N.ltb_spec bytes 1024) as [_ | H']; [| lia].
    rewrite (number_to_string_small bytes H). reflexivity.
  - intros Hlo. unfold ManageFilesView.formatFileSize.
    rewrite !num_ltb_of_N.
    destruct (N.ltb_spec bytes 1024) as [H | _]; [lia |].
    destruct (N.ltb_spec bytes 1048576) as [H | _]; [lia |].
    exists ((20 * bytes + 1048576) / (2 * 1048576))%N.
    split.
    + rewrite (toFixed1_div bytes 20) by lia.
      cbv zeta. change (Z.to_N (2 ^ 20)) with 1048576%N.
      rewrite <- !app_assoc. reflexivity.
    + pose proof (tenths_bounds bytes 1048576 eq_refl) as Hb.
      cbv zeta in Hb.
      remember ((20 * bytes + 1048576) / (2 * 1048576))%N as n.
      change (1048576 / 2)%N with 524288%N in Hb. lia.
  - intros [Hlo Hhi].
    destruct HKB as [n [Htext [Hn _]]]; [lia |].
    assert (n = 10240%N) by lia. subst n.
    rewrite Htext. reflexivity.
  - vm_compute. reflexivity.
Qed.

Lemma formatFileSize_accuracy_witness :
  ManageFilesView.formatFileSize (num_of_N 1048575) = u "1024.0 KB"
  /\ exists n,
       ManageFilesView.formatFileSize (num_of_N 1536)
       = string_of_N (n / 10) ++ "." ++ string_of_N (n mod 10) ++ " KB"
       /\ (1024 * n <= 10 * 1536 + 512 < 1024 * (n + 1))%N
       /\ (10 <= n <= 10240)%N.
Proof.
  split.
  - apply (proj1 (proj2 (proj2 (proj2
             (formatFileSize_accuracy 1048575 eq_refl))))). lia.
  - apply (proj1 (proj2 (formatFileSize_accuracy 1536 eq_refl))). lia.
Defined.

(** ** Properties of the upload view *)

(** X21: a click on Upload, against the route.  Without a selection the
    view posts nothing and asks for a file.  With files that the store
    accepts, it posts them once, reports the message of the route with
    their number, and clears the selection; when the store rejects one, it
    reports "Failed to upload files" and keeps the selection, though the
    files before the rejected one are stored. *)
Theorem upload_click (BUCKET_NAME : str) (Date_now : nat -> N)
  (accepts : nat -> Upload.PutObjectCommand -> bool) (t : nat)
  (st : UploadView.State) :
  let r := UploadView.handleUpload
             (route_POST BUCKET_NAME Date_now accepts t) st in
  let st' := fst r in
  let posted := snd r in
  (UploadView.files st = [] ->
   posted = []
   /\ UploadView.files st' = []
   /\ UploadView.uploadStatus st'
      = Some {| UploadView.success := false;
                UploadView.message :=
                  "Please select at least one file to upload" |})
  /\ (UploadView.files st <> [] ->
      (forall k command, accepts k command = true) ->
      posted = [UploadView.files st]
      /\ UploadView.files st' = []
      /\ UploadView.uploadStatus st'
         = Some {| UploadView.success := true;
                   UploadView.message :=
                     "Successfully uploaded "
                     ++ string_of_nat (List.length (UploadView.files st))
                     ++ " file(s)" |})
  /\ (UploadView.files st <> [] ->
      Upload.success
        (Upload.payload
           (Upload.response
              (Upload.POST BUCKET_NAME Date_now accepts
                 (Some (map Upload.FileEntry (UploadView.files st))) t)))
      = false ->
      posted = [UploadView.files st]
      /\ UploadView.files st' = UploadView.files st
      /\ UploadView.uploadStatus st'
         = Some {| UploadView.success := false;
                   UploadView.message := "Failed to upload files" |}).
Proof.
  cbv zeta. unfold UploadView.handleUpload.
  destruct (UploadView.files st) as [| f rest] eqn:Hfiles.
  - simpl.
    split; [intros _; repeat split; exact Hfiles |].
    split; intros H; contradiction H; reflexivity.
  - unfold route_POST.
    destruct (Upload.success
                (Upload.payload
                   (Upload.response
                      (Upload.POST BUCKET_NAME Date_now accepts
                         (Some (map Upload.FileEntry (f :: rest))) t))))
      eqn:Hs.
    + simpl negb. cbv iota.
      split; [intros H; discriminate H |].
      split; [| intros _ H; discriminate H].
      intros _ Hacc.
      pose proof (POST_accepted BUCKET_NAME Date_now accepts (f :: rest) t
                    Hacc) as HP.
      rewrite HP. cbn [Upload.response Upload.payload Upload.message].
      split; [reflexivity |]. split; [reflexivity |].
      simpl. reflexivity.
    + simpl negb. cbv iota.
      split; [intros H; discriminate H |].
      split.
      * intros _ Hacc.
        pose proof (POST_accepted BUCKET_NAME Date_now accepts (f :: rest) t
                      Hacc) as HP.
        rewrite HP in Hs. discriminate Hs.
      * intros _ _.
        assert (Hm : Upload.message
                       (Upload.payload
                          (Upload.response
                             (Upload.POST BUCKET_NAME Date_now accepts
                                (Some (map Upload.FileEntry (f :: rest))) t)))
                     = u "Failed to upload files").
        { revert Hs. unfold Upload.POST.
          destruct (Upload.for_of _ _ _ _ _ _ _) as [[results |] commands];
            simpl; [discriminate | reflexivity]. }
        rewrite Hm. simpl. repeat split.
Qed.

Lemma upload_click_witness :
  let st := {| UploadView.files :=
                 [ {| Upload.name := "a.txt"; Upload.type := "text/plain";
                      Upload.contents := u "hello" |} ];
               UploadView.uploading := false;
               UploadView.uploadStatus := None |} in
  let r := UploadView.handleUpload
             (route_POST "bucket" (fun _ => 17%N) (fun _ _ => true) 0) st in
  snd r = [UploadView.files st]
  /\ UploadView.files (fst r) = []
  /\ UploadView.uploadStatus (fst r)
     = Some {| UploadView.success := true;
               UploadView.message := "Successfully uploaded 1 file(s)" |}.
Proof.
  refine (proj1 (proj2 (upload_click "bucket" (fun _ => 17%N)
                          (fun _ _ => true) 0
                          {| UploadView.files :=
                               [ {| Upload.name := "a.txt";
                                    Upload.type := "text/plain";
                                    Upload.contents := u "hello" |} ];
                             UploadView.uploading := false;
                             UploadView.uploadStatus := None |})) _ _).
  - discriminate.
  - reflexivity.
Defined.
